(** * opmsg brainkey: deterministic EC key generation (src/brainkey.cc)

    A shallow embedding of [bk_RAND_bytes], [bk_bnrand], [bk_bnrand_range]
    and [opmsg::EC_KEY_generate_key], and the properties of the keystream,
    of the two samplers and of the key generator.

    Conventions of the embedding.
    - [int] values are modelled by [Z]; the code performs no signed
      arithmetic that overflows on the inputs its callers build, so no
      wrap-around is written for them.  The [unsigned int] counter
      [salt_cnt] is a 32-bit machine word and wraps.
    - [unsigned char] is [byte]; a byte buffer is a [list byte], and every
      indexed access is checked: an access outside the buffer gives the
      outcome [Undefined].
    - A [BIGNUM] is a [Z].  The libcrypto calls whose results the code
      does not control (the key derivation, the curve group, the key
      object, allocation) are the fields of a record [libcrypto].
    - Every [return 0] of the source is an outcome [Return0] carrying the
      kind of failure of that return site.
    - The state is the counter [salt_cnt] and the list of the calls made to
      the key derivation and to libcrypto's own key generator; it is
      threaded through every function, and a call that returns 0 keeps the
      state it has reached. *)

From Stdlib Require Import String ZArith List Lia Bool.
From coqutil Require Import Byte Word.Interface Word.Properties Word.Naive.
Import ListNotations.
Local Open Scope Z_scope.

(** ** Machine integers and bytes *)

(** [unsigned int], as used for [salt_cnt]. *)
Abbreviation uint := Naive.word32.

#[local] Existing Instance Naive.word32_ok.

Definition uint_incr (c : uint) : uint := word.add c (word.of_Z 1).

Definition NUL : byte := byte.of_Z 0.

Definition is_NUL (b : byte) : bool := byte.unsigned b =? 0.

(** The C string held at the start of a byte array: the bytes before the
    first NUL ([std::string::c_str] read through [%s], [strlen]). *)
Fixpoint c_str (s : list byte) : list byte :=
  match s with
  | [] => []
  | b :: tl => if is_NUL b then [] else b :: c_str tl
  end.

(** A byte string without NUL. *)
Definition no_NUL (l : list byte) : Prop := Forall (fun b => is_NUL b = false) l.

(** [std::string::size], as an integer. *)
Definition size (s : list byte) : Z := Z.of_nat (length s).

(** [std::string::substr(pos, n)] and [substr(pos)], for [pos <= size]. *)
Definition substr (s : list byte) (pos n : nat) : list byte :=
  firstn n (skipn pos s).

Definition substr_from (s : list byte) (pos : nat) : list byte :=
  skipn pos s.

(** ** printf conversions used by the salt format *)

Definition hex_digit (d : Z) : byte :=
  nth (Z.to_nat d) (list_byte_of_string "0123456789abcdef") NUL.

(** ["%08x"] of an [unsigned int]: a 32-bit value has at most eight
    hexadecimal digits, and the zero padding fills the rest. *)
Definition fmt_08x (c : uint) : list byte :=
  map (fun i => hex_digit ((word.unsigned c / 16 ^ i) mod 16))
      [7; 6; 5; 4; 3; 2; 1; 0].

Definition dot : list byte := list_byte_of_string ".".

(** [snprintf(buf, n, ...)] stores at most [n - 1] characters. *)
Definition snprintf (n : nat) (formatted : list byte) : list byte :=
  firstn (n - 1) formatted.

(** ** BIGNUM operations of libcrypto, on [Z] *)

(** Big-endian interpretation of a byte string. *)
Fixpoint BN_bin2bn (s : list byte) : Z :=
  match s with
  | [] => 0
  | b :: tl => byte.unsigned b * 2 ^ (8 * Z.of_nat (length tl)) + BN_bin2bn tl
  end.

Definition BN_num_bits (a : Z) : Z :=
  if a =? 0 then 0 else Z.log2 (Z.abs a) + 1.

Definition BN_is_bit_set (a n : Z) : bool :=
  if n <? 0 then false else Z.testbit (Z.abs a) n.

Definition BN_is_negative (a : Z) : bool := a <? 0.

Definition BN_is_zero (a : Z) : bool := a =? 0.

Definition BN_cmp (a b : Z) : Z :=
  match a ?= b with Lt => -1 | Eq => 0 | Gt => 1 end.

(** ** The libcrypto interface *)

Inductive EVP_MD := EVP_sha1 | EVP_sha256 | EVP_sha512.

Record EC_KEY {EC_GROUP EC_POINT : Type} := mkEC_KEY {
  group : EC_GROUP;
  priv_key : option Z;
  pub_key : option EC_POINT
}.
Arguments EC_KEY : clear implicits.
Arguments mkEC_KEY {EC_GROUP EC_POINT}.

(** What the code calls in libcrypto.  A call that can fail returns [None]
    or a return code different from 1; the [_ok] fields tell whether an
    allocating call succeeds. *)
Record libcrypto {EC_GROUP EC_POINT : Type} := {
  (** [PKCS5_PBKDF2_HMAC(pass, passlen, salt, saltlen, iter, digest, keylen, out)]:
      the bytes written to [out], or [None] when it does not return 1. *)
  PKCS5_PBKDF2_HMAC : list byte -> list byte -> Z -> EVP_MD -> Z -> option (list byte);
  new_nothrow_ok : Z -> bool;
  BN_bin2bn_ok : list byte -> bool;
  BN_sub_ok : Z -> Z -> bool;
  BN_new_ok : bool;
  BN_CTX_new_ok : bool;
  EC_POINT_new_ok : EC_GROUP -> bool;
  EC_GROUP_get_order : EC_GROUP -> option Z;
  (** [EC_POINT_mul(group, r, n, NULL, NULL, ctx)]: [n] times the generator. *)
  EC_POINT_mul : EC_GROUP -> Z -> option EC_POINT;
  EC_KEY_set_private_key : EC_KEY EC_GROUP EC_POINT -> Z -> Z * EC_KEY EC_GROUP EC_POINT;
  EC_KEY_set_public_key :
    EC_KEY EC_GROUP EC_POINT -> EC_POINT -> Z * EC_KEY EC_GROUP EC_POINT;
  (** [::EC_KEY_generate_key], the generator of libcrypto itself. *)
  lib_EC_KEY_generate_key : EC_KEY EC_GROUP EC_POINT -> Z * EC_KEY EC_GROUP EC_POINT
}.
Arguments libcrypto : clear implicits.

(** The part of libcrypto's contract that the properties below rely on. *)
Record libcrypto_laws {EC_GROUP EC_POINT : Type} (L : libcrypto EC_GROUP EC_POINT) : Prop := {
  (** a successful derivation writes exactly [keylen] bytes *)
  PBKDF2_length : forall pass salt iter md keylen out,
    PKCS5_PBKDF2_HMAC L pass salt iter md keylen = Some out -> size out = keylen;
  (** a successful setter stores its argument and touches nothing else *)
  set_private_key_stores : forall k d k',
    EC_KEY_set_private_key L k d = (1, k') ->
    priv_key k' = Some d /\ pub_key k' = pub_key k /\ group k' = group k;
  set_public_key_stores : forall k p k',
    EC_KEY_set_public_key L k p = (1, k') ->
    pub_key k' = Some p /\ priv_key k' = priv_key k /\ group k' = group k
}.

(** ** Program state and outcomes *)

(** The calls into libcrypto that the properties observe. *)
Inductive event :=
| Ev_PBKDF2 (pass salt : list byte) (iter : Z) (md : EVP_MD) (keylen : Z)
| Ev_lib_EC_KEY_generate_key.

(** The function-local [static unsigned int salt_cnt], and the calls made
    so far (the latest first). *)
Record state := mkState {
  salt_cnt : uint;
  calls : list event
}.

(** The [return 0] sites of the source, by kind of failure:
    - [Unsupported]: the brainkey is shorter than 16 bytes (line 56), or the
      fill returned no byte (line 116);
    - [DerivationFailure]: [PKCS5_PBKDF2_HMAC] did not return 1 (line 78);
    - [InvalidShapeRequest]: the guards of [bk_bnrand] (lines 97 and 103);
    - [AllocationFailure]: a buffer or a number could not be made (lines
      111, 134, 174, 177 and 214);
    - [InvalidRange]: [range] is negative or zero (line 149);
    - [SamplingExhausted]: [count] has reached zero (lines 181 and 191);
    - [KeyGenerationFailure]: the curve group or the key object refused
      (lines 217, 225, 228 and 230). *)
Inductive failure :=
| Unsupported
| DerivationFailure
| InvalidShapeRequest
| AllocationFailure
| InvalidRange
| SamplingExhausted
| KeyGenerationFailure.

(** How a call ends: with a result; through a [return 0]; in behaviour
    the language leaves undefined (an access outside a buffer); or, for the
    loops that the embedding bounds by fuel, without an end within the
    fuel. *)
Inductive outcome (A : Type) :=
| Ok (a : A)
| Return0 (why : failure)
| Undefined
| OutOfFuel.
Arguments Ok {A}.
Arguments Return0 {A}.
Arguments Undefined {A}.
Arguments OutOfFuel {A}.

Definition M (A : Type) : Type := state -> outcome A * state.

Definition ret {A} (a : A) : M A := fun s => (Ok a, s).

Definition bind {A B} (m : M A) (f : A -> M B) : M B :=
  fun s =>
    match m s with
    | (Ok a, s') => f a s'
    | (Return0 why, s') => (Return0 why, s')
    | (Undefined, s') => (Undefined, s')
    | (OutOfFuel, s') => (OutOfFuel, s')
    end.

Notation "x <- m ;; k" := (bind m (fun x => k))
  (at level 61, m at next level, right associativity).

Definition return0 {A} (why : failure) : M A := fun s => (Return0 why, s).

Definition undefined {A} : M A := fun s => (Undefined, s).

Definition out_of_fuel {A} : M A := fun s => (OutOfFuel, s).

(** [salt_cnt++] *)
Definition post_incr_salt_cnt : M uint :=
  fun s => (Ok (salt_cnt s), mkState (uint_incr (salt_cnt s)) (calls s)).

Definition log (e : event) : M unit :=
  fun s => (Ok tt, mkState (salt_cnt s) (e :: calls s)).

(** ** Byte buffers with checked indexing *)

Definition buf_get (buf : list byte) (i : Z) : option byte :=
  if i <? 0 then None else nth_error buf (Z.to_nat i).

Definition buf_set (buf : list byte) (i : Z) (b : byte) : list byte :=
  firstn (Z.to_nat i) buf ++ b :: skipn (S (Z.to_nat i)) buf.

(** [buf[i] = f(buf[i])], undefined outside the buffer. *)
Definition buf_update (buf : list byte) (i : Z) (f : Z -> Z) : M (list byte) :=
  match buf_get buf i with
  | Some b => ret (buf_set buf i (byte.of_Z (f (byte.unsigned b))))
  | None => undefined
  end.

(** The byte at index [i], as a number. *)
Definition byte_at (buf : list byte) (i : Z) : Z :=
  byte.unsigned (nth (Z.to_nat i) buf NUL).

(** [memcpy(buf + have, out, need)] *)
Definition memcpy (buf : list byte) (have : Z) (out : list byte) (need : Z) : list byte :=
  firstn (Z.to_nat have) buf ++ firstn (Z.to_nat need) out
    ++ skipn (Z.to_nat (have + need)) buf.

(** ** The program (namespace [opmsg]) *)

(** Own enum of the source; libressl misses the defines. *)
Definition bk_BN_RAND_TOP_ANY : Z := -1.
Definition bk_BN_RAND_BOTTOM_ANY : Z := 0.

(** The other shaping values callers may pass, as libcrypto's [bn.h] numbers
    them.  The code tells them apart by sign and by zero only. *)
Definition BN_RAND_TOP_ONE : Z := 0.
Definition BN_RAND_TOP_TWO : Z := 1.
Definition BN_RAND_BOTTOM_ODD : Z := 1.

Definition init_salt : list byte := list_byte_of_string "opmsg-brainkey-v1".

Section Brainkey.

Context {EC_GROUP EC_POINT : Type}.
Variable L : libcrypto EC_GROUP EC_POINT.

(** [config::brainkey1] *)
Variable brainkey1 : list byte.

Definition salt : list byte := substr brainkey1 0 4.
Definition pass : list byte := substr_from brainkey1 4.

(** The contents of [saltbuf] after the [snprintf] of line 72. *)
Definition saltbuf (cnt : uint) : list byte :=
  snprintf 127 (c_str salt ++ dot ++ c_str init_salt ++ dot ++ fmt_08x cnt).

(** The call of [PKCS5_PBKDF2_HMAC] and its test against 1. *)
Definition call_PBKDF2 (pw slt : list byte) (iter : Z) (md : EVP_MD) (keylen : Z)
  : M (list byte) :=
  _ <- log (Ev_PBKDF2 pw slt iter md keylen) ;;
  match PKCS5_PBKDF2_HMAC L pw slt iter md keylen with
  | Some out => ret out
  | None => return0 DerivationFailure
  end.

(** The [for] loop of [bk_RAND_bytes]: [buf] is the caller's buffer,
    [have] the number of bytes already written. *)
Fixpoint bk_RAND_bytes_loop (fuel : nat) (buflen have : Z) (buf : list byte)
  : M (list byte) :=
  if have <? buflen then
    match fuel with
    | O => out_of_fuel
    | S fuel' =>
        cnt <- post_incr_salt_cnt ;;
        out <- call_PBKDF2 pass (c_str (saltbuf cnt)) 10000 EVP_sha256 32 ;;
        let need := buflen - have in
        let need := if need >? 32 then 32 else need in
        bk_RAND_bytes_loop fuel' buflen (have + need) (memcpy buf have out need)
    end
  else ret buf.

(** [bk_RAND_bytes(buf, buflen)]: the value returned and the bytes left
    in [buf].  Every turn of the loop writes at least one byte, so
    [buflen] turns are enough fuel. *)
Definition bk_RAND_bytes (buflen : Z) : M (Z * list byte) :=
  if size brainkey1 <? 16 then return0 Unsupported
  else if buflen <? 0 then undefined
  else
    buf <- bk_RAND_bytes_loop (Z.to_nat buflen) buflen 0
             (repeat NUL (Z.to_nat buflen)) ;;
    ret (buflen, buf).

(** The shaping of the random bytes (lines 118 to 132 of the source):
    the top bits asked for by [top], the bits above the top bit cleared,
    the bottom bit when [bottom] asks for it. *)
Definition shape_buf (bytes bit mask top bottom : Z) (buf : list byte) : M (list byte) :=
  buf <- (if top >=? 0 then
            if negb (top =? 0) then
              if bit =? 0 then
                buf <- buf_update buf 0 (fun _ => 1) ;;
                buf_update buf 1 (fun x => Z.lor x 128)
              else buf_update buf 0 (fun x => Z.lor x (Z.shiftl 3 (bit - 1)))
            else buf_update buf 0 (fun x => Z.lor x (Z.shiftl 1 bit))
          else ret buf) ;;
  buf <- buf_update buf 0 (fun x => Z.land x (Z.lnot mask)) ;;
  if negb (bottom =? 0)
  then buf_update buf (bytes - 1) (fun x => Z.lor x 1)
  else ret buf.

(** [bk_bnrand(rnd, bits, top, bottom)]: the value stored in [rnd]. *)
Definition bk_bnrand (bits top bottom : Z) : M Z :=
  if bits =? 0 then
    if negb (top =? bk_BN_RAND_TOP_ANY) || negb (bottom =? bk_BN_RAND_BOTTOM_ANY)
    then return0 InvalidShapeRequest
    else ret 0
  else if (bits <? 0) || ((bits =? 1) && (top >? 0)) then return0 InvalidShapeRequest
  else
    let bytes := Z.quot (bits + 7) 8 in
    let bit := Z.rem (bits - 1) 8 in
    let mask := Z.shiftl 255 (bit + 1) in
    if negb (new_nothrow_ok L bytes) then return0 AllocationFailure
    else
      r <- bk_RAND_bytes bytes ;;
      let '(b, buf) := r in
      if b <=? 0 then return0 Unsupported
      else
        buf <- shape_buf bytes bit mask top bottom buf ;;
        if negb (BN_bin2bn_ok L buf) then return0 AllocationFailure
        else ret (BN_bin2bn buf).

(** [BN_sub(r, r, range)] and its test *)
Definition call_BN_sub (a b : Z) : M Z :=
  if BN_sub_ok L a b then ret (a - b) else return0 AllocationFailure.

(** First loop of [bk_bnrand_range] ([range = 100..._2]).  [count] is the
    value of the variable [count] on entry of a turn; the loop is left
    through [return 0] when the decrement makes it zero. *)
Fixpoint range_loop_top_zeros (count : nat) (range n : Z) : M Z :=
  match count with
  | O => out_of_fuel
  | S count' =>
      r <- bk_bnrand (n + 1) bk_BN_RAND_TOP_ANY bk_BN_RAND_BOTTOM_ANY ;;
      r <- (if BN_cmp r range >=? 0 then
              r <- call_BN_sub r range ;;
              if BN_cmp r range >=? 0 then call_BN_sub r range else ret r
            else ret r) ;;
      if Nat.eqb count' 0 then return0 SamplingExhausted
      else if BN_cmp r range >=? 0 then range_loop_top_zeros count' range n
      else ret r
  end.

(** Second loop ([range = 11..._2] or [range = 101..._2]). *)
Fixpoint range_loop_plain (count : nat) (range n : Z) : M Z :=
  match count with
  | O => out_of_fuel
  | S count' =>
      r <- bk_bnrand n bk_BN_RAND_TOP_ANY bk_BN_RAND_BOTTOM_ANY ;;
      if Nat.eqb count' 0 then return0 SamplingExhausted
      else if BN_cmp r range >=? 0 then range_loop_plain count' range n
      else ret r
  end.

(** [bk_bnrand_range(r, range)]: the value stored in [r]. *)
Definition bk_bnrand_range (range : Z) : M Z :=
  if BN_is_negative range || BN_is_zero range then return0 InvalidRange
  else
    let n := BN_num_bits range in
    if n =? 1 then ret 0
    else if negb (BN_is_bit_set range (n - 2)) && negb (BN_is_bit_set range (n - 3))
    then range_loop_top_zeros 100 range n
    else range_loop_plain 100 range n.

(** The [do ... while (BN_is_zero(priv_key))] loop of the generator.  The
    source puts no bound on it. *)
Fixpoint sample_priv_key (fuel : nat) (order : Z) : M Z :=
  match fuel with
  | O => out_of_fuel
  | S fuel' =>
      priv <- bk_bnrand_range order ;;
      if BN_is_zero priv then sample_priv_key fuel' order else ret priv
  end.

(** [opmsg::EC_KEY_generate_key(eckey)]: the value returned, the key object
    as the call leaves it, and the state. *)
Definition EC_KEY_generate_key (fuel : nat) (eckey : EC_KEY EC_GROUP EC_POINT) (s : state)
  : outcome Z * EC_KEY EC_GROUP EC_POINT * state :=
  if size brainkey1 <? 16 then
    let '(rc, eckey') := lib_EC_KEY_generate_key L eckey in
    (Ok rc, eckey', mkState (salt_cnt s) (Ev_lib_EC_KEY_generate_key :: calls s))
  else
    let ec_grp := group eckey in
    if negb (BN_CTX_new_ok L && BN_new_ok L && BN_new_ok L && EC_POINT_new_ok L ec_grp)
    then (Return0 AllocationFailure, eckey, s)
    else
      match EC_GROUP_get_order L ec_grp with
      | None => (Return0 KeyGenerationFailure, eckey, s)
      | Some order =>
          match sample_priv_key fuel order s with
          | (Ok priv, s') =>
              match EC_POINT_mul L ec_grp priv with
              | None => (Return0 KeyGenerationFailure, eckey, s')
              | Some pub =>
                  let '(rc1, eckey1) := EC_KEY_set_private_key L eckey priv in
                  if negb (rc1 =? 1) then (Return0 KeyGenerationFailure, eckey1, s')
                  else
                    let '(rc2, eckey2) := EC_KEY_set_public_key L eckey1 pub in
                    if negb (rc2 =? 1) then (Return0 KeyGenerationFailure, eckey2, s')
                    else (Ok 1, eckey2, s')
              end
          | (Return0 why, s') => (Return0 why, eckey, s')
          | (Undefined, s') => (Undefined, eckey, s')
          | (OutOfFuel, s') => (OutOfFuel, eckey, s')
          end
      end.

End Brainkey.

Arguments bk_RAND_bytes {EC_GROUP EC_POINT} L brainkey1 buflen s.
Arguments bk_bnrand {EC_GROUP EC_POINT} L brainkey1 bits top bottom s.
Arguments bk_bnrand_range {EC_GROUP EC_POINT} L brainkey1 range s.

(** ** A small libcrypto, to run the program on *)

Module Toy.

(** The curve group is the additive group of integers modulo [order],
    generated by 1: a group is its order, a point a residue. *)
Definition toy_group : Type := Z.
Definition toy_point : Type := Z.

(** A derivation that fills the output with one byte chosen from the salt,
    and fails when the choice is negative. *)
Definition kdf (pick : list byte -> Z) (pw slt : list byte) (iter : Z) (md : EVP_MD)
  (keylen : Z) : option (list byte) :=
  if (keylen <? 0) || (pick slt <? 0) then None
  else Some (repeat (byte.of_Z (pick slt)) (Z.to_nat keylen)).

Definition set_private_key (k : EC_KEY toy_group toy_point) (d : Z) :=
  (1, mkEC_KEY (group k) (Some d) (pub_key k)).

Definition set_public_key (ok : bool) (k : EC_KEY toy_group toy_point) (p : toy_point) :=
  if ok then (1, mkEC_KEY (group k) (priv_key k) (Some p)) else (0, k).

(** [pick] drives the derivation; [pub_ok] tells whether the public-key
    setter succeeds. *)
Definition lib (pick : list byte -> Z) (pub_ok : bool) : libcrypto toy_group toy_point :=
  {| PKCS5_PBKDF2_HMAC := kdf pick;
     new_nothrow_ok := fun _ => true;
     BN_bin2bn_ok := fun _ => true;
     BN_sub_ok := fun _ _ => true;
     BN_new_ok := true;
     BN_CTX_new_ok := true;
     EC_POINT_new_ok := fun _ => true;
     EC_GROUP_get_order := fun g => Some g;
     EC_POINT_mul := fun g n => Some (n mod g);
     EC_KEY_set_private_key := set_private_key;
     EC_KEY_set_public_key := set_public_key pub_ok;
     lib_EC_KEY_generate_key := fun k => (1, mkEC_KEY (group k) (Some 1) (Some 1)) |}.

(** Sum of the bytes of the salt. *)
Definition checksum (slt : list byte) : Z :=
  fold_right (fun b acc => byte.unsigned b + acc) 0 slt.

(** Length of the salt. *)
Definition salt_length (slt : list byte) : Z := size slt.

(** 255 for every salt but the one of counter value 99 (hex 63). *)
Definition all_ones_but_99 (slt : list byte) : Z :=
  match rev slt with
  | d0 :: d1 :: _ =>
      if (byte.unsigned d0 =? 51) && (byte.unsigned d1 =? 54) then 0 else 255
  | _ => 255
  end.

(** Failure for the salt of a counter value that ends in the digit 2. *)
Definition fails_at_2 (slt : list byte) : Z :=
  match rev slt with
  | d0 :: _ => if byte.unsigned d0 =? 50 then -1 else checksum slt
  | _ => checksum slt
  end.

(** The instances used below. *)
Definition libc := lib checksum true.
Definition libc_pub_fails := lib checksum false.
Definition libc_salt_length := lib salt_length true.
Definition libc_fails_at_2 := lib fails_at_2 true.
Definition libc_ones_but_99 := lib all_ones_but_99 true.

(** The byte is a multiple of 16 for the counter value 0, so that the
    first scalar drawn for a four-bit order is 0. *)
Definition libc_zero_first := lib (fun slt => checksum slt - 2) true.

Definition brainkey : list byte := list_byte_of_string "abcdopmsg-test-pass".

(** A brainkey whose first byte is NUL. *)
Definition brainkey_nul : list byte := NUL :: list_byte_of_string "bcdopmsg-test-pass".

Definition short_brainkey : list byte := list_byte_of_string "abcd".

Definition s0 : state := mkState (word.of_Z 0) [].

Definition key0 (order : Z) : EC_KEY toy_group toy_point := mkEC_KEY order None None.

End Toy.

(** ** The keystream, block by block

    These definitions do not come from the code: they say what the blocks
    of the keystream are, and the theorems compare [bk_RAND_bytes] with
    them. *)

Definition salt_infix : list byte := list_byte_of_string ".opmsg-brainkey-v1.".

(** The derivation salt of the block of counter value [c]: the four salt
    bytes as a C string, the fixed infix, the counter in hexadecimal. *)
Definition block_salt (brainkey1 : list byte) (c : uint) : list byte :=
  c_str (salt brainkey1) ++ salt_infix ++ fmt_08x c.

(** The same with the four salt bytes taken whole. *)
Definition block_salt_four_bytes (brainkey1 : list byte) (c : uint) : list byte :=
  salt brainkey1 ++ salt_infix ++ fmt_08x c.

Section Keystream.

Context {EC_GROUP EC_POINT : Type}.
Variable L : libcrypto EC_GROUP EC_POINT.
Variable brainkey1 : list byte.

(** How the salt of a block is built from the counter. *)
Variable salt_of : uint -> list byte.

(** PBKDF2-HMAC-SHA-256 of the passphrase, 10000 iterations, 32 bytes. *)
Definition block (c : uint) : option (list byte) :=
  PKCS5_PBKDF2_HMAC L (pass brainkey1) (salt_of c) 10000 EVP_sha256 32.

Definition block_call (c : uint) : event :=
  Ev_PBKDF2 (pass brainkey1) (salt_of c) 10000 EVP_sha256 32.

(** [n] blocks from the counter values [c], [c + 1], ... *)
Fixpoint keystream (c : uint) (n : nat) : option (list byte) :=
  match n with
  | O => Some []
  | S n' =>
      match block c, keystream (uint_incr c) n' with
      | Some b, Some ks => Some (b ++ ks)
      | _, _ => None
      end
  end.

(** The derivation calls of these [n] blocks, the latest first. *)
Fixpoint keystream_calls (c : uint) (n : nat) : list event :=
  match n with
  | O => []
  | S n' => keystream_calls (uint_incr c) n' ++ [block_call c]
  end.

End Keystream.

(** Number of 32-byte blocks that cover [len] bytes. *)
Definition blocks_for (len : Z) : Z := (len + 31) / 32.

(** ** Successive draws of the range sampler *)

(** What a draw [v] becomes in the first loop: [range] is subtracted at
    most twice. *)
Definition reduce_twice (range v : Z) : Z :=
  if v <? range then v
  else if v - range <? range then v - range
  else v - range - range.

(** The two loops in one view: which loop runs, the width of a draw, the
    candidate made of a draw, and whether the loop accepts it. *)
Definition top_zeros (range : Z) : bool :=
  let n := BN_num_bits range in
  negb (BN_is_bit_set range (n - 2)) && negb (BN_is_bit_set range (n - 3)).

Definition draw_bits (range : Z) : Z :=
  if top_zeros range then BN_num_bits range + 1 else BN_num_bits range.

Definition candidate (range v : Z) : Z :=
  if top_zeros range then reduce_twice range v else v.

Definition accepted (range v : Z) : bool := candidate range v <? range.

(** One draw of the range sampler: [bk_bnrand] with no shaping. *)
Definition draw {EC_GROUP EC_POINT : Type} (L : libcrypto EC_GROUP EC_POINT)
  (brainkey1 : list byte) (range : Z) : M Z :=
  bk_bnrand L brainkey1 (draw_bits range) bk_BN_RAND_TOP_ANY bk_BN_RAND_BOTTOM_ANY.

(** One attempt of a rejection loop: the draw and, in the loop for
    [range = 100..._2], the subtractions that follow it (lines 163 to 178
    of the source; line 187 in the other loop).  An attempt gives a value
    when the draw returns one and no subtraction fails. *)
Definition attempt {EC_GROUP EC_POINT : Type} (L : libcrypto EC_GROUP EC_POINT)
  (brainkey1 : list byte) (range : Z) : M Z :=
  r <- draw L brainkey1 range ;;
  if top_zeros range then
    if BN_cmp r range >=? 0 then
      r <- call_BN_sub L r range ;;
      if BN_cmp r range >=? 0 then call_BN_sub L r range else ret r
    else ret r
  else ret r.

(** [rejected_attempts k s]: the state after [k] attempts from [s], when
    these [k] attempts all give a value and none of the values is below
    [range]. *)
Fixpoint rejected_attempts {EC_GROUP EC_POINT : Type} (L : libcrypto EC_GROUP EC_POINT)
  (brainkey1 : list byte) (range : Z) (k : nat) (s : state) : option state :=
  match k with
  | O => Some s
  | S k' =>
      match attempt L brainkey1 range s with
      | (Ok r, s1) =>
          if r <? range then None else rejected_attempts L brainkey1 range k' s1
      | _ => None
      end
  end.

(** The loop that [bk_bnrand_range] runs for [range]. *)
Definition the_loop {EC_GROUP EC_POINT : Type} (L : libcrypto EC_GROUP EC_POINT)
  (brainkey1 : list byte) (range : Z) (count : nat) : M Z :=
  if top_zeros range
  then range_loop_top_zeros L brainkey1 count range (BN_num_bits range)
  else range_loop_plain L brainkey1 count range (BN_num_bits range).

(** How the attempts of a loop entered with [count = c + 1] can go: an
    attempt among the first [c] is the first to give a value below
    [range]; or the first [c] attempts are rejected and one more attempt
    gives a value; or an attempt among the first [c + 1] gives no value, the
    attempts before it being rejected. *)
Inductive run_of_attempts {EC_GROUP EC_POINT : Type} (L : libcrypto EC_GROUP EC_POINT)
  (brainkey1 : list byte) (range : Z) (c : nat) (s : state) : Prop :=
| FirstAccepted (k : nat) (sk : state) (r : Z) (s' : state)
    (Hk : (k < c)%nat)
    (Hrej : rejected_attempts L brainkey1 range k s = Some sk)
    (Hatt : attempt L brainkey1 range sk = (Ok r, s'))
    (Hacc : r < range)
| AllRejected (sk : state) (r : Z) (s' : state)
    (Hrej : rejected_attempts L brainkey1 range c s = Some sk)
    (Hatt : attempt L brainkey1 range sk = (Ok r, s'))
| AttemptFailed (k : nat) (sk : state) (o : outcome Z) (s' : state)
    (Hk : (k <= c)%nat)
    (Hrej : rejected_attempts L brainkey1 range k s = Some sk)
    (Hatt : attempt L brainkey1 range sk = (o, s'))
    (Hno : forall r, o <> Ok r).

(** ** Successive samplings of the private scalar *)

(** [zero_samples order k s]: the state after [k] calls of
    [bk_bnrand_range] on [order] from [s], when these [k] calls all return
    the scalar 0. *)
Fixpoint zero_samples {EC_GROUP EC_POINT : Type} (L : libcrypto EC_GROUP EC_POINT)
  (brainkey1 : list byte) (order : Z) (k : nat) (s : state) : option state :=
  match k with
  | O => Some s
  | S k' =>
      match bk_bnrand_range L brainkey1 order s with
      | (Ok r, s1) =>
          if BN_is_zero r then zero_samples L brainkey1 order k' s1 else None
      | _ => None
      end
  end.

(** ** What a fill produces

    [fill_spec salt_of len s]: a fill of [len] bytes from the state [s]
    succeeds exactly when the derivations of its blocks all do; it then
    returns [len], leaves in the buffer the first [len] bytes of the
    32-byte blocks derived with the salts [salt_of c], [salt_of (c + 1)],
    ..., and has advanced the counter by the number of blocks. *)

Definition fill_spec {EC_GROUP EC_POINT : Type} (L : libcrypto EC_GROUP EC_POINT)
  (brainkey1 : list byte) (salt_of : uint -> list byte) (len : Z) (s : state) : Prop :=
  forall rc buf s',
    bk_RAND_bytes L brainkey1 len s = (Ok (rc, buf), s') <->
    exists ks,
      keystream L brainkey1 salt_of (salt_cnt s) (Z.to_nat (blocks_for len)) = Some ks /\
      size ks = 32 * blocks_for len /\
      rc = len /\
      buf = firstn (Z.to_nat len) ks /\
      salt_cnt s' = word.add (salt_cnt s) (word.of_Z (blocks_for len)) /\
      calls s' =
        keystream_calls brainkey1 salt_of (salt_cnt s) (Z.to_nat (blocks_for len)) ++ calls s.

(** ** The calls a run adds *)

(** The salt of a derivation call. *)
Definition call_salt (e : event) : list byte :=
  match e with
  | Ev_PBKDF2 _ slt _ _ _ => slt
  | Ev_lib_EC_KEY_generate_key => []
  end.

(** A derivation call of the shape of the blocks: the passphrase, the salt
    of some counter value, 10000 iterations, SHA-256, 32 bytes. *)
Definition is_block_call (brainkey1 : list byte) (e : event) : Prop :=
  exists c, e = block_call brainkey1 (block_salt brainkey1) c.

(** From [s] to [s'] the only calls added are such derivation calls. *)
Definition derivations_only (brainkey1 : list byte) (s s' : state) : Prop :=
  exists new, calls s' = new ++ calls s /\ Forall (is_block_call brainkey1) new.

(** A computation that adds such calls only, however it ends. *)
Definition keeps_to_derivations {A} (brainkey1 : list byte) (m : M A) : Prop :=
  forall s o s', m s = (o, s') -> derivations_only brainkey1 s s'.

(** ** Outcomes seen by the caller *)

(** The call returned 0. *)
Definition fails {A} (o : outcome A) : Prop := exists why, o = Return0 why.

(** [v] has exactly [bits] significant bits. *)
Definition bit_length_is (v bits : Z) : Prop := BN_num_bits v = bits.

(** * Properties *)

(** ** Strings and the salt *)

Lemma c_str_no_NUL (l : list byte) : no_NUL (c_str l).
Proof.
  induction l as [|b tl IH]; simpl.
  - constructor.
  - destruct (is_NUL b) eqn:E; constructor; assumption.
Qed.

Lemma c_str_fixpoint (l : list byte) : no_NUL l -> c_str l = l.
Proof.
  induction 1 as [|b tl Hb _ IH]; simpl.
  - reflexivity.
  - rewrite Hb, IH. reflexivity.
Qed.

Lemma c_str_length (l : list byte) : (length (c_str l) <= length l)%nat.
Proof.
  induction l as [|b tl IH]; simpl; [lia|].
  destruct (is_NUL b); simpl; lia.
Qed.

Lemma no_NUL_app (l1 l2 : list byte) : no_NUL l1 -> no_NUL l2 -> no_NUL (l1 ++ l2).
Proof. intros H1 H2. apply Forall_app. split; assumption. Qed.

Lemma hex_digit_no_NUL (d : Z) : 0 <= d < 16 -> is_NUL (hex_digit d) = false.
Proof.
  intros Hd.
  assert (Hc : d = 0 \/ d = 1 \/ d = 2 \/ d = 3 \/ d = 4 \/ d = 5 \/ d = 6 \/ d = 7 \/
               d = 8 \/ d = 9 \/ d = 10 \/ d = 11 \/ d = 12 \/ d = 13 \/ d = 14 \/ d = 15)
    by lia.
  repeat (destruct Hc as [-> | Hc]; [reflexivity|]). subst d. reflexivity.
Qed.

Lemma fmt_08x_no_NUL (c : uint) : no_NUL (fmt_08x c).
Proof.
  unfold fmt_08x, no_NUL. apply Forall_map, Forall_forall.
  intros i _. apply hex_digit_no_NUL. apply Z.mod_pos_bound. lia.
Qed.

Lemma fmt_08x_length (c : uint) : length (fmt_08x c) = 8%nat.
Proof. reflexivity. Qed.

Lemma salt_length_le (bk : list byte) : (length (salt bk) <= 4)%nat.
Proof. unfold salt, substr. rewrite length_firstn. lia. Qed.

(** The salt handed to the derivation is the C string in [saltbuf]; the
    128-byte buffer never truncates it. *)
Lemma saltbuf_block_salt (bk : list byte) (c : uint) :
  c_str (saltbuf bk c) = block_salt bk c.
Proof.
  assert (Hfmt : saltbuf bk c = block_salt bk c).
  { unfold saltbuf, snprintf, block_salt.
    change (c_str init_salt) with init_salt.
    change (dot ++ init_salt ++ dot ++ fmt_08x c) with (salt_infix ++ fmt_08x c).
    apply firstn_all2. rewrite !length_app, fmt_08x_length.
    pose proof (c_str_length (salt bk)). pose proof (salt_length_le bk).
    change (length salt_infix) with 19%nat. lia. }
  rewrite Hfmt. apply c_str_fixpoint. unfold block_salt.
  apply no_NUL_app; [apply c_str_no_NUL|].
  apply no_NUL_app; [|apply fmt_08x_no_NUL].
  unfold no_NUL. repeat constructor.
Qed.

(** Without a NUL among the four salt bytes the C string is the four bytes. *)
Lemma block_salt_four_bytes_eq (bk : list byte) (c : uint) :
  no_NUL (salt bk) -> block_salt bk c = block_salt_four_bytes bk c.
Proof.
  intros H. unfold block_salt, block_salt_four_bytes. rewrite c_str_fixpoint by assumption.
  reflexivity.
Qed.

(** ** The counter *)

Lemma uint_add_0 (c : uint) : word.add c (word.of_Z 0) = c.
Proof.
  apply word.unsigned_inj. rewrite word.unsigned_add, word.unsigned_of_Z.
  unfold word.wrap. rewrite Z.mod_0_l by (cbv; discriminate).
  rewrite Z.add_0_r. apply Z.mod_small, word.unsigned_range.
Qed.

Lemma uint_incr_add (c : uint) (k : Z) :
  word.add (uint_incr c) (word.of_Z k) = word.add c (word.of_Z (k + 1)).
Proof.
  apply word.unsigned_inj. unfold uint_incr.
  rewrite !word.unsigned_add, !word.unsigned_of_Z. unfold word.wrap.
  change (1 mod 2 ^ 32) with 1.
  rewrite Zplus_mod_idemp_l, !Zplus_mod_idemp_r. f_equal. lia.
Qed.

Lemma uint_add_succ (c : uint) (m : nat) :
  word.add (uint_incr c) (word.of_Z (Z.of_nat m)) = word.add c (word.of_Z (Z.of_nat (S m))).
Proof. rewrite uint_incr_add. do 2 f_equal. lia. Qed.

(** ** The keystream loop *)

Lemma blocks_for_step (buflen have : Z) (m : nat) :
  0 <= have <= buflen ->
  Z.of_nat (S m) = blocks_for (buflen - have) ->
  let need := if buflen - have >? 32 then 32 else buflen - have in
  have < buflen /\ 1 <= need <= 32 /\ have + need <= buflen /\
  Z.of_nat m = blocks_for (buflen - (have + need)).
Proof.
  unfold blocks_for. intros Hh Hm. cbv zeta.
  destruct (Z.gtb_spec (buflen - have) 32) as [E|E];
    Z.to_euclidean_division_equations; lia.
Qed.

Lemma blocks_for_0 (buflen have : Z) :
  0 <= have <= buflen -> 0 = blocks_for (buflen - have) -> have = buflen.
Proof.
  unfold blocks_for. intros Hh H0. Z.to_euclidean_division_equations. lia.
Qed.

Lemma blocks_for_le (len : Z) : 0 <= len -> 0 <= blocks_for len <= len.
Proof.
  unfold blocks_for. intros H. Z.to_euclidean_division_equations. lia.
Qed.

Section KeystreamFacts.

Context {EC_GROUP EC_POINT : Type}.
Variable L : libcrypto EC_GROUP EC_POINT.
Variable bk : list byte.
Hypothesis L_ok : libcrypto_laws L.

#[local] Abbreviation blk := (block L bk (block_salt bk)).
#[local] Abbreviation kstream := (keystream L bk (block_salt bk)).
#[local] Abbreviation kcalls := (keystream_calls bk (block_salt bk)).

Lemma block_size (c : uint) (b : list byte) : blk c = Some b -> length b = 32%nat.
Proof.
  unfold block. intros H. apply (PBKDF2_length L L_ok) in H. unfold size in H. lia.
Qed.

Lemma keystream_size (n : nat) : forall c ks,
  kstream c n = Some ks -> length ks = (32 * n)%nat.
Proof.
  induction n as [|n IH]; simpl; intros c ks H.
  - injection H as <-. reflexivity.
  - destruct (blk c) as [b|] eqn:Eb; [|discriminate].
    destruct (kstream (uint_incr c) n) as [ks'|] eqn:Ek; [|discriminate].
    injection H as <-. rewrite length_app, (block_size _ _ Eb), (IH _ _ Ek). lia.
Qed.

(** One turn of the loop. *)
Lemma loop_turn (fuel : nat) (buflen have : Z) (buf : list byte) (s : state) :
  have < buflen ->
  bk_RAND_bytes_loop L bk (S fuel) buflen have buf s =
  let s1 := mkState (uint_incr (salt_cnt s))
                    (block_call bk (block_salt bk) (salt_cnt s) :: calls s) in
  match blk (salt_cnt s) with
  | Some out =>
      let need := if buflen - have >? 32 then 32 else buflen - have in
      bk_RAND_bytes_loop L bk fuel buflen (have + need) (memcpy buf have out need) s1
  | None => (Return0 DerivationFailure, s1)
  end.
Proof.
  intros Hlt. simpl. apply Z.ltb_lt in Hlt. rewrite Hlt.
  unfold bind, post_incr_salt_cnt, call_PBKDF2, bind, log. simpl.
  rewrite saltbuf_block_salt. unfold block, block_call.
  destruct (PKCS5_PBKDF2_HMAC L (pass bk) (block_salt bk (salt_cnt s)) 10000 EVP_sha256 32);
    reflexivity.
Qed.

Lemma loop_done (fuel : nat) (buflen have : Z) (buf : list byte) (s : state) :
  buflen <= have -> bk_RAND_bytes_loop L bk fuel buflen have buf s = (Ok buf, s).
Proof.
  intros Hle. apply Z.ltb_ge in Hle. destruct fuel; simpl; rewrite Hle; reflexivity.
Qed.

Lemma memcpy_prefix (buf out : list byte) (have need : Z) :
  0 <= have -> 0 <= need -> have + need <= size buf -> need <= size out ->
  size (memcpy buf have out need) = size buf /\
  firstn (Z.to_nat (have + need)) (memcpy buf have out need) =
  firstn (Z.to_nat have) buf ++ firstn (Z.to_nat need) out.
Proof.
  unfold size, memcpy. intros H1 H2 H3 H4. split.
  - rewrite !length_app, !length_firstn, length_skipn. lia.
  - rewrite app_assoc. rewrite firstn_app.
    rewrite length_app, !length_firstn.
    replace (Z.to_nat (have + need) - _)%nat with 0%nat by lia.
    rewrite firstn_O, app_nil_r. apply firstn_all2.
    rewrite length_app, !length_firstn. lia.
Qed.

(** The loop when every derivation succeeds. *)
Lemma loop_ok (m : nat) : forall fuel buflen have buf s ks,
  (m <= fuel)%nat -> 0 <= have <= buflen ->
  Z.of_nat m = blocks_for (buflen - have) -> size buf = buflen ->
  kstream (salt_cnt s) m = Some ks ->
  bk_RAND_bytes_loop L bk fuel buflen have buf s =
  (Ok (firstn (Z.to_nat have) buf ++ firstn (Z.to_nat (buflen - have)) ks),
   mkState (word.add (salt_cnt s) (word.of_Z (Z.of_nat m)))
           (kcalls (salt_cnt s) m ++ calls s)).
Proof.
  induction m as [|m IH]; intros fuel buflen have buf s ks Hf Hh Hm Hb Hk.
  - apply blocks_for_0 in Hm; [|assumption]. subst have.
    rewrite loop_done by lia. simpl in Hk. injection Hk as <-.
    rewrite Z.sub_diag. change (Z.to_nat 0) with 0%nat. change (Z.of_nat 0) with 0.
    rewrite firstn_O, app_nil_r, uint_add_0.
    rewrite firstn_all2 by (unfold size in Hb; lia). destruct s; reflexivity.
  - destruct fuel as [|fuel]; [lia|].
    destruct (blocks_for_step buflen have m Hh Hm) as (Hlt & Hn & Hle & Hm').
    rewrite loop_turn by assumption. simpl in Hk.
    destruct (blk (salt_cnt s)) as [b|] eqn:Eb; [|discriminate].
    destruct (kstream (uint_incr (salt_cnt s)) m) as [ks'|] eqn:Ek; [|discriminate].
    injection Hk as <-. cbv zeta.
    set (need := if buflen - have >? 32 then 32 else buflen - have) in *.
    pose proof (block_size _ _ Eb) as Hsz.
    destruct (memcpy_prefix buf b have need) as [Hsz' Hpre];
      try (unfold size in *; lia).
    erewrite IH; [| lia | lia | exact Hm' | lia | exact Ek ].
    simpl salt_cnt. simpl calls. rewrite Hpre, uint_add_succ.
    f_equal; [f_equal|].
    + rewrite <- app_assoc. f_equal.
      replace (Z.to_nat (buflen - have)) with (Z.to_nat need + Z.to_nat (buflen - (have + need)))%nat by lia.
      destruct (Z.eq_dec need 32) as [E32|N32].
      * rewrite E32. change (Z.to_nat 32) with 32%nat. rewrite <- Hsz.
        rewrite firstn_app_2, firstn_all. reflexivity.
      * assert (Hlast : buflen - (have + need) = 0).
        { subst need. destruct (buflen - have >? 32); lia. }
        rewrite Hlast. simpl. rewrite Nat.add_0_r, app_nil_r.
        rewrite firstn_app. replace (Z.to_nat need - length b)%nat with 0%nat by lia.
        rewrite firstn_O, app_nil_r. reflexivity.
    + simpl. rewrite <- app_assoc. reflexivity.
Qed.

(** The loop when the derivation of block number [k] is the first to fail. *)
Lemma loop_fail (k : nat) : forall m fuel buflen have buf s ks,
  (k < m)%nat -> (m <= fuel)%nat -> 0 <= have <= buflen ->
  Z.of_nat m = blocks_for (buflen - have) ->
  kstream (salt_cnt s) k = Some ks ->
  blk (word.add (salt_cnt s) (word.of_Z (Z.of_nat k))) = None ->
  bk_RAND_bytes_loop L bk fuel buflen have buf s =
  (Return0 DerivationFailure,
   mkState (word.add (salt_cnt s) (word.of_Z (Z.of_nat (S k))))
           (kcalls (salt_cnt s) (S k) ++ calls s)).
Proof.
  induction k as [|k IH]; intros m fuel buflen have buf s ks Hkm Hf Hh Hm Hk Hnone;
    (destruct m as [|m]; [lia|]); (destruct fuel as [|fuel]; [lia|]);
    destruct (blocks_for_step buflen have m Hh Hm) as (Hlt & Hn & Hle & Hm');
    rewrite loop_turn by assumption.
  - simpl Z.of_nat in Hnone. rewrite uint_add_0 in Hnone. rewrite Hnone.
    reflexivity.
  - simpl in Hk.
    destruct (blk (salt_cnt s)) as [b|] eqn:Eb; [|discriminate].
    destruct (kstream (uint_incr (salt_cnt s)) k) as [ks'|] eqn:Ek; [|discriminate].
    cbv zeta. set (need := if buflen - have >? 32 then 32 else buflen - have) in *.
    erewrite (IH m); [| lia | lia | lia | exact Hm' | exact Ek | ].
    + simpl salt_cnt. simpl calls. rewrite uint_add_succ. f_equal. f_equal.
      simpl. rewrite <- !app_assoc. reflexivity.
    + simpl salt_cnt. rewrite uint_add_succ. exact Hnone.
Qed.

(** Either all [m] blocks exist or some derivation is the first to fail. *)
Lemma keystream_total (m : nat) : forall c,
  (exists ks, kstream c m = Some ks) \/
  (exists k ks, (k < m)%nat /\ kstream c k = Some ks /\
                blk (word.add c (word.of_Z (Z.of_nat k))) = None).
Proof.
  induction m as [|m IH]; intros c.
  - left. exists []. reflexivity.
  - destruct (blk c) as [b|] eqn:Eb.
    + destruct (IH (uint_incr c)) as [[ks Hks] | (k & ks & Hk & Hks & Hnone)].
      * left. exists (b ++ ks). simpl. rewrite Eb, Hks. reflexivity.
      * right. exists (S k), (b ++ ks). split; [lia|]. split.
        -- simpl. rewrite Eb, Hks. reflexivity.
        -- rewrite <- uint_add_succ. exact Hnone.
    + right. exists 0%nat, []. split; [lia|]. split; [reflexivity|].
      simpl Z.of_nat. rewrite uint_add_0. exact Eb.
Qed.

Lemma bk_RAND_bytes_unfold (len : Z) (s : state) :
  16 <= size bk -> 0 <= len ->
  bk_RAND_bytes L bk len s =
  match bk_RAND_bytes_loop L bk (Z.to_nat len) len 0 (repeat NUL (Z.to_nat len)) s with
  | (Ok buf, s') => (Ok (len, buf), s')
  | (Return0 why, s') => (Return0 why, s')
  | (Undefined, s') => (Undefined, s')
  | (OutOfFuel, s') => (OutOfFuel, s')
  end.
Proof.
  intros Hbk Hlen. unfold bk_RAND_bytes, bind.
  destruct (Z.ltb_spec (size bk) 16); [lia|].
  destruct (Z.ltb_spec len 0); [lia|].
  destruct (bk_RAND_bytes_loop L bk (Z.to_nat len) len 0 (repeat NUL (Z.to_nat len)) s)
    as [[buf| | |] s']; reflexivity.
Qed.

(** The blocks depend on the salts only. *)
Lemma keystream_ext (f g : uint -> list byte) :
  (forall c, f c = g c) ->
  forall n c, keystream L bk f c n = keystream L bk g c n /\
              keystream_calls bk f c n = keystream_calls bk g c n.
Proof.
  intros Hfg. induction n as [|n IH]; intros c; simpl.
  - auto.
  - destruct (IH (uint_incr c)) as [-> ->]. unfold block, block_call.
    rewrite Hfg. auto.
Qed.

(** A fill whose derivations all succeed. *)
Lemma fill_run (len : Z) (s : state) (ks : list byte) :
  16 <= size bk -> 0 <= len ->
  kstream (salt_cnt s) (Z.to_nat (blocks_for len)) = Some ks ->
  bk_RAND_bytes L bk len s =
  (Ok (len, firstn (Z.to_nat len) ks),
   mkState (word.add (salt_cnt s) (word.of_Z (blocks_for len)))
           (kcalls (salt_cnt s) (Z.to_nat (blocks_for len)) ++ calls s)).
Proof.
  intros Hbk Hlen Hks. pose proof (blocks_for_le len Hlen) as Hm.
  rewrite bk_RAND_bytes_unfold by lia.
  rewrite (loop_ok (Z.to_nat (blocks_for len))) with (ks := ks); try assumption; try lia.
  - rewrite Z.sub_0_r. change (Z.to_nat 0) with 0%nat. rewrite firstn_O.
    rewrite Z2Nat.id by lia. reflexivity.
  - rewrite Z.sub_0_r. lia.
  - unfold size. rewrite repeat_length. lia.
Qed.

(** A fill in which the derivation of block number [k] is the first to fail. *)
Lemma fill_fail (len : Z) (s : state) (k : nat) (ks : list byte) :
  16 <= size bk -> 0 <= len -> Z.of_nat k < blocks_for len ->
  kstream (salt_cnt s) k = Some ks ->
  blk (word.add (salt_cnt s) (word.of_Z (Z.of_nat k))) = None ->
  bk_RAND_bytes L bk len s =
  (Return0 DerivationFailure,
   mkState (word.add (salt_cnt s) (word.of_Z (Z.of_nat (S k))))
           (kcalls (salt_cnt s) (S k) ++ calls s)).
Proof.
  intros Hbk Hlen Hk Hks Hnone. pose proof (blocks_for_le len Hlen) as Hm.
  rewrite bk_RAND_bytes_unfold by lia.
  rewrite (loop_fail k (Z.to_nat (blocks_for len))) with (ks := ks);
    try assumption; try lia.
  - reflexivity.
  - rewrite Z.sub_0_r. lia.
Qed.

(** A fill returns 0, for want of a brainkey or of a derivation, or fills
    the whole buffer. *)
Lemma fill_outcome (len : Z) (s : state) :
  0 <= len ->
  (exists buf s', bk_RAND_bytes L bk len s = (Ok (len, buf), s') /\ size buf = len) \/
  (exists why s', bk_RAND_bytes L bk len s = (Return0 why, s') /\
                  (why = Unsupported \/ why = DerivationFailure)).
Proof.
  intros Hlen. destruct (Z.ltb_spec (size bk) 16) as [Hshort|Hbk].
  - right. exists Unsupported, s. split; [|auto]. unfold bk_RAND_bytes.
    destruct (Z.ltb_spec (size bk) 16); [reflexivity|lia].
  - pose proof (blocks_for_le len Hlen) as Hm.
    destruct (keystream_total (Z.to_nat (blocks_for len)) (salt_cnt s))
      as [[ks Hks] | (k & ks & Hk & Hks & Hnone)].
    + left. pose proof (keystream_size _ _ _ Hks) as Hsz.
      do 2 eexists. split; [apply fill_run; eassumption|].
      unfold size. rewrite length_firstn.
      unfold blocks_for in *. Z.to_euclidean_division_equations. lia.
    + right. do 2 eexists. split; [|auto].
      apply fill_fail with (k := k) (ks := ks); try assumption; lia.
Qed.

End KeystreamFacts.

(** ** The toy libcrypto keeps the contract *)

Lemma toy_laws (pick : list byte -> Z) (pub_ok : bool) : libcrypto_laws (Toy.lib pick pub_ok).
Proof.
  split.
  - simpl. unfold Toy.kdf, size. intros pw slt iter md keylen out H.
    destruct (Z.ltb_spec keylen 0); simpl in H; [discriminate|].
    destruct (pick slt <? 0); [discriminate|].
    injection H as <-. rewrite repeat_length. lia.
  - simpl. unfold Toy.set_private_key. intros k d k' H. injection H as <-.
    simpl. auto.
  - simpl. unfold Toy.set_public_key. intros k p k' H.
    destruct pub_ok; [|discriminate]. injection H as <-. simpl. auto.
Qed.

(** ** The keystream fill *)

(** The fill against its blocks, for any way of writing the salts that
    agrees with what the code formats. *)
Lemma fill_spec_for {EC_GROUP EC_POINT : Type} (L : libcrypto EC_GROUP EC_POINT)
  (bk : list byte) (salt_of : uint -> list byte) (len : Z) (s : state) :
  libcrypto_laws L -> 16 <= size bk -> 1 <= len ->
  (forall c, block_salt bk c = salt_of c) ->
  fill_spec L bk salt_of len s.
Proof.
  intros L_ok Hbk Hlen Hsalt rc buf s'.
  pose proof (blocks_for_le len ltac:(lia)) as Hm.
  destruct (keystream_ext L bk (block_salt bk) salt_of Hsalt
              (Z.to_nat (blocks_for len)) (salt_cnt s)) as [<- <-].
  set (m := Z.to_nat (blocks_for len)) in *.
  split.
  - intros Hok.
    destruct (keystream_total L bk m (salt_cnt s)) as [[ks Hks] | (k & ks & Hk & Hks & Hnone)].
    + exists ks. rewrite (fill_run L bk L_ok len s ks) in Hok by (assumption || lia).
      injection Hok as <- <- <-.
      pose proof (keystream_size L bk L_ok m _ _ Hks) as Hsz.
      split; [exact Hks|]. split; [unfold size; lia|]. simpl. auto.
    + rewrite (fill_fail L bk len s k ks) in Hok by (assumption || lia). discriminate.
  - intros (ks & Hks & _ & -> & -> & Hc & Hl).
    rewrite (fill_run L bk L_ok len s ks) by (assumption || lia).
    destruct s' as [c' l']. simpl in Hc, Hl. subst. reflexivity.
Qed.

(** C1 (as amended).  For every fill of length [len >= 1] with a brainkey
    of size at least 16, the fill succeeds exactly when the derivations of
    its [ceil(len/32)] blocks succeed; the buffer then holds the first [len]
    bytes of the 32-byte blocks, where the block of counter value [c] is
    PBKDF2-HMAC-SHA-256 of the brainkey bytes from offset 4, with 10000
    iterations, 32 output bytes and the salt
    ["<salt>.opmsg-brainkey-v1.<c as 8 lowercase hex digits>"], [<salt>]
    being the first four brainkey bytes cut at their first NUL byte;
    successive blocks use consecutive counter values modulo 2^32, and the
    counter has advanced by [ceil(len/32)]. *)
Theorem fill_blocks {EC_GROUP EC_POINT : Type} (L : libcrypto EC_GROUP EC_POINT)
  (bk : list byte) (len : Z) (s : state) :
  libcrypto_laws L -> 16 <= size bk -> 1 <= len ->
  fill_spec L bk (block_salt bk) len s.
Proof.
  intros L_ok Hbk Hlen. apply fill_spec_for; auto.
Qed.

Lemma fill_blocks_witness :
  fill_spec Toy.libc Toy.brainkey (block_salt Toy.brainkey) 70 Toy.s0.
Proof.
  apply (fill_blocks Toy.libc Toy.brainkey 70 Toy.s0).
  - apply toy_laws.
  - vm_compute. discriminate.
  - lia.
Defined.

(** With no NUL among the first four brainkey bytes the salt of a block is
    made of these four bytes. *)
Lemma fill_blocks_four_bytes {EC_GROUP EC_POINT : Type} (L : libcrypto EC_GROUP EC_POINT)
  (bk : list byte) (len : Z) (s : state) :
  libcrypto_laws L -> 16 <= size bk -> 1 <= len -> no_NUL (salt bk) ->
  fill_spec L bk (block_salt_four_bytes bk) len s.
Proof.
  intros L_ok Hbk Hlen Hsalt. apply fill_spec_for; auto.
  intros c. apply block_salt_four_bytes_eq. exact Hsalt.
Qed.

(** C1, as stated, fails: when one of the first four brainkey bytes is NUL the
    salt is not built from all four.  With the brainkey [Toy.brainkey_nul]
    and a derivation that returns the length of its salt, the block holds
    27 (the length of [".opmsg-brainkey-v1.00000000"]) and not 31. *)
Lemma fill_salt_cut_at_NUL :
  ~ fill_spec Toy.libc_salt_length Toy.brainkey_nul
      (block_salt_four_bytes Toy.brainkey_nul) 32 Toy.s0.
Proof.
  intros H.
  destruct (bk_RAND_bytes Toy.libc_salt_length Toy.brainkey_nul 32 Toy.s0)
    as [[[rc buf]| | |] s'] eqn:E; try (vm_compute in E; discriminate).
  destruct (proj1 (H rc buf s') E) as (ks & Hks & _ & _ & Hbuf & _).
  vm_compute in E. vm_compute in Hks.
  injection Hks as <-. injection E as _ <- _. vm_compute in Hbuf. discriminate.
Qed.

(** C10.  A fill is not atomic with respect to the counter: when the
    derivations of the first [k] blocks succeed and the one of block [k]
    fails, the call returns 0 and the counter has advanced by [k + 1], once
    for every completed block and once for the failed one. *)
Theorem fill_failure_consumes_counter {EC_GROUP EC_POINT : Type}
  (L : libcrypto EC_GROUP EC_POINT) (bk : list byte) (len : Z) (s : state)
  (k : nat) (ks : list byte) :
  16 <= size bk -> 1 <= len ->
  Z.of_nat k < blocks_for len ->
  keystream L bk (block_salt bk) (salt_cnt s) k = Some ks ->
  block L bk (block_salt bk) (word.add (salt_cnt s) (word.of_Z (Z.of_nat k))) = None ->
  exists s',
    bk_RAND_bytes L bk len s = (Return0 DerivationFailure, s') /\
    salt_cnt s' = word.add (salt_cnt s) (word.of_Z (Z.of_nat k + 1)) /\
    calls s' = keystream_calls bk (block_salt bk) (salt_cnt s) (S k) ++ calls s.
Proof.
  intros Hbk Hlen Hk Hks Hnone.
  rewrite (fill_fail L bk len s k ks) by (assumption || lia).
  eexists. split; [reflexivity|]. simpl salt_cnt. simpl calls.
  split; [|reflexivity]. replace (Z.of_nat k + 1) with (Z.of_nat (S k)) by lia.
  reflexivity.
Qed.

Lemma fill_failure_consumes_counter_witness :
  exists s',
    bk_RAND_bytes Toy.libc_fails_at_2 Toy.brainkey 100 Toy.s0
      = (Return0 DerivationFailure, s') /\
    salt_cnt s' = word.add (salt_cnt Toy.s0) (word.of_Z (Z.of_nat 2 + 1)) /\
    calls s' = keystream_calls Toy.brainkey (block_salt Toy.brainkey) (salt_cnt Toy.s0) 3
                 ++ calls Toy.s0.
Proof.
  apply (fill_failure_consumes_counter Toy.libc_fails_at_2 Toy.brainkey 100 Toy.s0
           2 (repeat (byte.of_Z 226) 32 ++ repeat (byte.of_Z 227) 32)).
  - vm_compute. discriminate.
  - lia.
  - vm_compute. reflexivity.
  - vm_compute. reflexivity.
  - vm_compute. reflexivity.
Defined.

(** ** Byte buffers *)

Lemma byte_at_range (buf : list byte) (i : Z) : 0 <= byte_at buf i < 2 ^ 8.
Proof. apply byte.unsigned_range. Qed.

Lemma buf_set_size (buf : list byte) (i : Z) (b : byte) :
  0 <= i < size buf -> size (buf_set buf i b) = size buf.
Proof.
  unfold size, buf_set. intros H.
  rewrite length_app, length_firstn. cbn [length]. rewrite length_skipn. lia.
Qed.

Lemma byte_at_buf_set (buf : list byte) (i j : Z) (b : byte) :
  0 <= i < size buf -> 0 <= j ->
  byte_at (buf_set buf i b) j = if j =? i then byte.unsigned b else byte_at buf j.
Proof.
  unfold size, buf_set, byte_at. intros Hi Hj.
  assert (Hlen : length (firstn (Z.to_nat i) buf) = Z.to_nat i)
    by (rewrite length_firstn; lia).
  destruct (Z.eqb_spec j i) as [->|Hne].
  - rewrite app_nth2 by lia. rewrite Hlen, Nat.sub_diag. reflexivity.
  - destruct (Z_lt_le_dec j i) as [Hlt|Hge].
    + rewrite app_nth1 by lia. rewrite nth_firstn.
      destruct (Nat.ltb_spec (Z.to_nat j) (Z.to_nat i)); [reflexivity|lia].
    + rewrite app_nth2 by lia. rewrite Hlen.
      replace (Z.to_nat j - Z.to_nat i)%nat with (S (Z.to_nat j - S (Z.to_nat i))) by lia.
      cbn [nth]. rewrite nth_skipn. f_equal. f_equal. lia.
Qed.

(** A write inside the buffer goes through. *)
Lemma buf_update_run (buf : list byte) (i : Z) (f : Z -> Z) (s : state) :
  0 <= i < size buf ->
  buf_update buf i f s = (Ok (buf_set buf i (byte.of_Z (f (byte_at buf i)))), s).
Proof.
  unfold size, buf_update, buf_get, byte_at. intros Hi.
  destruct (Z.ltb_spec i 0); [lia|].
  destruct (nth_error buf (Z.to_nat i)) as [b|] eqn:E.
  - rewrite (nth_error_nth _ _ _ E). reflexivity.
  - apply nth_error_None in E. lia.
Qed.

(** ** Big-endian values, bit by bit *)

Lemma BN_bin2bn_range (buf : list byte) : 0 <= BN_bin2bn buf < 2 ^ (8 * size buf).
Proof.
  unfold size. induction buf as [|b tl IH].
  - simpl. lia.
  - cbn [BN_bin2bn length]. pose proof (byte.unsigned_range b) as Hb.
    replace (8 * Z.of_nat (S (length tl))) with (8 + 8 * Z.of_nat (length tl)) by lia.
    rewrite Z.pow_add_r by lia.
    set (p := 2 ^ (8 * Z.of_nat (length tl))) in *. nia.
Qed.

Lemma testbit_high_false (v n : Z) :
  0 <= n -> 0 <= v < 2 ^ n -> forall i, n <= i -> Z.testbit v i = false.
Proof.
  intros Hn Hv i Hi. destruct (Z.eq_dec v 0) as [->|Hne].
  - apply Z.testbit_0_l.
  - apply Z.bits_above_log2; [lia|]. apply Z.log2_lt_pow2; [lia|].
    pose proof (Z.pow_le_mono_r 2 n i ltac:(lia) Hi). lia.
Qed.

Lemma below_pow2_of_bits (v n : Z) :
  0 <= n -> 0 <= v -> (forall i, n <= i -> Z.testbit v i = false) -> v < 2 ^ n.
Proof.
  intros Hn Hv Hbits.
  assert (E : v = v mod 2 ^ n).
  { apply Z.bits_inj'. intros i Hi. rewrite Z.testbit_mod_pow2 by lia.
    destruct (Z.ltb_spec i n); [reflexivity|]. simpl. apply Hbits. lia. }
  rewrite E. apply Z.mod_pos_bound. lia.
Qed.

(** Bit [i] of the value is bit [i mod 8] of the byte [i / 8] places
    before the last. *)
Lemma BN_bin2bn_testbit (buf : list byte) : forall i,
  0 <= i < 8 * size buf ->
  Z.testbit (BN_bin2bn buf) i = Z.testbit (byte_at buf (size buf - 1 - i / 8)) (i mod 8).
Proof.
  unfold size. induction buf as [|b tl IH]; intros i Hi.
  - simpl in Hi. lia.
  - cbn [BN_bin2bn length] in *. set (n := Z.of_nat (length tl)) in *.
    replace (Z.of_nat (S (length tl))) with (n + 1) in * by lia.
    pose proof (BN_bin2bn_range tl) as Hr. unfold size in Hr. fold n in Hr.
    destruct (Z_lt_le_dec i (8 * n)) as [Hlo|Hhi].
    + rewrite Z.add_comm.
      rewrite <- (Z.mod_pow2_bits_low _ (8 * n) i) by lia.
      rewrite Z.mod_add by lia. rewrite Z.mod_pow2_bits_low by lia.
      rewrite IH by lia. unfold byte_at.
      assert (0 <= i / 8 < n) by (Z.to_euclidean_division_equations; lia).
      replace (Z.to_nat (n + 1 - 1 - i / 8)) with (S (Z.to_nat (n - 1 - i / 8))) by lia.
      reflexivity.
    + assert (E8 : i / 8 = n) by (Z.to_euclidean_division_equations; lia).
      assert (Em : i mod 8 = i - 8 * n) by (Z.to_euclidean_division_equations; lia).
      rewrite E8, Em. replace (n + 1 - 1 - n) with 0 by lia. unfold byte_at. simpl nth.
      transitivity
        (Z.testbit ((byte.unsigned b * 2 ^ (8 * n) + BN_bin2bn tl) / 2 ^ (8 * n)) (i - 8 * n)).
      * rewrite Z.div_pow2_bits by lia. f_equal. lia.
      * rewrite Z.div_add_l by lia. rewrite (Z.div_small (BN_bin2bn tl)) by lia.
        rewrite Z.add_0_r. reflexivity.
Qed.

(** ** Bits of the shaped bytes *)

Lemma testbit_byte_of_Z (z j : Z) :
  Z.testbit (byte.unsigned (byte.of_Z z)) j = (j <? 8) && Z.testbit z j.
Proof.
  rewrite byte.unsigned_of_Z. unfold byte.wrap. apply Z.testbit_mod_pow2. lia.
Qed.

Lemma testbit_255 (k : Z) : Z.testbit 255 k = (0 <=? k) && (k <? 8).
Proof. change 255 with (Z.ones 8). apply Z.testbit_ones. lia. Qed.

Lemma testbit_1 (k : Z) : Z.testbit 1 k = (k =? 0).
Proof.
  change 1 with (Z.ones 1). rewrite Z.testbit_ones by lia.
  destruct (Z.leb_spec 0 k), (Z.ltb_spec k 1), (Z.eqb_spec k 0); simpl; lia || reflexivity.
Qed.

Lemma testbit_3 (k : Z) : Z.testbit 3 k = (0 <=? k) && (k <? 2).
Proof. change 3 with (Z.ones 2). apply Z.testbit_ones. lia. Qed.

(** The mask [~(0xff << (bit + 1))] keeps the bits up to [bit]. *)
Lemma testbit_mask (x bit j : Z) :
  0 <= bit -> 0 <= j ->
  Z.testbit (Z.land x (Z.lnot (Z.shiftl 255 (bit + 1)))) j =
  Z.testbit x j && ((j <=? bit) || (bit + 9 <=? j)).
Proof.
  intros Hb Hj. rewrite Z.land_spec, Z.lnot_spec, Z.shiftl_spec by lia.
  rewrite testbit_255. f_equal.
  destruct (Z.leb_spec 0 (j - (bit + 1))), (Z.ltb_spec (j - (bit + 1)) 8),
    (Z.leb_spec j bit), (Z.leb_spec (bit + 9) j); simpl; lia || reflexivity.
Qed.

(** ** Sequencing *)

Lemma bind_ok {A B} (m : M A) (f : A -> M B) (s s' : state) (a : A) :
  m s = (Ok a, s') -> bind m f s = f a s'.
Proof. unfold bind. intros ->. reflexivity. Qed.

Lemma bind_return0 {A B} (m : M A) (f : A -> M B) (s s' : state) (why : failure) :
  m s = (Return0 why, s') -> bind m f s = (Return0 why, s').
Proof. unfold bind. intros ->. reflexivity. Qed.

Lemma bind_inv_ok {A B} (m : M A) (f : A -> M B) (s s' : state) (b : B) :
  bind m f s = (Ok b, s') -> exists a s1, m s = (Ok a, s1) /\ f a s1 = (Ok b, s').
Proof.
  unfold bind. destruct (m s) as [[a| | |] s1]; intros H; try discriminate.
  exists a, s1. split; [reflexivity|assumption].
Qed.

(** ** The shaping step *)

Lemma testbit_byte_at_update (buf : list byte) (i z k j : Z) :
  0 <= i < size buf -> 0 <= k ->
  Z.testbit (byte_at (buf_set buf i (byte.of_Z z)) k) j =
  if k =? i then (j <? 8) && Z.testbit z j
  else Z.testbit (byte_at buf k) j.
Proof.
  intros Hi Hk. rewrite byte_at_buf_set by assumption.
  destruct (k =? i); [apply testbit_byte_of_Z|reflexivity].
Qed.

Lemma shape_arith (bits top : Z) :
  1 <= bits -> ~ (bits = 1 /\ 0 < top) ->
  Z.quot (bits + 7) 8 = (bits + 7) / 8 /\
  Z.rem (bits - 1) 8 = (bits - 1) mod 8 /\
  1 <= (bits + 7) / 8 /\
  0 <= (bits - 1) mod 8 <= 7 /\
  bits = 8 * ((bits + 7) / 8 - 1) + (bits - 1) mod 8 + 1 /\
  (0 < top -> (bits - 1) mod 8 = 0 -> 9 <= bits /\ 2 <= (bits + 7) / 8).
Proof.
  intros Hb Hn.
  rewrite Z.quot_div_nonneg by lia. rewrite Z.rem_mod_nonneg by lia.
  repeat split; Z.to_euclidean_division_equations; lia.
Qed.

(** On a buffer of [bytes] bytes the shaping step writes inside the buffer
    only, and shapes the top byte as asked. *)
Lemma shape_buf_run (bits top bottom : Z) (buf : list byte) (s : state) :
  1 <= bits -> ~ (bits = 1 /\ 0 < top) ->
  let bytes := (bits + 7) / 8 in
  let bit := (bits - 1) mod 8 in
  size buf = bytes ->
  exists buf',
    shape_buf bytes bit (Z.shiftl 255 (bit + 1)) top bottom buf s = (Ok buf', s) /\
    size buf' = bytes /\
    (forall j, bit < j -> Z.testbit (byte_at buf' 0) j = false) /\
    (0 <= top -> Z.testbit (byte_at buf' 0) bit = true) /\
    (0 < top ->
     if bit =? 0 then Z.testbit (byte_at buf' 1) 7 = true
     else Z.testbit (byte_at buf' 0) (bit - 1) = true).
Proof.
  intros Hbits Hrej bytes bit Hsz.
  destruct (shape_arith bits top Hbits Hrej) as (_ & _ & Hbytes & Hbit & _ & Htwo).
  fold bytes bit in Hbytes, Hbit, Htwo.
  (* the top bits *)
  assert (S1 : exists buf1,
    (if top >=? 0 then
       if negb (top =? 0) then
         if bit =? 0 then
           buf <- buf_update buf 0 (fun _ => 1) ;;
           buf_update buf 1 (fun x => Z.lor x 128)
         else buf_update buf 0 (fun x => Z.lor x (Z.shiftl 3 (bit - 1)))
       else buf_update buf 0 (fun x => Z.lor x (Z.shiftl 1 bit))
     else ret buf) s = (Ok buf1, s) /\
    size buf1 = bytes /\
    (0 <= top -> Z.testbit (byte_at buf1 0) bit = true) /\
    (0 < top ->
     if bit =? 0 then Z.testbit (byte_at buf1 1) 7 = true
     else Z.testbit (byte_at buf1 0) (bit - 1) = true)).
  { destruct (Z.geb_spec top 0) as [Hge|Hlt].
    2:{ exists buf. repeat split; [assumption|lia|lia]. }
    destruct (Z.eqb_spec top 0) as [->|Hne]; cbv beta iota delta [negb].
    - eexists. split; [apply buf_update_run; lia|].
      split; [rewrite buf_set_size; lia|]. split; [|lia]. intros _.
      rewrite testbit_byte_at_update by lia. simpl Z.eqb. cbv iota.
      rewrite Z.lor_spec, Z.shiftl_spec, Z.sub_diag by lia.
      destruct (Z.ltb_spec bit 8); [|lia]. simpl. apply orb_true_r.
    - destruct (Z.eqb_spec bit 0) as [E0|N0]; cbv beta iota.
      + destruct Htwo as [_ Hb2]; [lia|assumption|].
        eexists. split.
        { erewrite bind_ok by (apply buf_update_run; lia).
          apply buf_update_run. rewrite buf_set_size; lia. }
        split; [rewrite !buf_set_size; try lia; rewrite buf_set_size; lia|].
        split; intros _.
        * rewrite E0. rewrite !testbit_byte_at_update;
            try lia; try (rewrite buf_set_size; lia).
          reflexivity.
        * rewrite testbit_byte_at_update by (try rewrite buf_set_size; lia).
          simpl Z.eqb. cbv iota. rewrite Z.lor_spec. simpl. apply orb_true_r.
      + eexists. split; [apply buf_update_run; lia|].
        split; [rewrite buf_set_size; lia|]. split; intros _;
          rewrite testbit_byte_at_update by lia; simpl Z.eqb; cbv iota;
          rewrite Z.lor_spec, Z.shiftl_spec, testbit_3 by lia.
        * destruct (Z.ltb_spec bit 8); [|lia].
          replace (bit - (bit - 1)) with 1 by lia. simpl. apply orb_true_r.
        * destruct (Z.ltb_spec (bit - 1) 8); [|lia].
          rewrite Z.sub_diag. simpl. apply orb_true_r. }
  destruct S1 as (buf1 & E1 & Hsz1 & Htop1 & Htwo1).
  unfold shape_buf. rewrite (bind_ok _ _ _ _ _ E1).
  (* the mask *)
  erewrite bind_ok by (apply buf_update_run; lia).
  set (buf2 := buf_set buf1 0 _).
  assert (Hsz2 : size buf2 = bytes) by (unfold buf2; rewrite buf_set_size; lia).
  assert (Hbits2 : forall k j, 0 <= k -> 0 <= j ->
    Z.testbit (byte_at buf2 k) j =
    if k =? 0 then (j <=? bit) && Z.testbit (byte_at buf1 0) j
    else Z.testbit (byte_at buf1 k) j).
  { intros k j Hk Hj. unfold buf2. rewrite testbit_byte_at_update by lia.
    destruct (k =? 0); [|reflexivity]. rewrite testbit_mask by lia.
    destruct (Z.ltb_spec j 8), (Z.leb_spec j bit), (Z.leb_spec (bit + 9) j);
      simpl; rewrite ?andb_true_r, ?andb_false_r; try reflexivity; try lia. }
  clearbody buf2.
  (* the bottom bit *)
  assert (S3 : exists buf3,
    (if negb (bottom =? 0)
     then buf_update buf2 (bytes - 1) (fun x => Z.lor x 1)
     else ret buf2) s = (Ok buf3, s) /\
    size buf3 = bytes /\
    forall k j, 0 <= k -> 0 <= j ->
      Z.testbit (byte_at buf3 k) j = true <->
      Z.testbit (byte_at buf2 k) j = true \/ (bottom <> 0 /\ k = bytes - 1 /\ j = 0)).
  { destruct (Z.eqb_spec bottom 0) as [E0|N0]; cbv beta iota delta [negb].
    - exists buf2. split; [reflexivity|]. split; [assumption|]. intros k j Hk Hj.
      split; [tauto|]. intros [Hb|Hb]; [assumption|lia].
    - eexists. split; [apply buf_update_run; lia|].
      split; [rewrite buf_set_size; lia|]. intros k j Hk Hj.
      rewrite testbit_byte_at_update by lia.
      destruct (Z.eqb_spec k (bytes - 1)) as [->|Hk'].
      + rewrite Z.lor_spec, testbit_1.
        destruct (Z.ltb_spec j 8) as [Hlt|Hge]; simpl.
        * rewrite orb_true_iff, Z.eqb_eq. tauto.
        * rewrite (testbit_high_false (byte_at buf2 (bytes - 1)) 8);
            [|lia|apply byte_at_range|lia].
          split; [discriminate|]. intros [Hb|Hb]; [discriminate|lia].
      + split; [tauto|]. intros [Hb|Hb]; [assumption|lia]. }
  destruct S3 as (buf3 & E3 & Hsz3 & Hbits3).
  exists buf3. split; [exact E3|]. split; [exact Hsz3|].
  split; [|split].
  - intros j Hj. destruct (Z.testbit (byte_at buf3 0) j) eqn:E; [|reflexivity].
    apply Hbits3 in E; try lia. destruct E as [E|E]; [|lia].
    rewrite Hbits2 in E by lia. simpl in E.
    destruct (Z.leb_spec j bit); [lia|discriminate].
  - intros Ht. apply Hbits3; try lia. left. rewrite Hbits2 by lia. simpl.
    rewrite (Htop1 Ht). destruct (Z.leb_spec bit bit); [reflexivity|lia].
  - intros Ht. specialize (Htwo1 Ht). destruct (Z.eqb_spec bit 0) as [E0|N0].
    + apply Hbits3; try lia. left. rewrite Hbits2 by lia. exact Htwo1.
    + apply Hbits3; try lia. left. rewrite Hbits2 by lia. simpl.
      rewrite Htwo1. destruct (Z.leb_spec (bit - 1) bit); [reflexivity|lia].
Qed.

(** ** The fixed-length sampler *)

Section SamplerFacts.

Context {EC_GROUP EC_POINT : Type}.
Variable L : libcrypto EC_GROUP EC_POINT.
Variable bk : list byte.

(** [bk_bnrand] past its two guards. *)
Lemma bk_bnrand_unfold (bits top bottom : Z) (s : state) :
  1 <= bits -> ~ (bits = 1 /\ 0 < top) ->
  bk_bnrand L bk bits top bottom s =
  let bytes := (bits + 7) / 8 in
  let bit := (bits - 1) mod 8 in
  if negb (new_nothrow_ok L bytes) then (Return0 AllocationFailure, s)
  else
    (r <- bk_RAND_bytes L bk bytes ;;
     let '(b, buf) := r in
     if b <=? 0 then return0 Unsupported
     else
       buf <- shape_buf bytes bit (Z.shiftl 255 (bit + 1)) top bottom buf ;;
       if negb (BN_bin2bn_ok L buf) then return0 AllocationFailure
       else ret (BN_bin2bn buf)) s.
Proof.
  intros Hbits Hrej. unfold bk_bnrand.
  destruct (shape_arith bits top Hbits Hrej) as (-> & -> & _).
  destruct (Z.eqb_spec bits 0); [lia|].
  destruct (Z.ltb_spec bits 0); [lia|].
  assert (E : (bits =? 1) && (top >? 0) = false).
  { destruct (Z.eqb_spec bits 1), (Z.gtb_spec top 0); simpl; try reflexivity. lia. }
  rewrite E. simpl orb. cbv iota zeta.
  destruct (new_nothrow_ok L ((bits + 7) / 8)); reflexivity.
Qed.

Lemma bk_bnrand_rejects (bits top bottom : Z) (s : state) :
  bits < 0 \/ (bits = 1 /\ 0 < top) ->
  bk_bnrand L bk bits top bottom s = (Return0 InvalidShapeRequest, s).
Proof.
  intros H. unfold bk_bnrand.
  destruct (Z.eqb_spec bits 0); [lia|].
  assert (E : (bits <? 0) || ((bits =? 1) && (top >? 0)) = true).
  { destruct (Z.ltb_spec bits 0), (Z.eqb_spec bits 1), (Z.gtb_spec top 0);
      simpl; try reflexivity; lia. }
  rewrite E. reflexivity.
Qed.

Hypothesis L_ok : libcrypto_laws L.

(** The four ways [bk_bnrand] ends for [bits >= 1] past the guards: the
    buffer cannot be allocated; the fill returns 0; the number cannot be
    built; or the value of a shaped buffer of [ceil(bits/8)] bytes is
    returned. *)
Lemma bk_bnrand_paths (bits top bottom : Z) (s : state) :
  1 <= bits -> ~ (bits = 1 /\ 0 < top) ->
  let bytes := (bits + 7) / 8 in
  let bit := (bits - 1) mod 8 in
  (new_nothrow_ok L bytes = false /\
   bk_bnrand L bk bits top bottom s = (Return0 AllocationFailure, s)) \/
  (exists why s',
     bk_RAND_bytes L bk bytes s = (Return0 why, s') /\
     (why = Unsupported \/ why = DerivationFailure) /\
     bk_bnrand L bk bits top bottom s = (Return0 why, s')) \/
  (exists buf0 buf s',
     bk_RAND_bytes L bk bytes s = (Ok (bytes, buf0), s') /\
     BN_bin2bn_ok L buf = false /\
     bk_bnrand L bk bits top bottom s = (Return0 AllocationFailure, s')) \/
  (exists buf0 buf s',
     new_nothrow_ok L bytes = true /\
     bk_RAND_bytes L bk bytes s = (Ok (bytes, buf0), s') /\
     BN_bin2bn_ok L buf = true /\
     bk_bnrand L bk bits top bottom s = (Ok (BN_bin2bn buf), s') /\
     size buf = bytes /\
     (forall j, bit < j -> Z.testbit (byte_at buf 0) j = false) /\
     (0 <= top -> Z.testbit (byte_at buf 0) bit = true) /\
     (0 < top ->
      if bit =? 0 then Z.testbit (byte_at buf 1) 7 = true
      else Z.testbit (byte_at buf 0) (bit - 1) = true)).
Proof.
  intros Hbits Hrej bytes bit.
  rewrite bk_bnrand_unfold by assumption. fold bytes bit. cbv zeta.
  destruct (shape_arith bits top Hbits Hrej) as (_ & _ & Hbytes & _).
  fold bytes in Hbytes.
  destruct (new_nothrow_ok L bytes) eqn:Ealloc; simpl negb; cbv iota.
  2:{ left. split; reflexivity. }
  right.
  destruct (fill_outcome L bk L_ok bytes s ltac:(lia))
    as [(buf0 & s' & Efill & Hsz0) | (why & s' & Efill & Hwhy)].
  2:{ left. exists why, s'. split; [exact Efill|]. split; [exact Hwhy|].
      apply bind_return0. exact Efill. }
  right.
  rewrite (bind_ok _ _ _ _ _ Efill). cbv beta iota.
  destruct (Z.leb_spec bytes 0); [lia|].
  destruct (shape_buf_run bits top bottom buf0 s' Hbits Hrej Hsz0)
    as (buf & Eshape & Hsz & Hhigh & Htop & Htwo).
  fold bytes bit in Eshape, Hsz, Hhigh, Htop, Htwo.
  rewrite (bind_ok _ _ _ _ _ Eshape).
  destruct (BN_bin2bn_ok L buf) eqn:Ebn; simpl negb; cbv iota.
  2:{ left. exists buf0, buf, s'. repeat split; assumption || reflexivity. }
  right. exists buf0, buf, s'. repeat split; assumption || reflexivity.
Qed.

(** The same, telling only a return of 0 from a returned value. *)
Lemma bk_bnrand_cases (bits top bottom : Z) (s : state) :
  1 <= bits -> ~ (bits = 1 /\ 0 < top) ->
  let bytes := (bits + 7) / 8 in
  let bit := (bits - 1) mod 8 in
  (exists why s', bk_bnrand L bk bits top bottom s = (Return0 why, s') /\
     (why = AllocationFailure \/ why = Unsupported \/ why = DerivationFailure)) \/
  (exists buf0 buf s',
     new_nothrow_ok L bytes = true /\
     bk_RAND_bytes L bk bytes s = (Ok (bytes, buf0), s') /\
     BN_bin2bn_ok L buf = true /\
     bk_bnrand L bk bits top bottom s = (Ok (BN_bin2bn buf), s') /\
     size buf = bytes /\
     (forall j, bit < j -> Z.testbit (byte_at buf 0) j = false) /\
     (0 <= top -> Z.testbit (byte_at buf 0) bit = true) /\
     (0 < top ->
      if bit =? 0 then Z.testbit (byte_at buf 1) 7 = true
      else Z.testbit (byte_at buf 0) (bit - 1) = true)).
Proof.
  intros Hbits Hrej bytes bit.
  destruct (bk_bnrand_paths bits top bottom s Hbits Hrej)
    as [[_ E] | [(why & s' & _ & Hwhy & E) | [(b0 & b & s' & _ & _ & E) | H]]].
  - left. do 2 eexists. split; [exact E|auto].
  - left. do 2 eexists. split; [exact E|tauto].
  - left. do 2 eexists. split; [exact E|auto].
  - right. exact H.
Qed.

(** When the allocations and the derivations of the blocks succeed, a
    value is returned. *)
Lemma bk_bnrand_runs (bits top bottom : Z) (s : state) (ks : list byte) :
  1 <= bits -> ~ (bits = 1 /\ 0 < top) ->
  let bytes := (bits + 7) / 8 in
  16 <= size bk ->
  new_nothrow_ok L bytes = true ->
  (forall buf, BN_bin2bn_ok L buf = true) ->
  keystream L bk (block_salt bk) (salt_cnt s) (Z.to_nat (blocks_for bytes)) = Some ks ->
  exists v, bk_bnrand L bk bits top bottom s =
    (Ok v, mkState (word.add (salt_cnt s) (word.of_Z (blocks_for bytes)))
                   (keystream_calls bk (block_salt bk) (salt_cnt s)
                      (Z.to_nat (blocks_for bytes)) ++ calls s)).
Proof.
  intros Hbits Hrej bytes Hbk Halloc Hbn Hks.
  destruct (shape_arith bits top Hbits Hrej) as (_ & _ & Hbytes & _).
  pose proof (fill_run L bk L_ok bytes s ks Hbk ltac:(fold bytes; lia) Hks) as Hfill.
  destruct (bk_bnrand_paths bits top bottom s Hbits Hrej)
    as [[E _] | [(why & s' & E & _) | [(b0 & b & s' & _ & E & _) |
        (b0 & b & s' & _ & E & _ & Hrun & _)]]]; fold bytes in E.
  - congruence.
  - rewrite Hfill in E. discriminate.
  - rewrite Hbn in E. discriminate.
  - fold bytes in Hrun. rewrite Hfill in E. injection E as _ <-. eauto.
Qed.

(** [bk_bnrand] returns a value or returns 0: no write leaves the buffer
    and the fill never lacks fuel. *)
Lemma bk_bnrand_outcome (bits top bottom : Z) (s : state) :
  (exists v s', bk_bnrand L bk bits top bottom s = (Ok v, s')) \/
  (exists why s', bk_bnrand L bk bits top bottom s = (Return0 why, s')).
Proof.
  destruct (Z.eq_dec bits 0) as [->|Hne].
  - unfold bk_bnrand. simpl Z.eqb. cbv iota.
    destruct (negb (top =? bk_BN_RAND_TOP_ANY) || negb (bottom =? bk_BN_RAND_BOTTOM_ANY));
      [right|left]; do 2 eexists; reflexivity.
  - destruct (Z_lt_le_dec bits 0) as [Hneg|Hpos].
    { right. do 2 eexists. apply bk_bnrand_rejects. lia. }
    destruct (Z.eq_dec bits 1) as [E1|N1].
    + destruct (Z_lt_le_dec 0 top) as [Ht|Ht].
      { right. do 2 eexists. apply bk_bnrand_rejects. lia. }
      destruct (bk_bnrand_cases bits top bottom s)
        as [(why & s' & H & _)|(b0 & b & s' & _ & _ & _ & H & _)];
        try lia; [right | left]; eauto.
    + destruct (bk_bnrand_cases bits top bottom s)
        as [(why & s' & H & _)|(b0 & b & s' & _ & _ & _ & H & _)];
        try lia; [right | left]; eauto.
Qed.

(** What a value returned for [bits >= 1] looks like. *)
Lemma bk_bnrand_value (bits top bottom : Z) (s s' : state) (v : Z) :
  1 <= bits ->
  bk_bnrand L bk bits top bottom s = (Ok v, s') ->
  0 <= v < 2 ^ bits /\
  (0 <= top -> Z.testbit v (bits - 1) = true) /\
  (0 < top -> 2 <= bits /\ Z.testbit v (bits - 2) = true).
Proof.
  intros Hbits Hrun.
  assert (Hrej : ~ (bits = 1 /\ 0 < top)).
  { intros Hc. rewrite bk_bnrand_rejects in Hrun by lia. discriminate. }
  destruct (bk_bnrand_cases bits top bottom s Hbits Hrej)
    as [(why & s1 & E & _) | (buf0 & buf & s1 & _ & _ & _ & E & Hsz & Hhigh & Htop & Htwo)];
    rewrite E in Hrun; [discriminate|]. injection Hrun as <- <-.
  destruct (shape_arith bits top Hbits Hrej) as (_ & _ & Hbytes & Hbit & Hsplit & Hnine).
  set (bytes := (bits + 7) / 8) in *. set (bit := (bits - 1) mod 8) in *.
  pose proof (BN_bin2bn_range buf) as Hrange. rewrite Hsz in Hrange.
  assert (Hi1 : (bits - 1) / 8 = bytes - 1 /\ (bits - 1) mod 8 = bit).
  { split; [|reflexivity]. unfold bytes. Z.to_euclidean_division_equations. lia. }
  split; [|split].
  - split; [lia|]. apply below_pow2_of_bits; [lia|lia|]. intros i Hi.
    destruct (Z_lt_le_dec i (8 * bytes)) as [Hlo|Hhi].
    + rewrite BN_bin2bn_testbit by lia. rewrite Hsz.
      assert (i / 8 = bytes - 1 /\ bit < i mod 8)
        by (Z.to_euclidean_division_equations; lia).
      replace (bytes - 1 - i / 8) with 0 by lia. apply Hhigh. lia.
    + apply (testbit_high_false _ (8 * bytes)); lia.
  - intros Ht. rewrite BN_bin2bn_testbit by lia. rewrite Hsz.
    destruct Hi1 as [-> ->]. replace (bytes - 1 - (bytes - 1)) with 0 by lia.
    apply Htop. exact Ht.
  - intros Ht. split; [lia|]. specialize (Htwo Ht).
    rewrite BN_bin2bn_testbit by lia. rewrite Hsz.
    destruct (Z.eqb_spec bit 0) as [E0|N0].
    + assert ((bits - 2) / 8 = bytes - 2 /\ (bits - 2) mod 8 = 7)
        as [-> ->] by (Z.to_euclidean_division_equations; lia).
      replace (bytes - 1 - (bytes - 2)) with 1 by lia. exact Htwo.
    + assert ((bits - 2) / 8 = bytes - 1 /\ (bits - 2) mod 8 = bit - 1)
        as [-> ->] by (Z.to_euclidean_division_equations; lia).
      replace (bytes - 1 - (bytes - 1)) with 0 by lia. exact Htwo.
Qed.

(** A value whose bit [bits - 1] is set and that is below [2^bits] has
    exactly [bits] bits. *)
Lemma bit_length_of_top_bit (v bits : Z) :
  1 <= bits -> 0 <= v < 2 ^ bits -> Z.testbit v (bits - 1) = true ->
  bit_length_is v bits.
Proof.
  intros Hbits Hv Htop. unfold bit_length_is, BN_num_bits.
  assert (Hlow : 2 ^ (bits - 1) <= v).
  { destruct (Z_lt_le_dec v (2 ^ (bits - 1))) as [Hlt|]; [|assumption].
    rewrite (testbit_high_false v (bits - 1)) in Htop by lia. discriminate. }
  assert (0 < 2 ^ (bits - 1)) by (apply Z.pow_pos_nonneg; lia).
  destruct (Z.eqb_spec v 0); [lia|]. rewrite Z.abs_eq by lia.
  rewrite (Z.log2_unique v (bits - 1)); [lia|lia|].
  replace (Z.succ (bits - 1)) with bits by lia. lia.
Qed.

End SamplerFacts.

(** ** Shape of the sampled integers *)

(** C3.  For every [bits >= 1], a value returned by [bk_bnrand] is
    strictly less than [2^bits] (the mask [0xFF << (topBitIndex + 1)] has
    cleared the bits above the top bit); when a top bit is asked for
    ([top = 0], one top bit, or [top > 0], two top bits) its bit length is
    exactly [bits], the top bit being set; and with [top > 0], where
    [bits >= 2], the two top bits are set. *)
Theorem sample_bits_shape {EC_GROUP EC_POINT : Type} (L : libcrypto EC_GROUP EC_POINT)
  (bk : list byte) (bits top bottom : Z) (s s' : state) (v : Z) :
  libcrypto_laws L ->
  1 <= bits ->
  bk_bnrand L bk bits top bottom s = (Ok v, s') ->
  0 <= v < 2 ^ bits /\
  (top = BN_RAND_TOP_ONE \/ 0 < top ->
   bit_length_is v bits /\ Z.testbit v (bits - 1) = true) /\
  (0 < top ->
   2 <= bits /\ Z.testbit v (bits - 1) = true /\ Z.testbit v (bits - 2) = true).
Proof.
  intros L_ok Hbits Hrun.
  destruct (bk_bnrand_value L bk L_ok bits top bottom s s' v Hbits Hrun)
    as (Hv & Htop & Htwo).
  split; [exact Hv|]. split.
  - intros Ht. assert (Ht' : 0 <= top) by (unfold BN_RAND_TOP_ONE in Ht; lia).
    split; [|auto]. apply bit_length_of_top_bit; auto.
  - intros Ht. destruct (Htwo Ht) as [H2 Hb]. repeat split; auto. apply Htop. lia.
Qed.

Lemma sample_bits_shape_witness :
  0 <= 482 < 2 ^ 9 /\
  (BN_RAND_TOP_TWO = BN_RAND_TOP_ONE \/ 0 < BN_RAND_TOP_TWO ->
   bit_length_is 482 9 /\ Z.testbit 482 (9 - 1) = true) /\
  (0 < BN_RAND_TOP_TWO ->
   2 <= 9 /\ Z.testbit 482 (9 - 1) = true /\ Z.testbit 482 (9 - 2) = true).
Proof.
  apply (sample_bits_shape Toy.libc Toy.brainkey 9 BN_RAND_TOP_TWO
           bk_BN_RAND_BOTTOM_ANY Toy.s0
           (snd (bk_bnrand Toy.libc Toy.brainkey 9 BN_RAND_TOP_TWO
                   bk_BN_RAND_BOTTOM_ANY Toy.s0))
           482).
  - apply toy_laws.
  - lia.
  - vm_compute. reflexivity.
Defined.

(** C9.  Past the guards of [bk_bnrand], when two top bits are asked for
    and the top bit index is 0, [bits >= 9] and the buffer has at least two
    bytes; the buffer filled by the keystream has [ceil(bits/8)] bytes and
    the shaping step runs on it without a write outside the buffer; so
    [bk_bnrand] never ends in the undefined outcome. *)
Theorem shaping_in_bounds {EC_GROUP EC_POINT : Type} (L : libcrypto EC_GROUP EC_POINT)
  (bk : list byte) (bits top bottom : Z) (s : state) :
  libcrypto_laws L ->
  let bytes := Z.quot (bits + 7) 8 in
  let bit := Z.rem (bits - 1) 8 in
  let mask := Z.shiftl 255 (bit + 1) in
  (1 <= bits -> ~ (bits = 1 /\ 0 < top) ->
   (0 < top -> bit = 0 -> 9 <= bits /\ 2 <= bytes) /\
   forall b buf s1,
     bk_RAND_bytes L bk bytes s = (Ok (b, buf), s1) ->
     size buf = bytes /\
     exists buf', shape_buf bytes bit mask top bottom buf s1 = (Ok buf', s1) /\
                  size buf' = bytes) /\
  fst (bk_bnrand L bk bits top bottom s) <> Undefined.
Proof.
  intros L_ok bytes bit mask. split.
  - intros Hbits Hrej.
    destruct (shape_arith bits top Hbits Hrej) as (Eq & Er & Hbytes & Hbit & _ & Hnine).
    subst mask. subst bytes bit. rewrite Eq, Er. split; [exact Hnine|].
    intros b buf s1 Hfill.
    destruct (fill_outcome L bk L_ok ((bits + 7) / 8) s ltac:(lia))
      as [(buf0 & s0 & E & Hsz) | (why & s0 & E & _)];
      rewrite E in Hfill; [|discriminate]. injection Hfill as <- <- <-.
    split; [exact Hsz|].
    destruct (shape_buf_run bits top bottom buf0 s0 Hbits Hrej Hsz)
      as (buf' & Eshape & Hsz' & _).
    exists buf'. split; assumption.
  - destruct (bk_bnrand_outcome L bk L_ok bits top bottom s)
      as [(v & s' & E) | (why & s' & E)]; rewrite E; discriminate.
Qed.

Lemma shaping_in_bounds_witness :
  (1 <= 9 -> ~ (9 = 1 /\ 0 < BN_RAND_TOP_TWO) ->
   (0 < BN_RAND_TOP_TWO -> Z.rem (9 - 1) 8 = 0 -> 9 <= 9 /\ 2 <= Z.quot (9 + 7) 8) /\
   forall b buf s1,
     bk_RAND_bytes Toy.libc Toy.brainkey (Z.quot (9 + 7) 8) Toy.s0 = (Ok (b, buf), s1) ->
     size buf = Z.quot (9 + 7) 8 /\
     exists buf',
       shape_buf (Z.quot (9 + 7) 8) (Z.rem (9 - 1) 8) (Z.shiftl 255 (Z.rem (9 - 1) 8 + 1))
         BN_RAND_TOP_TWO BN_RAND_BOTTOM_ODD buf s1 = (Ok buf', s1) /\
       size buf' = Z.quot (9 + 7) 8) /\
  fst (bk_bnrand Toy.libc Toy.brainkey 9 BN_RAND_TOP_TWO BN_RAND_BOTTOM_ODD Toy.s0)
    <> Undefined.
Proof.
  apply (shaping_in_bounds Toy.libc Toy.brainkey 9 BN_RAND_TOP_TWO
           BN_RAND_BOTTOM_ODD Toy.s0).
  apply toy_laws.
Defined.

(** C5, as stated, fails: with [bits = 1] and one top bit asked for
    ([top = 0]) the call is not rejected; here it returns the value 1. *)
Lemma one_bit_top_one_not_rejected :
  ~ fails (fst (bk_bnrand Toy.libc Toy.brainkey 1 BN_RAND_TOP_ONE
                  bk_BN_RAND_BOTTOM_ANY Toy.s0)).
Proof. intros [why H]. vm_compute in H. discriminate. Qed.

(** The shaping of a one-byte buffer for [bits = 1] and one top bit leaves
    the byte 1, whatever the byte was. *)
Lemma one_bit_shape (b : byte) (bottom : Z) (s : state) :
  shape_buf 1 0 (Z.shiftl 255 1) BN_RAND_TOP_ONE bottom [b] s = (Ok [byte.of_Z 1], s).
Proof.
  unfold shape_buf. destruct (negb (bottom =? 0)); destruct b; reflexivity.
Qed.

(** [bk_bnrand] for [bits = 1] and one top bit, step by step. *)
Lemma one_bit_run {EC_GROUP EC_POINT : Type} (L : libcrypto EC_GROUP EC_POINT)
  (bk : list byte) (bottom : Z) (s : state) :
  libcrypto_laws L ->
  bk_bnrand L bk 1 BN_RAND_TOP_ONE bottom s =
  if negb (new_nothrow_ok L 1) then (Return0 AllocationFailure, s)
  else
    match bk_RAND_bytes L bk 1 s with
    | (Ok _, s1) =>
        if BN_bin2bn_ok L [byte.of_Z 1] then (Ok 1, s1)
        else (Return0 AllocationFailure, s1)
    | (Return0 why, s1) => (Return0 why, s1)
    | (Undefined, s1) => (Undefined, s1)
    | (OutOfFuel, s1) => (OutOfFuel, s1)
    end.
Proof.
  intros L_ok.
  rewrite bk_bnrand_unfold by (unfold BN_RAND_TOP_ONE; lia).
  change ((1 + 7) / 8) with 1. change ((1 - 1) mod 8) with 0. cbv zeta.
  destruct (new_nothrow_ok L 1); simpl negb; cbv iota; [|reflexivity].
  destruct (fill_outcome L bk L_ok 1 s ltac:(lia))
    as [(buf0 & s1 & E & Hsz) | (why & s1 & E & _)].
  - rewrite (bind_ok _ _ _ _ _ E), E. cbv beta iota.
    change (1 <=? 0) with false. cbv iota.
    destruct buf0 as [|b [|b' tl]]; unfold size in Hsz; simpl in Hsz; try lia.
    change (0 + 1) with 1.
    rewrite (bind_ok _ _ _ _ _ (one_bit_shape b bottom s1)).
    destruct (BN_bin2bn_ok L [byte.of_Z 1]); reflexivity.
  - rewrite (bind_return0 _ _ _ _ _ E), E. reflexivity.
Qed.

(** C5 (as amended).  With [bits = 1], [bk_bnrand] rejects a request for two
    top bits ([top > 0]): it returns 0 and touches nothing.  A request for
    one top bit ([top = 0]) is not rejected: the call never ends at the
    rejecting return, every value it returns is 1, and it returns 1 exactly
    when the brainkey has at least 16 bytes and the allocation of the
    buffer, the derivation of its keystream block and the conversion of the
    shaped byte, which is 1, to a number all succeed. *)
Theorem one_bit_requests {EC_GROUP EC_POINT : Type} (L : libcrypto EC_GROUP EC_POINT)
  (bk : list byte) (bottom : Z) (s : state) :
  libcrypto_laws L ->
  (forall top, 0 < top ->
     bk_bnrand L bk 1 top bottom s = (Return0 InvalidShapeRequest, s)) /\
  (forall s', bk_bnrand L bk 1 BN_RAND_TOP_ONE bottom s <> (Return0 InvalidShapeRequest, s')) /\
  (forall v s', bk_bnrand L bk 1 BN_RAND_TOP_ONE bottom s = (Ok v, s') -> v = 1) /\
  ((exists s', bk_bnrand L bk 1 BN_RAND_TOP_ONE bottom s = (Ok 1, s')) <->
   16 <= size bk /\
   new_nothrow_ok L 1 = true /\
   block L bk (block_salt bk) (salt_cnt s) <> None /\
   BN_bin2bn_ok L [byte.of_Z 1] = true).
Proof.
  intros L_ok.
  assert (Hrej : ~ (1 = 1 /\ 0 < BN_RAND_TOP_ONE)) by (unfold BN_RAND_TOP_ONE; lia).
  assert (Hone : forall v s', bk_bnrand L bk 1 BN_RAND_TOP_ONE bottom s = (Ok v, s') -> v = 1).
  { intros v s' Hrun.
    destruct (bk_bnrand_value L bk L_ok 1 BN_RAND_TOP_ONE bottom s s' v ltac:(lia) Hrun)
      as (Hv & Htop & _).
    specialize (Htop ltac:(unfold BN_RAND_TOP_ONE; lia)).
    change (2 ^ 1) with 2 in Hv. assert (Hc : v = 0 \/ v = 1) by lia.
    destruct Hc as [-> | ->]; [discriminate Htop|reflexivity]. }
  split; [|split; [|split]].
  - intros top Ht. apply bk_bnrand_rejects. lia.
  - intros s' Hrun.
    destruct (bk_bnrand_cases L bk L_ok 1 BN_RAND_TOP_ONE bottom s ltac:(lia) Hrej)
      as [(why & s1 & E & Hwhy) | (buf0 & buf & s1 & _ & _ & _ & E & _)];
      rewrite E in Hrun; [|discriminate].
    injection Hrun as -> _. destruct Hwhy as [H|[H|H]]; discriminate H.
  - exact Hone.
  - rewrite (one_bit_run L bk bottom s L_ok). split.
    + intros [s' Hrun].
      destruct (new_nothrow_ok L 1); simpl negb in Hrun; cbv iota in Hrun;
        [|discriminate].
      destruct (bk_RAND_bytes L bk 1 s) as [[[rc buf]| | |] s1] eqn:Efill;
        try discriminate.
      destruct (BN_bin2bn_ok L [byte.of_Z 1]); [|discriminate].
      assert (Hbk : 16 <= size bk).
      { unfold bk_RAND_bytes in Efill.
        destruct (Z.ltb_spec (size bk) 16); [discriminate|lia]. }
      repeat split; try assumption.
      apply (fill_spec_for L bk (block_salt bk) 1 s L_ok Hbk ltac:(lia)
               (fun c => eq_refl)) in Efill as (ks & Hks & _).
      change (Z.to_nat (blocks_for 1)) with 1%nat in Hks. simpl in Hks.
      intros Hnone. rewrite Hnone in Hks. discriminate.
    + intros (Hbk & Halloc & Hblk & Hbn).
      destruct (block L bk (block_salt bk) (salt_cnt s)) as [b|] eqn:Eb; [|congruence].
      assert (Hks : keystream L bk (block_salt bk) (salt_cnt s)
                      (Z.to_nat (blocks_for 1)) = Some (b ++ [])).
      { change (Z.to_nat (blocks_for 1)) with 1%nat. simpl. rewrite Eb. reflexivity. }
      rewrite Halloc, (fill_run L bk L_ok 1 s (b ++ []) Hbk ltac:(lia) Hks), Hbn.
      simpl negb. cbv iota. eexists. reflexivity.
Qed.

Lemma one_bit_requests_witness :
  (forall top, 0 < top ->
     bk_bnrand Toy.libc Toy.brainkey 1 top 0 Toy.s0
     = (Return0 InvalidShapeRequest, Toy.s0)) /\
  (forall s', bk_bnrand Toy.libc Toy.brainkey 1 BN_RAND_TOP_ONE 0 Toy.s0
              <> (Return0 InvalidShapeRequest, s')) /\
  (forall v s',
     bk_bnrand Toy.libc Toy.brainkey 1 BN_RAND_TOP_ONE 0 Toy.s0 = (Ok v, s') -> v = 1) /\
  ((exists s', bk_bnrand Toy.libc Toy.brainkey 1 BN_RAND_TOP_ONE 0 Toy.s0 = (Ok 1, s')) <->
   16 <= size Toy.brainkey /\
   new_nothrow_ok Toy.libc 1 = true /\
   block Toy.libc Toy.brainkey (block_salt Toy.brainkey) (salt_cnt Toy.s0) <> None /\
   BN_bin2bn_ok Toy.libc [byte.of_Z 1] = true).
Proof.
  apply (one_bit_requests Toy.libc Toy.brainkey 0 Toy.s0).
  apply toy_laws.
Defined.

(** ** The range sampler *)

Lemma BN_cmp_ge (a b : Z) : (BN_cmp a b >=? 0) = (b <=? a).
Proof.
  unfold BN_cmp. destruct (Z.compare_spec a b), (Z.leb_spec b a); simpl;
    reflexivity || lia.
Qed.

Lemma BN_num_bits_1 (range : Z) : 0 < range -> (BN_num_bits range = 1 <-> range = 1).
Proof.
  intros Hpos. unfold BN_num_bits. destruct (Z.eqb_spec range 0); [lia|].
  rewrite Z.abs_eq by lia. split.
  - intros H. assert (Hl : Z.log2 range = 0) by lia.
    apply Z.log2_null in Hl. lia.
  - intros ->. reflexivity.
Qed.

Lemma reduce_twice_nonneg (range v : Z) : 0 < range -> 0 <= v -> 0 <= reduce_twice range v.
Proof.
  intros Hr Hv. unfold reduce_twice.
  destruct (Z.ltb_spec v range); [lia|]. destruct (Z.ltb_spec (v - range) range); lia.
Qed.

Section RangeFacts.

Context {EC_GROUP EC_POINT : Type}.
Variable L : libcrypto EC_GROUP EC_POINT.
Variable bk : list byte.

(** A value returned by [bk_bnrand] is never negative. *)
Lemma bk_bnrand_nonneg (bits top bottom : Z) (s s' : state) (v : Z) :
  bk_bnrand L bk bits top bottom s = (Ok v, s') -> 0 <= v.
Proof.
  unfold bk_bnrand. destruct (bits =? 0).
  { destruct (_ || _); unfold return0, ret; intros H; [discriminate|].
    injection H as <- _. lia. }
  destruct (_ || _); [unfold return0; discriminate|]. cbv zeta.
  destruct (negb _); [unfold return0; discriminate|].
  intros H. apply bind_inv_ok in H as ([b buf] & s1 & _ & H).
  destruct (b <=? 0); [unfold return0 in H; discriminate|].
  apply bind_inv_ok in H as (buf' & s2 & _ & H).
  destruct (negb _); [unfold return0 in H; discriminate|].
  unfold ret in H. injection H as <- _. apply BN_bin2bn_range.
Qed.

(** A value that leaves either loop lies in [[0, range)]. *)
Lemma range_loop_plain_bounds (range n : Z) (count : nat) : forall s s' r,
  range_loop_plain L bk count range n s = (Ok r, s') -> 0 <= r < range.
Proof.
  induction count as [|c IH]; intros s s' r H; simpl in H.
  - discriminate.
  - apply bind_inv_ok in H as (v & s1 & Hdraw & H).
    destruct (Nat.eqb c 0); [discriminate|].
    rewrite BN_cmp_ge in H. destruct (Z.leb_spec range v).
    + eapply IH. exact H.
    + injection H as <- _. apply bk_bnrand_nonneg in Hdraw. lia.
Qed.

Lemma call_BN_sub_ok_inv (a b r : Z) (s s' : state) :
  call_BN_sub L a b s = (Ok r, s') -> r = a - b /\ s' = s.
Proof.
  unfold call_BN_sub. destruct (BN_sub_ok L a b); intros H; [|discriminate].
  injection H as <- <-. auto.
Qed.

Lemma range_loop_top_zeros_bounds (range n : Z) (count : nat) : forall s s' r,
  range_loop_top_zeros L bk count range n s = (Ok r, s') -> 0 <= r < range.
Proof.
  induction count as [|c IH]; intros s s' r H; simpl in H.
  - discriminate.
  - apply bind_inv_ok in H as (v & s1 & Hdraw & H).
    apply bk_bnrand_nonneg in Hdraw.
    apply bind_inv_ok in H as (v' & s2 & Hred & H).
    assert (Hv' : 0 <= v').
    { rewrite BN_cmp_ge in Hred. destruct (Z.leb_spec range v).
      - apply bind_inv_ok in Hred as (v1 & s3 & Hsub & Hred).
        apply call_BN_sub_ok_inv in Hsub as [-> ->].
        rewrite BN_cmp_ge in Hred. destruct (Z.leb_spec range (v - range)).
        + apply call_BN_sub_ok_inv in Hred as [-> _]. lia.
        + injection Hred as <- _. lia.
      - injection Hred as <- _. lia. }
    destruct (Nat.eqb c 0); [discriminate|].
    rewrite BN_cmp_ge in H. destruct (Z.leb_spec range v').
    + eapply IH. exact H.
    + injection H as <- _. lia.
Qed.

(** [bk_bnrand_range] on a range of at least two bits is one of the loops,
    entered with [count = 100]. *)
Lemma bk_bnrand_range_unfold (range : Z) (s : state) :
  0 < range -> 2 <= BN_num_bits range ->
  bk_bnrand_range L bk range s =
  if top_zeros range
  then range_loop_top_zeros L bk 100 range (BN_num_bits range) s
  else range_loop_plain L bk 100 range (BN_num_bits range) s.
Proof.
  intros Hpos Hn. unfold bk_bnrand_range, BN_is_negative, BN_is_zero, top_zeros.
  destruct (Z.ltb_spec range 0); [lia|]. destruct (Z.eqb_spec range 0); [lia|].
  simpl orb. cbv iota zeta. destruct (Z.eqb_spec (BN_num_bits range) 1); [lia|].
  destruct (_ && _); reflexivity.
Qed.

(** A value returned by [bk_bnrand_range] lies in [[0, range)]. *)
Lemma bk_bnrand_range_value (range : Z) (s s' : state) (r : Z) :
  bk_bnrand_range L bk range s = (Ok r, s') -> 0 < range /\ 0 <= r < range.
Proof.
  unfold bk_bnrand_range, BN_is_negative, BN_is_zero.
  destruct (Z.ltb_spec range 0) as [Hneg|Hnn]; [discriminate|].
  destruct (Z.eqb_spec range 0) as [Hz|Hnz]; [discriminate|]. simpl orb. cbv iota zeta.
  destruct (Z.eqb_spec (BN_num_bits range) 1) as [E1|N1].
  - intros Hrun. injection Hrun as <- _. apply BN_num_bits_1 in E1; lia.
  - destruct (_ && _); intros Hrun; (split; [lia|]).
    + eapply range_loop_top_zeros_bounds. exact Hrun.
    + eapply range_loop_plain_bounds. exact Hrun.
Qed.

End RangeFacts.

(** C2.  [bk_bnrand_range] returns 0 for [range <= 0]; whenever it returns
    a value [r], [range > 0] and [0 <= r < range]; and for [range = 1] it
    returns exactly 0. *)
Theorem sample_range_bounds {EC_GROUP EC_POINT : Type} (L : libcrypto EC_GROUP EC_POINT)
  (bk : list byte) (range : Z) (s : state) :
  (range <= 0 -> bk_bnrand_range L bk range s = (Return0 InvalidRange, s)) /\
  (forall r s', bk_bnrand_range L bk range s = (Ok r, s') -> 0 < range /\ 0 <= r < range) /\
  (range = 1 -> bk_bnrand_range L bk range s = (Ok 0, s)).
Proof.
  split; [|split].
  - intros Hle. unfold bk_bnrand_range, BN_is_negative, BN_is_zero.
    destruct (Z.ltb_spec range 0), (Z.eqb_spec range 0); try reflexivity. lia.
  - intros r s'. apply bk_bnrand_range_value.
  - intros ->. reflexivity.
Qed.
(** ** The rejection loops, attempt by attempt *)

Section Rejection.

Context {EC_GROUP EC_POINT : Type}.
Variable L : libcrypto EC_GROUP EC_POINT.
Variable bk : list byte.
Variable range : Z.

(** Either loop, entered with [count = S c]: an attempt; [return 0] when
    the decrement makes [count] zero; otherwise the value of the attempt if
    it is below [range], or one more turn. *)
Variable loop : nat -> M Z.

Hypothesis loop_step : forall c s,
  loop (S c) s =
  match attempt L bk range s with
  | (Ok r, s1) =>
      if Nat.eqb c 0 then (Return0 SamplingExhausted, s1)
      else if r <? range then (Ok r, s1)
      else loop c s1
  | (o, s1) => (o, s1)
  end.

Lemma rejected_attempts_S (k : nat) (s sk : state) :
  rejected_attempts L bk range (S k) s = Some sk ->
  exists r s1, attempt L bk range s = (Ok r, s1) /\ (r <? range) = false /\
               rejected_attempts L bk range k s1 = Some sk.
Proof.
  simpl. destruct (attempt L bk range s) as [[r| | |] s1]; try discriminate.
  destruct (r <? range) eqn:E; [discriminate|]. eauto.
Qed.

Lemma loop_accepts (k : nat) : forall c s sk r s',
  (k < c)%nat ->
  rejected_attempts L bk range k s = Some sk ->
  attempt L bk range sk = (Ok r, s') -> r < range ->
  loop (S c) s = (Ok r, s').
Proof.
  induction k as [|k IH]; intros c s sk r s' Hk Hrej Hatt Hacc;
    rewrite loop_step; (destruct c as [|c]; [lia|]); simpl Nat.eqb; cbv iota.
  - injection Hrej as <-. rewrite Hatt.
    destruct (Z.ltb_spec r range); [reflexivity|lia].
  - apply rejected_attempts_S in Hrej as (r0 & s1 & E0 & Hacc0 & Hrej).
    rewrite E0, Hacc0. apply (IH c s1 sk r s'); assumption || lia.
Qed.

Lemma loop_exhausts (c : nat) : forall s sk r s',
  rejected_attempts L bk range c s = Some sk ->
  attempt L bk range sk = (Ok r, s') ->
  loop (S c) s = (Return0 SamplingExhausted, s').
Proof.
  induction c as [|c IH]; intros s sk r s' Hrej Hatt; rewrite loop_step.
  - injection Hrej as <-. rewrite Hatt. reflexivity.
  - apply rejected_attempts_S in Hrej as (r0 & s1 & E0 & Hacc0 & Hrej).
    rewrite E0, Hacc0. simpl Nat.eqb. cbv iota. apply (IH s1 sk r s'); assumption.
Qed.

Lemma loop_attempt_fails (k : nat) : forall c s sk o s',
  (k <= c)%nat ->
  rejected_attempts L bk range k s = Some sk ->
  attempt L bk range sk = (o, s') -> (forall r, o <> Ok r) ->
  loop (S c) s = (o, s').
Proof.
  induction k as [|k IH]; intros c s sk o s' Hk Hrej Hatt Hno; rewrite loop_step.
  - injection Hrej as <-. rewrite Hatt.
    destruct o as [r| | |]; [destruct (Hno r); reflexivity| | |]; reflexivity.
  - destruct c as [|c]; [lia|].
    apply rejected_attempts_S in Hrej as (r0 & s1 & E0 & Hacc0 & Hrej).
    rewrite E0, Hacc0. simpl Nat.eqb. cbv iota. apply (IH c s1 sk o s'); assumption || lia.
Qed.

Lemma classify_attempts (c : nat) : forall s, run_of_attempts L bk range c s.
Proof.
  assert (Hfail : forall c s o s1, attempt L bk range s = (o, s1) -> (forall r, o <> Ok r) ->
                                   run_of_attempts L bk range c s).
  { intros c' s o s1 E Hno.
    apply (AttemptFailed L bk range c' s 0%nat s o s1); [lia|reflexivity|exact E|exact Hno]. }
  induction c as [|c IH]; intros s.
  - destruct (attempt L bk range s) as [[r| | |] s1] eqn:E;
      try (apply (Hfail _ _ _ _ E); discriminate).
    apply (AllRejected L bk range 0 s s r s1); [reflexivity|exact E].
  - destruct (attempt L bk range s) as [[r| | |] s1] eqn:E;
      try (apply (Hfail _ _ _ _ E); discriminate).
    destruct (Z.ltb_spec r range) as [Ha|Ha].
    + apply (FirstAccepted L bk range (S c) s 0%nat s r s1);
        [lia|reflexivity|exact E|exact Ha].
    + assert (Hshift : forall k sk, rejected_attempts L bk range k s1 = Some sk ->
                                    rejected_attempts L bk range (S k) s = Some sk).
      { intros k sk H. simpl. rewrite E.
        destruct (Z.ltb_spec r range); [lia|exact H]. }
      destruct (IH s1) as [k sk r' s' Hk Hrej Hatt Hacc | sk r' s' Hrej Hatt
                          | k sk o s' Hk Hrej Hatt Hno].
      * apply (FirstAccepted L bk range (S c) s (S k) sk r' s'); auto. lia.
      * apply (AllRejected L bk range (S c) s sk r' s'); auto.
      * apply (AttemptFailed L bk range (S c) s (S k) sk o s'); auto. lia.
Qed.

End Rejection.
Lemma bind_inv_return0 {A B} (m : M A) (f : A -> M B) (s s' : state) (why : failure) :
  bind m f s = (Return0 why, s') ->
  m s = (Return0 why, s') \/ exists a s1, m s = (Ok a, s1) /\ f a s1 = (Return0 why, s').
Proof.
  unfold bind. destruct (m s) as [[a| | |] s1]; intros H; try discriminate.
  - right. exists a, s1. split; [reflexivity|assumption].
  - left. injection H as <- <-. reflexivity.
Qed.

Section RangeLoops.

Context {EC_GROUP EC_POINT : Type}.
Variable L : libcrypto EC_GROUP EC_POINT.
Variable bk : list byte.
Variable range : Z.

(** The kinds of failure behind a return of 0 of the fill and of
    [bk_bnrand]. *)
Lemma bk_RAND_bytes_loop_return0 (fuel : nat) : forall buflen have buf s why s',
  bk_RAND_bytes_loop L bk fuel buflen have buf s = (Return0 why, s') ->
  why = DerivationFailure.
Proof.
  induction fuel as [|fuel IH]; intros buflen have buf s why s' H; simpl in H;
    destruct (have <? buflen); try discriminate.
  apply bind_inv_return0 in H as [H | (cnt & s1 & _ & H)]; [discriminate|].
  apply bind_inv_return0 in H as [H | (out & s2 & _ & H)].
  - unfold call_PBKDF2 in H.
    apply bind_inv_return0 in H as [H | (u & s3 & _ & H)]; [discriminate|].
    destruct (PKCS5_PBKDF2_HMAC L _ _ _ _ _); [discriminate|].
    injection H as <- _. reflexivity.
  - eapply IH. exact H.
Qed.

Lemma bk_RAND_bytes_return0 (len : Z) (s s' : state) (why : failure) :
  bk_RAND_bytes L bk len s = (Return0 why, s') ->
  why = Unsupported \/ why = DerivationFailure.
Proof.
  unfold bk_RAND_bytes. destruct (size bk <? 16).
  { intros H. injection H as <- _. auto. }
  destruct (len <? 0); [discriminate|]. intros H.
  apply bind_inv_return0 in H as [H | (buf & s1 & _ & H)]; [|discriminate].
  right. eapply bk_RAND_bytes_loop_return0. exact H.
Qed.

Lemma buf_update_return0 (buf : list byte) (i : Z) (f : Z -> Z) (s s' : state)
  (why : failure) :
  buf_update buf i f s <> (Return0 why, s').
Proof. unfold buf_update. destruct (buf_get buf i); discriminate. Qed.

Lemma shape_buf_return0 (bytes bit mask top bottom : Z) (buf : list byte) (s s' : state)
  (why : failure) :
  shape_buf bytes bit mask top bottom buf s <> (Return0 why, s').
Proof.
  unfold shape_buf. intros H.
  apply bind_inv_return0 in H as [H | (b1 & s1 & _ & H)].
  - destruct (top >=? 0); [|discriminate].
    destruct (negb (top =? 0)); [|exact (buf_update_return0 _ _ _ _ _ _ H)].
    destruct (bit =? 0); [|exact (buf_update_return0 _ _ _ _ _ _ H)].
    apply bind_inv_return0 in H as [H | (b0 & s0 & _ & H)];
      exact (buf_update_return0 _ _ _ _ _ _ H).
  - apply bind_inv_return0 in H as [H | (b2 & s2 & _ & H)];
      [exact (buf_update_return0 _ _ _ _ _ _ H)|].
    destruct (negb (bottom =? 0)); [exact (buf_update_return0 _ _ _ _ _ _ H)|discriminate].
Qed.

Lemma bk_bnrand_return0 (bits top bottom : Z) (s s' : state) (why : failure) :
  bk_bnrand L bk bits top bottom s = (Return0 why, s') ->
  why = InvalidShapeRequest \/ why = AllocationFailure \/
  why = Unsupported \/ why = DerivationFailure.
Proof.
  unfold bk_bnrand. destruct (bits =? 0).
  { destruct (_ || _); intros H; [|discriminate]. injection H as <- _. auto. }
  destruct (_ || _); [intros H; injection H as <- _; auto|]. cbv zeta.
  destruct (negb _); [intros H; injection H as <- _; auto|]. intros H.
  apply bind_inv_return0 in H as [H | ([b buf] & s1 & _ & H)].
  { apply bk_RAND_bytes_return0 in H. tauto. }
  destruct (b <=? 0); [injection H as <- _; auto|].
  apply bind_inv_return0 in H as [H | (buf' & s2 & _ & H)].
  { destruct (shape_buf_return0 _ _ _ _ _ _ _ _ _ H). }
  destruct (negb _); [injection H as <- _; auto|discriminate].
Qed.

(** One turn of the loop that runs for [range]. *)
Lemma the_loop_turn (c : nat) (s : state) :
  the_loop L bk range (S c) s =
  match attempt L bk range s with
  | (Ok r, s1) =>
      if Nat.eqb c 0 then (Return0 SamplingExhausted, s1)
      else if r <? range then (Ok r, s1)
      else the_loop L bk range c s1
  | (o, s1) => (o, s1)
  end.
Proof.
  assert (Hcmp : forall r, (BN_cmp r range >=? 0) = negb (r <? range)).
  { intros r. rewrite BN_cmp_ge.
    destruct (Z.leb_spec range r), (Z.ltb_spec r range); reflexivity || lia. }
  unfold the_loop, attempt, draw, draw_bits.
  destruct (top_zeros range) eqn:Htz; simpl; unfold bind, ret.
  - destruct (bk_bnrand L bk (BN_num_bits range + 1) bk_BN_RAND_TOP_ANY
                bk_BN_RAND_BOTTOM_ANY s) as [[v| | |] s1]; try reflexivity.
    assert (Hend : forall r s2,
      (if Nat.eqb c 0 then return0 SamplingExhausted
       else if BN_cmp r range >=? 0
            then range_loop_top_zeros L bk c range (BN_num_bits range)
            else fun s => (Ok r, s)) s2 =
      (if Nat.eqb c 0 then (Return0 SamplingExhausted, s2)
       else if r <? range then (Ok r, s2)
            else range_loop_top_zeros L bk c range (BN_num_bits range) s2)).
    { intros r s2. destruct (Nat.eqb c 0); [reflexivity|]. rewrite Hcmp.
      destruct (r <? range); reflexivity. }
    destruct (BN_cmp v range >=? 0); [|apply Hend].
    destruct (call_BN_sub L v range s1) as [[v1| | |] s2]; try reflexivity.
    destruct (BN_cmp v1 range >=? 0); [|apply Hend].
    destruct (call_BN_sub L v1 range s2) as [[v2| | |] s3]; try reflexivity.
    apply Hend.
  - destruct (bk_bnrand L bk (BN_num_bits range) bk_BN_RAND_TOP_ANY
                bk_BN_RAND_BOTTOM_ANY s) as [[v| | |] s1]; try reflexivity.
    destruct (Nat.eqb c 0); [reflexivity|]. rewrite Hcmp.
    destruct (v <? range); reflexivity.
Qed.

(** An attempt gives a value exactly when its draw returns one and the
    subtractions made of it, in the loop for [range = 100..._2], do not
    fail; the value is the candidate of the draw. *)
Lemma attempt_ok (s s' : state) (r : Z) :
  attempt L bk range s = (Ok r, s') <->
  exists v,
    draw L bk range s = (Ok v, s') /\ r = candidate range v /\
    (top_zeros range = true -> range <= v ->
     BN_sub_ok L v range = true /\
     (2 * range <= v -> BN_sub_ok L (v - range) range = true)).
Proof.
  unfold attempt, candidate, reduce_twice, call_BN_sub. split.
  - intros H. apply bind_inv_ok in H as (v & s1 & Hdraw & H). exists v.
    destruct (top_zeros range).
    + rewrite BN_cmp_ge in H.
      destruct (Z.leb_spec range v), (Z.ltb_spec v range); try lia.
      * unfold bind in H. destruct (BN_sub_ok L v range); [|discriminate].
        unfold ret in H. rewrite BN_cmp_ge in H.
        destruct (Z.leb_spec range (v - range)), (Z.ltb_spec (v - range) range); try lia.
        -- destruct (BN_sub_ok L (v - range) range); [|discriminate].
           injection H as <- <-. repeat split; auto.
        -- injection H as <- <-. repeat split; auto. lia.
      * injection H as <- <-. repeat split; auto; lia.
    + injection H as <- <-. repeat split; auto; discriminate.
  - intros (v & Hdraw & -> & Hsub). rewrite (bind_ok _ _ _ _ _ Hdraw).
    destruct (top_zeros range); [|reflexivity].
    rewrite BN_cmp_ge.
    destruct (Z.leb_spec range v), (Z.ltb_spec v range); try lia; [|reflexivity].
    destruct (Hsub eq_refl ltac:(lia)) as [-> Hsub2].
    unfold bind, ret. rewrite BN_cmp_ge.
    destruct (Z.leb_spec range (v - range)), (Z.ltb_spec (v - range) range); try lia;
      [|reflexivity].
    rewrite Hsub2 by lia. reflexivity.
Qed.

(** An attempt gives no negative value, and never ends in exhaustion. *)
Lemma attempt_nonneg (s s' : state) (r : Z) :
  0 < range -> attempt L bk range s = (Ok r, s') -> 0 <= r.
Proof.
  intros Hpos H. apply attempt_ok in H as (v & Hdraw & -> & _).
  unfold draw in Hdraw. apply bk_bnrand_nonneg in Hdraw.
  unfold candidate. destruct (top_zeros range); [|exact Hdraw].
  apply reduce_twice_nonneg; assumption.
Qed.

Lemma attempt_return0 (s s' : state) (why : failure) :
  attempt L bk range s = (Return0 why, s') -> why <> SamplingExhausted.
Proof.
  unfold attempt. intros H.
  apply bind_inv_return0 in H as [H | (v & s1 & _ & H)].
  { unfold draw in H. apply bk_bnrand_return0 in H.
    destruct H as [-> | [-> | [-> | ->]]]; discriminate. }
  assert (Hsub : forall a s2 s3, call_BN_sub L a range s2 = (Return0 why, s3) ->
                                 why <> SamplingExhausted).
  { intros a s2 s3. unfold call_BN_sub. destruct (BN_sub_ok L a range); [discriminate|].
    intros E. injection E as <- _. discriminate. }
  destruct (top_zeros range); [|discriminate].
  destruct (BN_cmp v range >=? 0); [|discriminate].
  apply bind_inv_return0 in H as [H | (v1 & s2 & _ & H)]; [exact (Hsub _ _ _ H)|].
  destruct (BN_cmp v1 range >=? 0); [exact (Hsub _ _ _ H)|discriminate].
Qed.

Lemma bk_bnrand_range_the_loop (s : state) :
  0 < range -> 2 <= BN_num_bits range ->
  bk_bnrand_range L bk range s = the_loop L bk range 100 s.
Proof.
  intros Hpos Hbits. rewrite bk_bnrand_range_unfold by assumption. unfold the_loop.
  destruct (top_zeros range); reflexivity.
Qed.

End RangeLoops.

(** C4 (as amended).  For [range > 0] of at least two bits the call is made
    of at most 100 attempts, an attempt being a draw and, in the loop for
    [range = 100..._2], the at most two subtractions of [range] made of it.
    The call returns the value of the first attempt that gives a value
    below [range], when that attempt is among the first 99; every value it
    returns is such a value and lies in [[0, range)]; and it returns 0 for
    exhaustion exactly when the first 99 attempts are all rejected and the
    100th attempt gives a value, whatever that value.  An attempt that
    gives no value ends the call at once, with the outcome of the attempt.
    An attempt gives a value exactly when its draw returns one and its
    subtractions do not fail, and the value is then the draw less [range]
    at most twice. *)
Theorem sample_range_attempts {EC_GROUP EC_POINT : Type} (L : libcrypto EC_GROUP EC_POINT)
  (bk : list byte) (range : Z) (s : state) :
  0 < range -> 2 <= BN_num_bits range ->
  (forall k sk r s',
     (k < 99)%nat ->
     rejected_attempts L bk range k s = Some sk ->
     attempt L bk range sk = (Ok r, s') -> r < range ->
     bk_bnrand_range L bk range s = (Ok r, s')) /\
  (forall r s',
     bk_bnrand_range L bk range s = (Ok r, s') ->
     exists k sk,
       (k < 99)%nat /\
       rejected_attempts L bk range k s = Some sk /\
       attempt L bk range sk = (Ok r, s') /\ 0 <= r < range) /\
  (forall s',
     bk_bnrand_range L bk range s = (Return0 SamplingExhausted, s') <->
     exists sk r,
       rejected_attempts L bk range 99 s = Some sk /\
       attempt L bk range sk = (Ok r, s')) /\
  (forall o s',
     bk_bnrand_range L bk range s = (o, s') ->
     exists k sk o',
       (k < 100)%nat /\
       rejected_attempts L bk range k s = Some sk /\ attempt L bk range sk = (o', s')) /\
  (forall k sk o s',
     (k < 100)%nat ->
     rejected_attempts L bk range k s = Some sk ->
     attempt L bk range sk = (o, s') -> (forall r, o <> Ok r) ->
     bk_bnrand_range L bk range s = (o, s')) /\
  (forall s1 r s2,
     attempt L bk range s1 = (Ok r, s2) <->
     exists v,
       draw L bk range s1 = (Ok v, s2) /\ r = candidate range v /\
       (top_zeros range = true -> range <= v ->
        BN_sub_ok L v range = true /\
        (2 * range <= v -> BN_sub_ok L (v - range) range = true))).
Proof.
  intros Hpos Hbits.
  rewrite (bk_bnrand_range_the_loop L bk range s Hpos Hbits).
  pose proof (the_loop_turn L bk range) as Hstep.
  pose proof (classify_attempts L bk range 99 s) as Hruns.
  split; [|split; [|split; [|split; [|split]]]].
  - intros k sk r s' Hk Hrej Hatt Hacc.
    apply (loop_accepts L bk range _ Hstep k 99 s sk r s'); assumption.
  - intros r s' Hrun.
    destruct Hruns as [k sk r1 s1 Hk Hrej Hatt Hacc | sk r1 s1 Hrej Hatt
                      | k sk o s1 Hk Hrej Hatt Hno].
    + rewrite (loop_accepts L bk range _ Hstep k 99 s sk r1 s1) in Hrun by assumption.
      injection Hrun as <- <-. exists k, sk. repeat split; try assumption.
      apply (attempt_nonneg L bk range sk s1 r1 Hpos Hatt).
    + rewrite (loop_exhausts L bk range _ Hstep 99 s sk r1 s1) in Hrun by assumption.
      discriminate.
    + rewrite (loop_attempt_fails L bk range _ Hstep k 99 s sk o s1) in Hrun by assumption.
      injection Hrun as -> _. destruct (Hno r). reflexivity.
  - intros s'. split.
    + intros Hrun.
      destruct Hruns as [k sk r1 s1 Hk Hrej Hatt Hacc | sk r1 s1 Hrej Hatt
                        | k sk o s1 Hk Hrej Hatt Hno].
      * rewrite (loop_accepts L bk range _ Hstep k 99 s sk r1 s1) in Hrun by assumption.
        discriminate.
      * rewrite (loop_exhausts L bk range _ Hstep 99 s sk r1 s1) in Hrun by assumption.
        injection Hrun as <-. eauto.
      * rewrite (loop_attempt_fails L bk range _ Hstep k 99 s sk o s1) in Hrun
          by assumption.
        injection Hrun as -> _.
        destruct (attempt_return0 L bk range sk s1 SamplingExhausted Hatt). reflexivity.
    + intros (sk & r & Hrej & Hatt).
      apply (loop_exhausts L bk range _ Hstep 99 s sk r s'); assumption.
  - intros o s' Hrun.
    destruct Hruns as [k sk r1 s1 Hk Hrej Hatt Hacc | sk r1 s1 Hrej Hatt
                      | k sk o1 s1 Hk Hrej Hatt Hno].
    + rewrite (loop_accepts L bk range _ Hstep k 99 s sk r1 s1) in Hrun by assumption.
      injection Hrun as _ <-. exists k, sk, (Ok r1). repeat split; try assumption. lia.
    + rewrite (loop_exhausts L bk range _ Hstep 99 s sk r1 s1) in Hrun by assumption.
      injection Hrun as _ <-. exists 99%nat, sk, (Ok r1). repeat split; try assumption. lia.
    + rewrite (loop_attempt_fails L bk range _ Hstep k 99 s sk o1 s1) in Hrun
        by assumption.
      injection Hrun as _ <-. exists k, sk, o1. repeat split; try assumption. lia.
  - intros k sk o s' Hk Hrej Hatt Hno.
    apply (loop_attempt_fails L bk range _ Hstep k 99 s sk o s'); assumption || lia.
  - intros s1 r s2. apply attempt_ok.
Qed.

Lemma sample_range_attempts_witness :
  exists s', bk_bnrand_range Toy.libc Toy.brainkey 32 Toy.s0 = (Ok 19, s').
Proof.
  destruct (sample_range_attempts Toy.libc Toy.brainkey 32 Toy.s0)
    as (Haccept & _).
  - lia.
  - vm_compute. discriminate.
  - destruct (rejected_attempts Toy.libc Toy.brainkey 32 10 Toy.s0) as [sk|] eqn:Erej;
      [|vm_compute in Erej; discriminate].
    assert (Hatt : attempt Toy.libc Toy.brainkey 32 sk
                   = (Ok 19, snd (attempt Toy.libc Toy.brainkey 32 sk))).
    { pose proof Erej as E. vm_compute in E. injection E as <-. vm_compute. reflexivity. }
    exists (snd (attempt Toy.libc Toy.brainkey 32 sk)).
    apply (Haccept 10%nat sk 19 _ ltac:(lia) Erej Hatt). lia.
Defined.

(** C4, as stated, fails: a value accepted at the 100th attempt is not
    returned.  With a derivation that gives the byte 255 for every counter
    value but 99, and [range = 3], the first 99 draws are 3 and rejected,
    the 100th draw is 0 and accepted, and the call returns 0. *)
Lemma hundredth_draw_not_used :
  ~ (forall k sk r s',
       (k < 100)%nat ->
       rejected_attempts Toy.libc_ones_but_99 Toy.brainkey 3 k Toy.s0 = Some sk ->
       attempt Toy.libc_ones_but_99 Toy.brainkey 3 sk = (Ok r, s') -> r < 3 ->
       bk_bnrand_range Toy.libc_ones_but_99 Toy.brainkey 3 Toy.s0 = (Ok r, s')).
Proof.
  intros H.
  destruct (rejected_attempts Toy.libc_ones_but_99 Toy.brainkey 3 99 Toy.s0) as [sk|]
    eqn:Erej; [|vm_compute in Erej; discriminate].
  assert (Hlast : attempt Toy.libc_ones_but_99 Toy.brainkey 3 sk
                  = (Ok 0, snd (attempt Toy.libc_ones_but_99 Toy.brainkey 3 sk))).
  { pose proof Erej as E. vm_compute in E. injection E as <-. vm_compute. reflexivity. }
  specialize (H 99%nat sk 0 _ ltac:(lia) Erej Hlast ltac:(lia)).
  assert (Hrun : fst (bk_bnrand_range Toy.libc_ones_but_99 Toy.brainkey 3 Toy.s0)
                 = Return0 SamplingExhausted)
    by (vm_compute; reflexivity).
  rewrite H in Hrun. discriminate Hrun.
Qed.

(** ** The key generator *)

Section GeneratorFacts.

Context {EC_GROUP EC_POINT : Type}.
Variable L : libcrypto EC_GROUP EC_POINT.
Variable bk : list byte.

(** The scalar that leaves the resampling loop is in [[1, order)]. *)
Lemma sample_priv_key_value (order : Z) (fuel : nat) : forall s s' priv,
  sample_priv_key L bk fuel order s = (Ok priv, s') -> 1 <= priv < order.
Proof.
  induction fuel as [|fuel IH]; intros s s' priv H; simpl in H.
  - discriminate.
  - apply bind_inv_ok in H as (r & s1 & Hr & H).
    apply bk_bnrand_range_value in Hr. unfold BN_is_zero in H.
    destruct (Z.eqb_spec r 0).
    + eapply IH. exact H.
    + injection H as <- _. lia.
Qed.

(** The resampling loop returns the first scalar sampled that is not 0:
    the samplings before it have all returned 0. *)
Lemma sample_priv_key_run (order : Z) (fuel : nat) : forall s s' d,
  sample_priv_key L bk fuel order s = (Ok d, s') <->
  exists k sk,
    (k < fuel)%nat /\ zero_samples L bk order k s = Some sk /\
    bk_bnrand_range L bk order sk = (Ok d, s') /\ d <> 0.
Proof.
  induction fuel as [|fuel IH]; intros s s' d.
  - split; [discriminate|]. intros (k & _ & Hk & _). lia.
  - cbn [sample_priv_key]. unfold bind.
    destruct (bk_bnrand_range L bk order s) as [[r| | |] s1] eqn:Er.
    + unfold BN_is_zero. destruct (Z.eqb_spec r 0) as [Hz|Hnz].
      * rewrite IH. split.
        -- intros (k & sk & Hk & Hzs & Hd). exists (S k), sk. split; [lia|].
           split; [|exact Hd]. cbn [zero_samples]. rewrite Er. unfold BN_is_zero.
           destruct (Z.eqb_spec r 0); [exact Hzs|contradiction].
        -- intros (k & sk & Hk & Hzs & Hd & Hne). destruct k as [|k].
           ++ injection Hzs as <-. rewrite Er in Hd. injection Hd as -> _. contradiction.
           ++ cbn [zero_samples] in Hzs. rewrite Er in Hzs. unfold BN_is_zero in Hzs.
              destruct (Z.eqb_spec r 0); [|contradiction].
              exists k, sk. split; [lia|]. auto.
      * unfold ret. split.
        -- intros H. injection H as <- <-. exists 0%nat, s. split; [lia|].
           split; [reflexivity|]. split; [exact Er|exact Hnz].
        -- intros (k & sk & Hk & Hzs & Hd & Hne). destruct k as [|k].
           ++ injection Hzs as <-. rewrite Er in Hd. exact Hd.
           ++ cbn [zero_samples] in Hzs. rewrite Er in Hzs. unfold BN_is_zero in Hzs.
              destruct (Z.eqb_spec r 0); [contradiction|discriminate].
    + split; [discriminate|]. intros (k & sk & Hk & Hzs & Hd & Hne). destruct k as [|k].
      * injection Hzs as <-. rewrite Er in Hd. discriminate.
      * cbn [zero_samples] in Hzs. rewrite Er in Hzs. discriminate.
    + split; [discriminate|]. intros (k & sk & Hk & Hzs & Hd & Hne). destruct k as [|k].
      * injection Hzs as <-. rewrite Er in Hd. discriminate.
      * cbn [zero_samples] in Hzs. rewrite Er in Hzs. discriminate.
    + split; [discriminate|]. intros (k & sk & Hk & Hzs & Hd & Hne). destruct k as [|k].
      * injection Hzs as <-. rewrite Er in Hd. discriminate.
      * cbn [zero_samples] in Hzs. rewrite Er in Hzs. discriminate.
Qed.

(** The deterministic path, step by step. *)
Lemma EC_KEY_generate_key_unfold (fuel : nat) (eckey : EC_KEY EC_GROUP EC_POINT) (s : state) :
  16 <= size bk ->
  EC_KEY_generate_key L bk fuel eckey s =
  if negb (BN_CTX_new_ok L && BN_new_ok L && BN_new_ok L && EC_POINT_new_ok L (group eckey))
  then (Return0 AllocationFailure, eckey, s)
  else
    match EC_GROUP_get_order L (group eckey) with
    | None => (Return0 KeyGenerationFailure, eckey, s)
    | Some order =>
        match sample_priv_key L bk fuel order s with
        | (Ok priv, s') =>
            match EC_POINT_mul L (group eckey) priv with
            | None => (Return0 KeyGenerationFailure, eckey, s')
            | Some pub =>
                let '(rc1, eckey1) := EC_KEY_set_private_key L eckey priv in
                if negb (rc1 =? 1) then (Return0 KeyGenerationFailure, eckey1, s')
                else
                  let '(rc2, eckey2) := EC_KEY_set_public_key L eckey1 pub in
                  if negb (rc2 =? 1) then (Return0 KeyGenerationFailure, eckey2, s')
                  else (Ok 1, eckey2, s')
            end
        | (Return0 why, s') => (Return0 why, eckey, s')
        | (Undefined, s') => (Undefined, eckey, s')
        | (OutOfFuel, s') => (OutOfFuel, eckey, s')
        end
    end.
Proof.
  intros Hbk. unfold EC_KEY_generate_key.
  destruct (Z.ltb_spec (size bk) 16); [lia|reflexivity].
Qed.

End GeneratorFacts.

(** C6.  The deterministic path returns a key pair exactly when its
    allocations succeed, the group has an order, the sampling of the scalar
    returns 0 some number of times, each of which is sampled again, and then
    a scalar that is not 0, and the point multiplication and the two setters
    succeed for that scalar; the call then returns 1.  Every key pair
    returned has a private scalar in [[1, order)]: the stored scalar is not
    zero and is less than the order, and the stored public point is that
    scalar times the generator. *)
Theorem generated_scalar_in_range {EC_GROUP EC_POINT : Type}
  (L : libcrypto EC_GROUP EC_POINT) (bk : list byte) (fuel : nat)
  (eckey : EC_KEY EC_GROUP EC_POINT) (s : state) :
  libcrypto_laws L -> 16 <= size bk ->
  (forall rc eckey' s',
     EC_KEY_generate_key L bk fuel eckey s = (Ok rc, eckey', s') <->
     rc = 1 /\
     BN_CTX_new_ok L = true /\ BN_new_ok L = true /\
     EC_POINT_new_ok L (group eckey) = true /\
     exists order k sk d pub eckey1,
       EC_GROUP_get_order L (group eckey) = Some order /\
       (k < fuel)%nat /\ zero_samples L bk order k s = Some sk /\
       bk_bnrand_range L bk order sk = (Ok d, s') /\ d <> 0 /\
       EC_POINT_mul L (group eckey) d = Some pub /\
       EC_KEY_set_private_key L eckey d = (1, eckey1) /\
       EC_KEY_set_public_key L eckey1 pub = (1, eckey')) /\
  (forall rc eckey' s',
     EC_KEY_generate_key L bk fuel eckey s = (Ok rc, eckey', s') ->
     rc = 1 /\
     exists order d,
       EC_GROUP_get_order L (group eckey) = Some order /\
       priv_key eckey' = Some d /\ 1 <= d < order /\
       pub_key eckey' = EC_POINT_mul L (group eckey) d /\ pub_key eckey' <> None).
Proof.
  intros L_ok Hbk.
  assert (Hiff : forall rc eckey' s',
     EC_KEY_generate_key L bk fuel eckey s = (Ok rc, eckey', s') <->
     rc = 1 /\
     BN_CTX_new_ok L = true /\ BN_new_ok L = true /\
     EC_POINT_new_ok L (group eckey) = true /\
     exists order k sk d pub eckey1,
       EC_GROUP_get_order L (group eckey) = Some order /\
       (k < fuel)%nat /\ zero_samples L bk order k s = Some sk /\
       bk_bnrand_range L bk order sk = (Ok d, s') /\ d <> 0 /\
       EC_POINT_mul L (group eckey) d = Some pub /\
       EC_KEY_set_private_key L eckey d = (1, eckey1) /\
       EC_KEY_set_public_key L eckey1 pub = (1, eckey')).
  { intros rc eckey' s'. rewrite EC_KEY_generate_key_unfold by assumption. split.
    - destruct (BN_CTX_new_ok L); [|discriminate].
      destruct (BN_new_ok L); [|discriminate].
      destruct (EC_POINT_new_ok L (group eckey)); [|discriminate].
      simpl negb. cbv iota.
      destruct (EC_GROUP_get_order L (group eckey)) as [order|]; [|discriminate].
      destruct (sample_priv_key L bk fuel order s) as [[priv| | |] s1] eqn:Es;
        try discriminate.
      apply sample_priv_key_run in Es as (k & sk & Hk & Hzs & Hd & Hne).
      destruct (EC_POINT_mul L (group eckey) priv) as [pub|] eqn:Emul; [|discriminate].
      destruct (EC_KEY_set_private_key L eckey priv) as [rc1 k1] eqn:E1.
      destruct (Z.eqb_spec rc1 1) as [->|]; simpl negb; cbv iota; [|discriminate].
      destruct (EC_KEY_set_public_key L k1 pub) as [rc2 k2] eqn:E2.
      destruct (Z.eqb_spec rc2 1) as [->|]; simpl negb; cbv iota; [|discriminate].
      intros H. injection H as <- <- <-.
      repeat (split; [reflexivity|]).
      exists order, k, sk, priv, pub, k1. repeat split; assumption.
    - intros (-> & -> & -> & -> & order & k & sk & d & pub & eckey1 &
              -> & Hk & Hzs & Hd & Hne & Hmul & E1 & E2).
      simpl negb. cbv iota.
      assert (Es : sample_priv_key L bk fuel order s = (Ok d, s')).
      { apply sample_priv_key_run. exists k, sk. auto. }
      rewrite Es, Hmul, E1. simpl negb. cbv iota. rewrite E2. reflexivity. }
  split; [exact Hiff|].
  intros rc eckey' s' Hrun.
  apply Hiff in Hrun as (-> & _ & _ & _ & order & k & sk & d & pub & eckey1 &
                         Horder & _ & _ & Hd & Hne & Hmul & E1 & E2).
  apply bk_bnrand_range_value in Hd.
  destruct (set_private_key_stores L L_ok _ _ _ E1) as (Hp1 & _ & _).
  destruct (set_public_key_stores L L_ok _ _ _ E2) as (Hq2 & Hp2 & _).
  split; [reflexivity|]. exists order, d.
  rewrite Hp2, Hp1, Hq2, Hmul. repeat split; try assumption; try reflexivity; try lia.
  discriminate.
Qed.

Lemma generated_scalar_in_range_witness :
  EC_KEY_generate_key Toy.libc_zero_first Toy.brainkey 2 (Toy.key0 11) Toy.s0
  = (Ok 1, mkEC_KEY 11 (Some 1) (Some 1),
     snd (bk_bnrand_range Toy.libc_zero_first Toy.brainkey 11
            (snd (bk_bnrand_range Toy.libc_zero_first Toy.brainkey 11 Toy.s0)))) /\
  exists order d,
    EC_GROUP_get_order Toy.libc_zero_first (group (Toy.key0 11)) = Some order /\
    priv_key (mkEC_KEY 11 (Some 1) (Some 1)) = Some d /\ 1 <= d < order /\
    pub_key (mkEC_KEY 11 (Some 1) (Some 1))
    = EC_POINT_mul Toy.libc_zero_first (group (Toy.key0 11)) d /\
    pub_key (mkEC_KEY (EC_POINT := Toy.toy_point) 11 (Some 1) (Some 1)) <> None.
Proof.
  destruct (generated_scalar_in_range Toy.libc_zero_first Toy.brainkey 2
              (Toy.key0 11) Toy.s0) as [Hiff Hrange].
  - apply toy_laws.
  - vm_compute. discriminate.
  - assert (Hrun :
      EC_KEY_generate_key Toy.libc_zero_first Toy.brainkey 2 (Toy.key0 11) Toy.s0
      = (Ok 1, mkEC_KEY 11 (Some 1) (Some 1),
         snd (bk_bnrand_range Toy.libc_zero_first Toy.brainkey 11
                (snd (bk_bnrand_range Toy.libc_zero_first Toy.brainkey 11 Toy.s0))))).
    { apply Hiff. repeat (split; [reflexivity|]).
      exists 11, 1%nat,
        (snd (bk_bnrand_range Toy.libc_zero_first Toy.brainkey 11 Toy.s0)),
        1, 1, (mkEC_KEY 11 (Some 1) None).
      split; [reflexivity|]. split; [lia|].
      split; [vm_compute; reflexivity|]. split; [vm_compute; reflexivity|].
      split; [discriminate|]. repeat split. }
    split; [exact Hrun|].
    destruct (Hrange _ _ _ Hrun) as [_ H]. exact H.
Defined.

(** C7, as stated, fails: when the public-key setter fails after the
    private-key setter has succeeded, the call returns 0 and the key object
    holds the new private scalar and no public point. *)
Lemma failed_generate_changes_key :
  ~ (forall why eckey' s',
       EC_KEY_generate_key Toy.libc_pub_fails Toy.brainkey 5 (Toy.key0 11) Toy.s0
       = (Return0 why, eckey', s') ->
       eckey' = Toy.key0 11).
Proof.
  intros H.
  assert (Hrun : fst (EC_KEY_generate_key Toy.libc_pub_fails Toy.brainkey 5 (Toy.key0 11)
                        Toy.s0)
                 = (Return0 KeyGenerationFailure, mkEC_KEY 11 (Some 2) None))
    by (vm_compute; reflexivity).
  destruct (EC_KEY_generate_key Toy.libc_pub_fails Toy.brainkey 5 (Toy.key0 11) Toy.s0)
    as [[o k] s'] eqn:E.
  simpl in Hrun. injection Hrun as -> ->.
  specialize (H _ _ _ eq_refl). discriminate H.
Qed.

(** C7 (as amended).  When the deterministic path fails, the key object is
    left unchanged unless the failure is that of a setter of the key
    object.  When the private-key setter fails, the key object is as that
    setter left it; when the public-key setter fails, after the private-key
    setter has succeeded, the key object is as the two setters left it. *)
Theorem failed_generate_key_object {EC_GROUP EC_POINT : Type}
  (L : libcrypto EC_GROUP EC_POINT) (bk : list byte) (fuel : nat)
  (eckey eckey' : EC_KEY EC_GROUP EC_POINT) (s s' : state) (why : failure) :
  16 <= size bk ->
  EC_KEY_generate_key L bk fuel eckey s = (Return0 why, eckey', s') ->
  eckey' = eckey \/
  exists order priv pub,
    EC_GROUP_get_order L (group eckey) = Some order /\
    sample_priv_key L bk fuel order s = (Ok priv, s') /\
    EC_POINT_mul L (group eckey) priv = Some pub /\
    why = KeyGenerationFailure /\
    ((fst (EC_KEY_set_private_key L eckey priv) <> 1 /\
      eckey' = snd (EC_KEY_set_private_key L eckey priv)) \/
     (exists eckey1,
        EC_KEY_set_private_key L eckey priv = (1, eckey1) /\
        fst (EC_KEY_set_public_key L eckey1 pub) <> 1 /\
        eckey' = snd (EC_KEY_set_public_key L eckey1 pub))).
Proof.
  intros Hbk. rewrite EC_KEY_generate_key_unfold by assumption.
  destruct (negb _); [intros H; injection H as _ <- _; auto|].
  destruct (EC_GROUP_get_order L (group eckey)) as [order|];
    [|intros H; injection H as _ <- _; auto].
  destruct (sample_priv_key L bk fuel order s) as [[priv| | |] s1] eqn:Es;
    try (intros H; injection H as _ <- _; auto; fail); try discriminate.
  destruct (EC_POINT_mul L (group eckey) priv) as [pub|] eqn:Emul;
    [|intros H; injection H as _ <- _; auto].
  destruct (EC_KEY_set_private_key L eckey priv) as [rc1 k1] eqn:E1.
  destruct (Z.eqb_spec rc1 1) as [->|N1]; simpl negb; cbv iota.
  - destruct (EC_KEY_set_public_key L k1 pub) as [rc2 k2] eqn:E2.
    destruct (Z.eqb_spec rc2 1) as [->|N2]; simpl negb; cbv iota; [discriminate|].
    intros H. injection H as <- <- <-. right. exists order, priv, pub.
    repeat (split; [first [reflexivity | assumption]|]).
    right. exists k1. rewrite E2. simpl. auto.
  - intros H. injection H as <- <- <-. right. exists order, priv, pub.
    repeat (split; [first [reflexivity | assumption]|]).
    left. rewrite E1. simpl. auto.
Qed.

Lemma failed_generate_key_object_witness :
  mkEC_KEY 11 (Some 2) None = Toy.key0 11 \/
  exists order priv pub,
    EC_GROUP_get_order Toy.libc_pub_fails (group (Toy.key0 11)) = Some order /\
    sample_priv_key Toy.libc_pub_fails Toy.brainkey 5 order Toy.s0
    = (Ok priv,
       snd (EC_KEY_generate_key Toy.libc_pub_fails Toy.brainkey 5 (Toy.key0 11) Toy.s0)) /\
    EC_POINT_mul Toy.libc_pub_fails (group (Toy.key0 11)) priv = Some pub /\
    KeyGenerationFailure = KeyGenerationFailure /\
    ((fst (EC_KEY_set_private_key Toy.libc_pub_fails (Toy.key0 11) priv) <> 1 /\
      mkEC_KEY 11 (Some 2) None
      = snd (EC_KEY_set_private_key Toy.libc_pub_fails (Toy.key0 11) priv)) \/
     (exists eckey1,
        EC_KEY_set_private_key Toy.libc_pub_fails (Toy.key0 11) priv = (1, eckey1) /\
        fst (EC_KEY_set_public_key Toy.libc_pub_fails eckey1 pub) <> 1 /\
        mkEC_KEY 11 (Some 2) None
        = snd (EC_KEY_set_public_key Toy.libc_pub_fails eckey1 pub))).
Proof.
  apply (failed_generate_key_object Toy.libc_pub_fails Toy.brainkey 5
           (Toy.key0 11) (mkEC_KEY 11 (Some 2) None) Toy.s0
           (snd (EC_KEY_generate_key Toy.libc_pub_fails Toy.brainkey 5 (Toy.key0 11) Toy.s0))
           KeyGenerationFailure).
  - vm_compute. discriminate.
  - vm_compute. reflexivity.
Defined.

(** C8.  With a brainkey shorter than 16 bytes the generator is the one
    call of libcrypto's own generator: it returns what that call returns
    and leaves the key object as that call leaves it; the counter is not
    advanced and no derivation is called. *)
Theorem short_brainkey_delegates {EC_GROUP EC_POINT : Type}
  (L : libcrypto EC_GROUP EC_POINT) (bk : list byte) (fuel : nat)
  (eckey : EC_KEY EC_GROUP EC_POINT) (s : state) :
  size bk < 16 ->
  EC_KEY_generate_key L bk fuel eckey s =
  (Ok (fst (lib_EC_KEY_generate_key L eckey)),
   snd (lib_EC_KEY_generate_key L eckey),
   mkState (salt_cnt s) (Ev_lib_EC_KEY_generate_key :: calls s)).
Proof.
  intros Hbk. unfold EC_KEY_generate_key.
  destruct (Z.ltb_spec (size bk) 16); [|lia].
  destruct (lib_EC_KEY_generate_key L eckey). reflexivity.
Qed.

Lemma short_brainkey_delegates_witness :
  EC_KEY_generate_key Toy.libc Toy.short_brainkey 5 (Toy.key0 11) Toy.s0 =
  (Ok (fst (lib_EC_KEY_generate_key Toy.libc (Toy.key0 11))),
   snd (lib_EC_KEY_generate_key Toy.libc (Toy.key0 11)),
   mkState (salt_cnt Toy.s0) (Ev_lib_EC_KEY_generate_key :: calls Toy.s0)).
Proof.
  apply (short_brainkey_delegates Toy.libc Toy.short_brainkey 5 (Toy.key0 11) Toy.s0).
  vm_compute. reflexivity.
Defined.

(** * Further properties *)

(** ** The salt of a block *)

(** X1.  The formatted salt has between 27 and 31 bytes and holds no NUL: the
    128-byte [saltbuf] never truncates it, and [strlen] measures all of
    it. *)
Theorem salt_fits_saltbuf (bk : list byte) (c : uint) :
  27 <= size (saltbuf bk c) <= 31 /\
  no_NUL (saltbuf bk c) /\
  c_str (saltbuf bk c) = saltbuf bk c /\
  saltbuf bk c = c_str (salt bk) ++ salt_infix ++ fmt_08x c.
Proof.
  assert (Hfmt : saltbuf bk c = c_str (salt bk) ++ salt_infix ++ fmt_08x c).
  { unfold saltbuf, snprintf. change (c_str init_salt) with init_salt.
    change (dot ++ init_salt ++ dot ++ fmt_08x c) with (salt_infix ++ fmt_08x c).
    apply firstn_all2. rewrite !length_app, fmt_08x_length.
    pose proof (c_str_length (salt bk)). pose proof (salt_length_le bk).
    change (length salt_infix) with 19%nat. lia. }
  assert (Hnn : no_NUL (saltbuf bk c)).
  { rewrite Hfmt. apply no_NUL_app; [apply c_str_no_NUL|].
    apply no_NUL_app; [|apply fmt_08x_no_NUL]. unfold no_NUL. repeat constructor. }
  split; [|split; [exact Hnn|split; [apply c_str_fixpoint; exact Hnn|exact Hfmt]]].
  rewrite Hfmt. unfold size. rewrite !length_app, fmt_08x_length.
  pose proof (c_str_length (salt bk)). pose proof (salt_length_le bk).
  change (length salt_infix) with 19%nat. lia.
Qed.

Lemma hex_digit_inj (a b : Z) :
  0 <= a < 16 -> 0 <= b < 16 -> hex_digit a = hex_digit b -> a = b.
Proof.
  intros Ha Hb H.
  assert (Hv : forall d, 0 <= d < 16 ->
    byte.unsigned (hex_digit d) = if d <? 10 then 48 + d else 87 + d).
  { intros d Hd.
    assert (Hc : d = 0 \/ d = 1 \/ d = 2 \/ d = 3 \/ d = 4 \/ d = 5 \/ d = 6 \/ d = 7 \/
                 d = 8 \/ d = 9 \/ d = 10 \/ d = 11 \/ d = 12 \/ d = 13 \/ d = 14 \/ d = 15)
      by lia.
    repeat (destruct Hc as [-> | Hc]; [reflexivity|]). subst d. reflexivity. }
  apply (f_equal byte.unsigned) in H. rewrite (Hv a Ha), (Hv b Hb) in H.
  destruct (Z.ltb_spec a 10), (Z.ltb_spec b 10); lia.
Qed.

(** The eight hexadecimal digits tell the counter. *)
Lemma fmt_08x_inj (c1 c2 : uint) : fmt_08x c1 = fmt_08x c2 -> c1 = c2.
Proof.
  intros H. apply word.unsigned_inj.
  pose proof (word.unsigned_range c1) as R1. pose proof (word.unsigned_range c2) as R2.
  set (v1 := word.unsigned c1) in *. set (v2 := word.unsigned c2) in *.
  change (2 ^ 32) with 4294967296 in R1, R2.
  unfold fmt_08x in H. cbn [map] in H. fold v1 v2 in H.
  injection H as H7 H6 H5 H4 H3 H2 H1 H0.
  apply hex_digit_inj in H0, H1, H2, H3, H4, H5, H6, H7;
    try (apply Z.mod_pos_bound; lia).
  change (16 ^ 0) with 1 in *. change (16 ^ 1) with 16 in *.
  change (16 ^ 2) with 256 in *. change (16 ^ 3) with 4096 in *.
  change (16 ^ 4) with 65536 in *. change (16 ^ 5) with 1048576 in *.
  change (16 ^ 6) with 16777216 in *. change (16 ^ 7) with 268435456 in *.
  Z.to_euclidean_division_equations. lia.
Qed.

(** The salts of the counter values [c + i] and [c + j] differ. *)
Lemma saltbuf_distinct (bk : list byte) (c : uint) (i j : Z) :
  0 <= i < j -> j < 2 ^ 32 ->
  c_str (saltbuf bk (word.add c (word.of_Z i)))
  <> c_str (saltbuf bk (word.add c (word.of_Z j))).
Proof.
  intros Hi Hj H. rewrite !saltbuf_block_salt in H. unfold block_salt in H.
  apply app_inv_head in H. apply app_inv_head in H. apply fmt_08x_inj in H.
  apply (f_equal word.unsigned) in H.
  rewrite !word.unsigned_add, !word.unsigned_of_Z in H. unfold word.wrap in H.
  pose proof (word.unsigned_range c) as Rc.
  rewrite (Z.mod_small i), (Z.mod_small j) in H by lia.
  change (2 ^ 32) with 4294967296 in *.
  Z.to_euclidean_division_equations. lia.
Qed.

Section SaltsOfAFill.

Context {EC_GROUP EC_POINT : Type}.
Variable L : libcrypto EC_GROUP EC_POINT.
Variable bk : list byte.

#[local] Abbreviation salt_in_saltbuf := (fun c : uint => c_str (saltbuf bk c)).

Lemma call_salts_in (n : nat) : forall c x,
  In x (map call_salt (keystream_calls bk salt_in_saltbuf c n)) ->
  exists i, 0 <= i < Z.of_nat n /\ x = c_str (saltbuf bk (word.add c (word.of_Z i))).
Proof.
  induction n as [|n IH]; intros c x Hin; [destruct Hin|].
  cbn [keystream_calls] in Hin. rewrite map_app in Hin. apply in_app_or in Hin.
  destruct Hin as [Hin | [<- | []]].
  - apply IH in Hin as (i & Hi & ->). exists (i + 1). split; [lia|].
    rewrite uint_incr_add. reflexivity.
  - exists 0. split; [lia|]. rewrite uint_add_0. reflexivity.
Qed.

Lemma call_salts_NoDup (n : nat) : forall c,
  Z.of_nat n <= 2 ^ 32 ->
  NoDup (map call_salt (keystream_calls bk salt_in_saltbuf c n)).
Proof.
  induction n as [|n IH]; intros c Hn; [constructor|].
  cbn [keystream_calls]. rewrite map_app. apply NoDup_app.
  - apply IH. lia.
  - repeat constructor. intros [].
  - intros x Hin [<- | []]. apply call_salts_in in Hin as (i & Hi & E).
    rewrite uint_incr_add in E. rewrite <- (uint_add_0 c) in E at 1.
    apply (saltbuf_distinct bk c 0 (i + 1)) in E; [exact E|lia|lia].
Qed.

(** The calls of the loop of the fill: one derivation for each block of
    the bytes still to write, as far as the loop gets. *)
Lemma fill_loop_calls (fuel : nat) : forall buflen have buf s o s',
  have <= buflen ->
  bk_RAND_bytes_loop L bk fuel buflen have buf s = (o, s') ->
  exists m : nat,
    Z.of_nat m <= blocks_for (buflen - have) /\
    calls s' = keystream_calls bk salt_in_saltbuf (salt_cnt s) m ++ calls s.
Proof.
  assert (Hnone : forall x, 0 <= x -> 0 <= blocks_for x).
  { intros x Hx. unfold blocks_for. Z.to_euclidean_division_equations. lia. }
  induction fuel as [|fuel IH]; intros buflen have buf s o s' Hle H; simpl in H;
    destruct (Z.ltb_spec have buflen) as [Hlt|Hge];
    try (injection H as _ <-; exists 0%nat; split; [apply Hnone; lia|reflexivity]).
  unfold bind at 1, post_incr_salt_cnt in H.
  unfold bind at 1, call_PBKDF2, bind at 1, log in H. cbn [salt_cnt calls] in H.
  destruct (PKCS5_PBKDF2_HMAC L (pass bk) (c_str (saltbuf bk (salt_cnt s))) 10000
              EVP_sha256 32) as [out|].
  - unfold ret in H.
    apply IH in H as (m & Hm & Hcalls); [|destruct (buflen - have >? 32) eqn:E; lia].
    cbn [salt_cnt calls] in Hcalls. exists (S m). split.
    + revert Hm. unfold blocks_for. destruct (Z.gtb_spec (buflen - have) 32);
        intros Hm; Z.to_euclidean_division_equations; lia.
    + rewrite Hcalls. cbn [keystream_calls]. rewrite <- app_assoc. reflexivity.
  - injection H as _ <-. exists 1%nat. split.
    + unfold blocks_for. Z.to_euclidean_division_equations. lia.
    + reflexivity.
Qed.

End SaltsOfAFill.

(** X2.  A fill derives no two of its blocks with the same salt.  The salt
    left in [saltbuf] differs for the counter values [c + i] and [c + j],
    [0 <= i < j < 2^32]; and the calls that [bk_RAND_bytes] adds, however
    it ends, are the derivations of at most [ceil(len/32)] blocks, with
    the salts of [saltbuf] for the successive counter values, which are
    pairwise different when the blocks are at most [2^32]. *)
Theorem block_salts_distinct {EC_GROUP EC_POINT : Type} (L : libcrypto EC_GROUP EC_POINT)
  (bk : list byte) (len : Z) (s s' : state) (o : outcome (Z * list byte)) :
  0 <= len -> blocks_for len <= 2 ^ 32 ->
  bk_RAND_bytes L bk len s = (o, s') ->
  (forall c i j, 0 <= i < j -> j < 2 ^ 32 ->
     c_str (saltbuf bk (word.add c (word.of_Z i)))
     <> c_str (saltbuf bk (word.add c (word.of_Z j)))) /\
  exists m : nat,
    (size bk < 16 -> m = 0%nat) /\
    Z.of_nat m <= blocks_for len /\
    calls s' =
      keystream_calls bk (fun c => c_str (saltbuf bk c)) (salt_cnt s) m ++ calls s /\
    NoDup (map call_salt
             (keystream_calls bk (fun c => c_str (saltbuf bk c)) (salt_cnt s) m)).
Proof.
  intros Hpos Hlen Hrun. split; [intros c i j; apply saltbuf_distinct|].
  unfold bk_RAND_bytes in Hrun.
  destruct (Z.ltb_spec (size bk) 16) as [Hshort|Hbk].
  { injection Hrun as _ <-. exists 0%nat. repeat split; try constructor.
    unfold blocks_for. Z.to_euclidean_division_equations. lia. }
  destruct (Z.ltb_spec len 0); [lia|].
  unfold bind in Hrun.
  destruct (bk_RAND_bytes_loop L bk (Z.to_nat len) len 0 (repeat NUL (Z.to_nat len)) s)
    as [o1 s1] eqn:Eloop.
  apply fill_loop_calls in Eloop as (m & Hm & Hcalls); [|lia].
  rewrite Z.sub_0_r in Hm.
  assert (Hs : s' = s1) by (destruct o1; injection Hrun as _ <-; reflexivity).
  subst s'. exists m. split; [lia|]. split; [exact Hm|]. split; [exact Hcalls|].
  apply call_salts_NoDup. lia.
Qed.

Lemma block_salts_distinct_witness :
  (forall c i j, 0 <= i < j -> j < 2 ^ 32 ->
     c_str (saltbuf Toy.brainkey (word.add c (word.of_Z i)))
     <> c_str (saltbuf Toy.brainkey (word.add c (word.of_Z j)))) /\
  exists m : nat,
    (size Toy.brainkey < 16 -> m = 0%nat) /\
    Z.of_nat m <= blocks_for 70 /\
    calls (snd (bk_RAND_bytes Toy.libc Toy.brainkey 70 Toy.s0)) =
      keystream_calls Toy.brainkey (fun c => c_str (saltbuf Toy.brainkey c))
        (salt_cnt Toy.s0) m ++ calls Toy.s0 /\
    NoDup (map call_salt
             (keystream_calls Toy.brainkey (fun c => c_str (saltbuf Toy.brainkey c))
                (salt_cnt Toy.s0) m)).
Proof.
  apply (block_salts_distinct Toy.libc Toy.brainkey 70 Toy.s0
           (snd (bk_RAND_bytes Toy.libc Toy.brainkey 70 Toy.s0))
           (fst (bk_RAND_bytes Toy.libc Toy.brainkey 70 Toy.s0))).
  - lia.
  - vm_compute. discriminate.
  - destruct (bk_RAND_bytes Toy.libc Toy.brainkey 70 Toy.s0). reflexivity.
Defined.

(** ** Fills one after the other *)

Section FillsCompose.

Context {EC_GROUP EC_POINT : Type}.
Variable L : libcrypto EC_GROUP EC_POINT.
Variable bk : list byte.

#[local] Abbreviation kstream' := (keystream L bk (block_salt bk)).
#[local] Abbreviation kcalls' := (keystream_calls bk (block_salt bk)).

Lemma uint_add_add (c : uint) (n m : nat) :
  word.add (word.add c (word.of_Z (Z.of_nat n))) (word.of_Z (Z.of_nat m))
  = word.add c (word.of_Z (Z.of_nat (n + m))).
Proof.
  revert c. induction n as [|n IH]; intros c.
  - change (Z.of_nat 0) with 0. rewrite uint_add_0. reflexivity.
  - rewrite <- uint_add_succ, IH. rewrite uint_add_succ. reflexivity.
Qed.

(** [n + m] blocks are [n] blocks, then [m] blocks from the counter value
    reached. *)
Lemma keystream_app (n m : nat) : forall c,
  kstream' c (n + m) =
  match kstream' c n, kstream' (word.add c (word.of_Z (Z.of_nat n))) m with
  | Some a, Some b => Some (a ++ b)
  | _, _ => None
  end.
Proof.
  induction n as [|n IH]; intros c.
  - change (Z.of_nat 0) with 0. rewrite uint_add_0. simpl.
    destruct (kstream' c m); reflexivity.
  - cbn [Nat.add keystream]. rewrite IH, uint_add_succ.
    destruct (block L bk (block_salt bk) c) as [b|]; [|reflexivity].
    destruct (kstream' (uint_incr c) n) as [a|]; [|reflexivity].
    destruct (kstream' (word.add c (word.of_Z (Z.of_nat (S n)))) m) as [b'|];
      [|reflexivity].
    rewrite app_assoc. reflexivity.
Qed.

Lemma keystream_calls_app (n m : nat) : forall c,
  kcalls' c (n + m) = kcalls' (word.add c (word.of_Z (Z.of_nat n))) m ++ kcalls' c n.
Proof.
  induction n as [|n IH]; intros c.
  - change (Z.of_nat 0) with 0. rewrite uint_add_0. simpl. rewrite app_nil_r. reflexivity.
  - cbn [Nat.add keystream_calls]. rewrite IH, uint_add_succ, app_assoc. reflexivity.
Qed.

End FillsCompose.

(** X3.  A fill of a whole number of blocks followed by a second fill leaves
    the bytes, the counter and the derivation calls of one fill of the two
    lengths together. *)
Theorem fills_compose {EC_GROUP EC_POINT : Type} (L : libcrypto EC_GROUP EC_POINT)
  (bk : list byte) (len1 len2 : Z) (s s1 s2 : state) (rc1 rc2 : Z) (buf1 buf2 : list byte) :
  libcrypto_laws L ->
  1 <= len1 -> 1 <= len2 -> len1 mod 32 = 0 ->
  bk_RAND_bytes L bk len1 s = (Ok (rc1, buf1), s1) ->
  bk_RAND_bytes L bk len2 s1 = (Ok (rc2, buf2), s2) ->
  bk_RAND_bytes L bk (len1 + len2) s = (Ok (len1 + len2, buf1 ++ buf2), s2).
Proof.
  intros L_ok H1 H2 Hmod E1 E2.
  assert (Hbk : 16 <= size bk).
  { destruct (Z_lt_le_dec (size bk) 16) as [Hs|]; [|assumption].
    unfold bk_RAND_bytes in E1. destruct (Z.ltb_spec (size bk) 16); [discriminate|lia]. }
  apply (fill_spec_for L bk (block_salt bk) len1 s L_ok Hbk H1 (fun _ => eq_refl)) in E1
    as (ks1 & Hks1 & Hsz1 & -> & -> & Hc1 & Hl1).
  apply (fill_spec_for L bk (block_salt bk) len2 s1 L_ok Hbk H2 (fun _ => eq_refl)) in E2
    as (ks2 & Hks2 & Hsz2 & -> & -> & Hc2 & Hl2).
  pose proof (blocks_for_le len1 ltac:(lia)) as Hb1.
  pose proof (blocks_for_le len2 ltac:(lia)) as Hb2.
  assert (Hn1 : 32 * blocks_for len1 = len1)
    by (unfold blocks_for; Z.to_euclidean_division_equations; lia).
  assert (Hn : blocks_for (len1 + len2) = blocks_for len1 + blocks_for len2)
    by (unfold blocks_for in *; Z.to_euclidean_division_equations; lia).
  assert (Hnat : Z.to_nat (blocks_for (len1 + len2))
                 = (Z.to_nat (blocks_for len1) + Z.to_nat (blocks_for len2))%nat) by lia.
  rewrite Hc1 in Hks2, Hl2, Hc2.
  rewrite <- (Z2Nat.id (blocks_for len1)) in Hks2, Hl2, Hc2 by lia.
  rewrite (fill_run L bk L_ok (len1 + len2) s (ks1 ++ ks2)); try lia.
  - f_equal.
    + f_equal. f_equal. unfold size in Hsz1.
      replace (Z.to_nat (len1 + len2)) with (length ks1 + Z.to_nat len2)%nat by lia.
      rewrite firstn_app_2. rewrite (firstn_all2 ks1) by lia. reflexivity.
    + destruct s2 as [c2 l2]. cbn [salt_cnt calls] in Hc2, Hl2. subst c2 l2. f_equal.
      * rewrite <- (Z2Nat.id (blocks_for len2)) by lia.
        rewrite uint_add_add, Hn. f_equal. f_equal. lia.
      * rewrite Hnat, keystream_calls_app, Hl1, app_assoc. reflexivity.
  - rewrite Hnat, keystream_app, Hks1, Hks2. reflexivity.
Qed.

Lemma fills_compose_witness :
  bk_RAND_bytes Toy.libc Toy.brainkey (64 + 6) Toy.s0 =
  (Ok (64 + 6,
       (repeat (byte.of_Z 226) 32 ++ repeat (byte.of_Z 227) 32) ++ repeat (byte.of_Z 228) 6),
   snd (bk_RAND_bytes Toy.libc Toy.brainkey 6
          (snd (bk_RAND_bytes Toy.libc Toy.brainkey 64 Toy.s0)))).
Proof.
  apply (fills_compose Toy.libc Toy.brainkey 64 6 Toy.s0
           (snd (bk_RAND_bytes Toy.libc Toy.brainkey 64 Toy.s0)) _ 64 6).
  - apply toy_laws.
  - lia.
  - lia.
  - reflexivity.
  - vm_compute. reflexivity.
  - vm_compute. reflexivity.
Defined.

(** X4.  A shorter fill from the same state leaves a prefix of what a longer
    fill leaves. *)
Theorem fill_prefix {EC_GROUP EC_POINT : Type} (L : libcrypto EC_GROUP EC_POINT)
  (bk : list byte) (len len' : Z) (s s1 s2 : state) (rc rc' : Z) (buf buf' : list byte) :
  libcrypto_laws L ->
  1 <= len <= len' ->
  bk_RAND_bytes L bk len s = (Ok (rc, buf), s1) ->
  bk_RAND_bytes L bk len' s = (Ok (rc', buf'), s2) ->
  buf = firstn (Z.to_nat len) buf'.
Proof.
  intros L_ok Hlen E1 E2.
  assert (Hbk : 16 <= size bk).
  { destruct (Z_lt_le_dec (size bk) 16) as [Hs|]; [|assumption].
    unfold bk_RAND_bytes in E1. destruct (Z.ltb_spec (size bk) 16); [discriminate|lia]. }
  apply (fill_spec_for L bk (block_salt bk) len s L_ok Hbk ltac:(lia) (fun _ => eq_refl))
    in E1 as (ks & Hks & Hsz & _ & -> & _).
  apply (fill_spec_for L bk (block_salt bk) len' s L_ok Hbk ltac:(lia) (fun _ => eq_refl))
    in E2 as (ks' & Hks' & Hsz' & _ & -> & _).
  pose proof (blocks_for_le len ltac:(lia)) as Hb.
  pose proof (blocks_for_le len' ltac:(lia)) as Hb'.
  assert (Hle : blocks_for len <= blocks_for len')
    by (unfold blocks_for; Z.to_euclidean_division_equations; lia).
  assert (Hcover : len <= 32 * blocks_for len)
    by (unfold blocks_for; Z.to_euclidean_division_equations; lia).
  replace (Z.to_nat (blocks_for len'))
    with (Z.to_nat (blocks_for len) + (Z.to_nat (blocks_for len') - Z.to_nat (blocks_for len)))%nat
    in Hks' by lia.
  rewrite keystream_app, Hks in Hks'.
  destruct (keystream L bk (block_salt bk) _ _) as [rest|] in Hks'; [|discriminate].
  injection Hks' as <-. unfold size in Hsz.
  rewrite firstn_firstn. replace (Nat.min (Z.to_nat len) (Z.to_nat len')) with (Z.to_nat len) by lia.
  rewrite firstn_app. replace (Z.to_nat len - length ks)%nat with 0%nat by lia.
  rewrite firstn_O, app_nil_r. reflexivity.
Qed.

Lemma fill_prefix_witness :
  repeat (byte.of_Z 226) 6 = firstn (Z.to_nat 6) (repeat (byte.of_Z 226) 32 ++ repeat (byte.of_Z 227) 8).
Proof.
  apply (fill_prefix Toy.libc Toy.brainkey 6 40 Toy.s0
           (snd (bk_RAND_bytes Toy.libc Toy.brainkey 6 Toy.s0))
           (snd (bk_RAND_bytes Toy.libc Toy.brainkey 40 Toy.s0)) 6 40).
  - apply toy_laws.
  - lia.
  - vm_compute. reflexivity.
  - vm_compute. reflexivity.
Defined.

(** ** More on the fixed-length sampler *)

Lemma buf_update_inv (buf buf' : list byte) (i : Z) (f : Z -> Z) (s s' : state) :
  buf_update buf i f s = (Ok buf', s') ->
  0 <= i < size buf /\ buf' = buf_set buf i (byte.of_Z (f (byte_at buf i))) /\ s' = s.
Proof.
  unfold buf_update, buf_get, byte_at, size.
  destruct (Z.ltb_spec i 0); [discriminate|].
  destruct (nth_error buf (Z.to_nat i)) as [b|] eqn:E; [|discriminate].
  intros Hrun. injection Hrun as <- <-.
  assert (Hlt : (Z.to_nat i < length buf)%nat) by (apply nth_error_Some; congruence).
  rewrite (nth_error_nth _ _ _ E). repeat split; lia.
Qed.

Lemma fill_needs_brainkey {EC_GROUP EC_POINT : Type} (L : libcrypto EC_GROUP EC_POINT)
  (bk : list byte) (len : Z) (s s' : state) (r : Z * list byte) :
  bk_RAND_bytes L bk len s = (Ok r, s') -> 16 <= size bk.
Proof.
  unfold bk_RAND_bytes. destruct (Z.ltb_spec (size bk) 16); [discriminate|lia].
Qed.

(** X5.  A returned value has cost the derivations of the blocks that cover
    [ceil(bits/8)] bytes, and nothing else: the counter has advanced by
    their number, and the calls made are these derivations, in order. *)
Theorem bk_bnrand_advances {EC_GROUP EC_POINT : Type} (L : libcrypto EC_GROUP EC_POINT)
  (bk : list byte) (bits top bottom : Z) (s s' : state) (v : Z) :
  libcrypto_laws L ->
  1 <= bits ->
  bk_bnrand L bk bits top bottom s = (Ok v, s') ->
  let blocks := blocks_for ((bits + 7) / 8) in
  1 <= blocks /\
  salt_cnt s' = word.add (salt_cnt s) (word.of_Z blocks) /\
  calls s' = keystream_calls bk (block_salt bk) (salt_cnt s) (Z.to_nat blocks) ++ calls s.
Proof.
  intros L_ok Hbits Hrun blocks.
  assert (Hrej : ~ (bits = 1 /\ 0 < top)).
  { intros Hc. rewrite bk_bnrand_rejects in Hrun by lia. discriminate. }
  destruct (shape_arith bits top Hbits Hrej) as (_ & _ & Hbytes & _).
  destruct (bk_bnrand_cases L bk L_ok bits top bottom s Hbits Hrej)
    as [(why & s1 & E & _) | (buf0 & buf & s1 & _ & Efill & _ & E & _)];
    rewrite E in Hrun; [discriminate|]. injection Hrun as _ <-.
  pose proof (fill_needs_brainkey L bk _ _ _ _ Efill) as Hbk.
  apply (fill_spec_for L bk (block_salt bk) _ s L_ok Hbk Hbytes (fun _ => eq_refl)) in Efill
    as (ks & _ & _ & _ & _ & Hc & Hl).
  split; [|split; assumption].
  unfold blocks, blocks_for. Z.to_euclidean_division_equations. lia.
Qed.

Lemma bk_bnrand_advances_witness :
  1 <= blocks_for ((521 + 7) / 8) /\
  salt_cnt (snd (bk_bnrand Toy.libc Toy.brainkey 521 BN_RAND_TOP_TWO 0 Toy.s0))
  = word.add (salt_cnt Toy.s0) (word.of_Z (blocks_for ((521 + 7) / 8))) /\
  calls (snd (bk_bnrand Toy.libc Toy.brainkey 521 BN_RAND_TOP_TWO 0 Toy.s0))
  = keystream_calls Toy.brainkey (block_salt Toy.brainkey) (salt_cnt Toy.s0)
      (Z.to_nat (blocks_for ((521 + 7) / 8))) ++ calls Toy.s0.
Proof.
  apply (bk_bnrand_advances Toy.libc Toy.brainkey 521 BN_RAND_TOP_TWO 0 Toy.s0 _
           match fst (bk_bnrand Toy.libc Toy.brainkey 521 BN_RAND_TOP_TWO 0 Toy.s0) with
           | Ok v => v
           | _ => 0
           end).
  - apply toy_laws.
  - lia.
  - vm_compute. reflexivity.
Defined.

Section SamplerInversion.

Context {EC_GROUP EC_POINT : Type}.
Variable L : libcrypto EC_GROUP EC_POINT.
Variable bk : list byte.
Hypothesis L_ok : libcrypto_laws L.

(** A returned value is the value of the shaped keystream bytes. *)
Lemma bk_bnrand_ok_inv (bits top bottom : Z) (s s' : state) (v : Z) :
  1 <= bits ->
  bk_bnrand L bk bits top bottom s = (Ok v, s') ->
  let bytes := (bits + 7) / 8 in
  let bit := (bits - 1) mod 8 in
  exists ks buf',
    keystream L bk (block_salt bk) (salt_cnt s) (Z.to_nat (blocks_for bytes)) = Some ks /\
    size (firstn (Z.to_nat bytes) ks) = bytes /\
    shape_buf bytes bit (Z.shiftl 255 (bit + 1)) top bottom (firstn (Z.to_nat bytes) ks) s'
    = (Ok buf', s') /\
    size buf' = bytes /\
    v = BN_bin2bn buf'.
Proof.
  intros Hbits Hrun bytes bit.
  assert (Hrej : ~ (bits = 1 /\ 0 < top)).
  { intros Hc. rewrite bk_bnrand_rejects in Hrun by lia. discriminate. }
  destruct (shape_arith bits top Hbits Hrej) as (_ & _ & Hbytes & _).
  rewrite bk_bnrand_unfold in Hrun by assumption. fold bytes bit in Hrun, Hbytes.
  cbv zeta in Hrun.
  destruct (negb (new_nothrow_ok L bytes)); [discriminate|].
  apply bind_inv_ok in Hrun as ([b buf] & s1 & Efill & Hrun).
  pose proof (fill_needs_brainkey L bk _ _ _ _ Efill) as Hbk.
  apply (fill_spec_for L bk (block_salt bk) _ s L_ok Hbk Hbytes (fun _ => eq_refl)) in Efill
    as (ks & Hks & Hsz & -> & -> & _).
  destruct (bytes <=? 0); [discriminate|].
  apply bind_inv_ok in Hrun as (buf' & s2 & Eshape & Hrun).
  destruct (negb (BN_bin2bn_ok L buf')); [discriminate|].
  injection Hrun as <- <-.
  assert (Hsz0 : size (firstn (Z.to_nat bytes) ks) = bytes).
  { unfold size in *. rewrite length_firstn.
    unfold blocks_for in Hsz. Z.to_euclidean_division_equations. lia. }
  destruct (shape_buf_run bits top bottom _ s1 Hbits Hrej Hsz0) as (buf'' & E & Hsz' & _).
  fold bytes bit in E, Hsz'. rewrite E in Eshape. injection Eshape as <- <-.
  exists ks, buf''. repeat split; assumption.
Qed.

End SamplerInversion.

(** X6.  With no shaping asked for, the sampled integer is the big-endian value
    of the first [ceil(bits/8)] keystream bytes, reduced modulo [2^bits]. *)
Theorem unshaped_draw_value {EC_GROUP EC_POINT : Type} (L : libcrypto EC_GROUP EC_POINT)
  (bk : list byte) (bits : Z) (s s' : state) (v : Z) :
  libcrypto_laws L ->
  1 <= bits ->
  bk_bnrand L bk bits bk_BN_RAND_TOP_ANY bk_BN_RAND_BOTTOM_ANY s = (Ok v, s') ->
  let bytes := (bits + 7) / 8 in
  exists ks,
    keystream L bk (block_salt bk) (salt_cnt s) (Z.to_nat (blocks_for bytes)) = Some ks /\
    v = BN_bin2bn (firstn (Z.to_nat bytes) ks) mod 2 ^ bits.
Proof.
  intros L_ok Hbits Hrun bytes.
  destruct (bk_bnrand_ok_inv L bk L_ok bits _ _ s s' v Hbits Hrun)
    as (ks & buf' & Hks & Hsz & Eshape & Hsz' & ->).
  fold bytes in Hks, Hsz, Eshape, Hsz'.
  exists ks. split; [exact Hks|].
  set (buf := firstn (Z.to_nat bytes) ks) in *.
  assert (Hrej : ~ (bits = 1 /\ 0 < bk_BN_RAND_TOP_ANY)) by (unfold bk_BN_RAND_TOP_ANY; lia).
  destruct (shape_arith bits _ Hbits Hrej) as (_ & _ & Hbytes & Hbit & Hsplit & _).
  fold bytes in Hbytes, Hsplit. set (bit := (bits - 1) mod 8) in *.
  unfold shape_buf in Eshape.
  change (bk_BN_RAND_TOP_ANY >=? 0) with false in Eshape.
  change (negb (bk_BN_RAND_BOTTOM_ANY =? 0)) with false in Eshape. cbv iota in Eshape.
  erewrite bind_ok in Eshape by reflexivity.
  erewrite bind_ok in Eshape by (apply buf_update_run; lia).
  injection Eshape as <-.
  pose proof (BN_bin2bn_range buf) as Hr. rewrite Hsz in Hr.
  apply Z.bits_inj'. intros i Hi.
  rewrite Z.testbit_mod_pow2 by lia.
  destruct (Z_lt_le_dec i (8 * bytes)) as [Hlo|Hhi].
  - rewrite !BN_bin2bn_testbit by (rewrite ?buf_set_size; lia).
    rewrite buf_set_size, Hsz by lia.
    rewrite testbit_byte_at_update by (Z.to_euclidean_division_equations; lia).
    destruct (Z.eqb_spec (bytes - 1 - i / 8) 0) as [E0|N0].
    + rewrite E0, testbit_mask by (Z.to_euclidean_division_equations; lia).
      destruct (Z.ltb_spec (i mod 8) 8), (Z.leb_spec (i mod 8) bit),
        (Z.leb_spec (bit + 9) (i mod 8)), (Z.ltb_spec i bits);
        simpl; rewrite ?andb_true_r, ?andb_false_r; try reflexivity;
        exfalso; Z.to_euclidean_division_equations; lia.
    + destruct (Z.ltb_spec i bits); [reflexivity|].
      exfalso. Z.to_euclidean_division_equations. lia.
  - pose proof (BN_bin2bn_range (buf_set buf 0
      (byte.of_Z (Z.land (byte_at buf 0) (Z.lnot (Z.shiftl 255 (bit + 1))))))) as Hr'.
    rewrite buf_set_size, Hsz in Hr' by lia.
    rewrite (testbit_high_false _ (8 * bytes) ltac:(lia) Hr' i Hhi).
    destruct (Z.ltb_spec i bits); [lia|reflexivity].
Qed.

Lemma unshaped_draw_value_witness :
  exists ks,
    keystream Toy.libc Toy.brainkey (block_salt Toy.brainkey) (salt_cnt Toy.s0)
      (Z.to_nat (blocks_for ((12 + 7) / 8))) = Some ks /\
    738 = BN_bin2bn (firstn (Z.to_nat ((12 + 7) / 8)) ks) mod 2 ^ 12.
Proof.
  apply (unshaped_draw_value Toy.libc Toy.brainkey 12 Toy.s0
           (snd (bk_bnrand Toy.libc Toy.brainkey 12 bk_BN_RAND_TOP_ANY
                   bk_BN_RAND_BOTTOM_ANY Toy.s0)) 738).
  - apply toy_laws.
  - lia.
  - vm_compute. reflexivity.
Defined.

(** X7.  When the bottom bit is asked for, the sampled integer is odd. *)
Theorem forced_bottom_bit_odd {EC_GROUP EC_POINT : Type} (L : libcrypto EC_GROUP EC_POINT)
  (bk : list byte) (bits top bottom : Z) (s s' : state) (v : Z) :
  libcrypto_laws L ->
  1 <= bits -> bottom <> 0 ->
  bk_bnrand L bk bits top bottom s = (Ok v, s') ->
  Z.odd v = true.
Proof.
  intros L_ok Hbits Hbottom Hrun.
  destruct (bk_bnrand_ok_inv L bk L_ok bits _ _ s s' v Hbits Hrun)
    as (ks & buf' & _ & Hsz & Eshape & Hsz' & ->).
  set (bytes := (bits + 7) / 8) in *.
  assert (Hbytes : 1 <= bytes) by (unfold bytes; Z.to_euclidean_division_equations; lia).
  unfold shape_buf in Eshape.
  apply bind_inv_ok in Eshape as (buf1 & s1 & _ & Eshape).
  apply bind_inv_ok in Eshape as (buf2 & s2 & _ & Eshape).
  destruct (Z.eqb_spec bottom 0) as [|_]; [contradiction|]. simpl negb in Eshape.
  cbv iota in Eshape. apply buf_update_inv in Eshape as (Hi & -> & _).
  rewrite <- Z.bit0_odd. rewrite BN_bin2bn_testbit by lia. rewrite Hsz'.
  change (0 / 8) with 0. change (0 mod 8) with 0. rewrite Z.sub_0_r.
  rewrite testbit_byte_at_update by lia. rewrite Z.eqb_refl.
  rewrite Z.lor_spec. simpl. apply orb_true_r.
Qed.

Lemma forced_bottom_bit_odd_witness : Z.odd 483 = true.
Proof.
  apply (forced_bottom_bit_odd Toy.libc Toy.brainkey 9 BN_RAND_TOP_TWO BN_RAND_BOTTOM_ODD
           Toy.s0
           (snd (bk_bnrand Toy.libc Toy.brainkey 9 BN_RAND_TOP_TWO BN_RAND_BOTTOM_ODD Toy.s0))
           483).
  - apply toy_laws.
  - lia.
  - discriminate.
  - vm_compute. reflexivity.
Defined.

(** X8.  [bk_bnrand] returns through its rejecting returns exactly for a
    negative [bits], for [bits = 0] with any shaping, and for [bits = 1]
    with two top bits; it has then touched neither the counter nor the
    library. *)
Theorem bk_bnrand_rejection {EC_GROUP EC_POINT : Type} (L : libcrypto EC_GROUP EC_POINT)
  (bk : list byte) (bits top bottom : Z) (s s' : state) :
  libcrypto_laws L ->
  bk_bnrand L bk bits top bottom s = (Return0 InvalidShapeRequest, s') <->
  s' = s /\
  (bits < 0 \/
   (bits = 0 /\ (top <> bk_BN_RAND_TOP_ANY \/ bottom <> bk_BN_RAND_BOTTOM_ANY)) \/
   (bits = 1 /\ 0 < top)).
Proof.
  intros L_ok.
  assert (Hzero : bits = 0 ->
    bk_bnrand L bk bits top bottom s =
    if negb (top =? bk_BN_RAND_TOP_ANY) || negb (bottom =? bk_BN_RAND_BOTTOM_ANY)
    then (Return0 InvalidShapeRequest, s) else (Ok 0, s)).
  { intros ->. unfold bk_bnrand. simpl Z.eqb. cbv iota. destruct (_ || _); reflexivity. }
  split.
  - intros Hrun. destruct (Z.eq_dec bits 0) as [E0|N0].
    + rewrite (Hzero E0) in Hrun.
      destruct (Z.eqb_spec top bk_BN_RAND_TOP_ANY), (Z.eqb_spec bottom bk_BN_RAND_BOTTOM_ANY);
        simpl in Hrun; try discriminate; injection Hrun as <-;
        (split; [reflexivity|right; left; split; [assumption|tauto]]).
    + destruct (Z_lt_le_dec bits 0) as [Hneg|Hpos].
      { rewrite bk_bnrand_rejects in Hrun by lia. injection Hrun as <-. auto. }
      destruct (Z.eq_dec bits 1) as [E1|N1]; [destruct (Z_lt_le_dec 0 top) as [Ht|Ht]|].
      * rewrite bk_bnrand_rejects in Hrun by lia. injection Hrun as <-. auto.
      * destruct (bk_bnrand_cases L bk L_ok bits top bottom s ltac:(lia) ltac:(lia))
          as [(why & s1 & E & Hwhy) | (b0 & b & s1 & _ & _ & _ & E & _)];
          rewrite E in Hrun; [|discriminate].
        injection Hrun as -> _. destruct Hwhy as [Hw|[Hw|Hw]]; discriminate Hw.
      * destruct (bk_bnrand_cases L bk L_ok bits top bottom s ltac:(lia) ltac:(lia))
          as [(why & s1 & E & Hwhy) | (b0 & b & s1 & _ & _ & _ & E & _)];
          rewrite E in Hrun; [|discriminate].
        injection Hrun as -> _. destruct Hwhy as [Hw|[Hw|Hw]]; discriminate Hw.
  - intros [-> [Hneg | [[E0 Hshape] | Hone]]].
    + apply bk_bnrand_rejects. auto.
    + rewrite (Hzero E0).
      destruct (Z.eqb_spec top bk_BN_RAND_TOP_ANY), (Z.eqb_spec bottom bk_BN_RAND_BOTTOM_ANY);
        simpl; try reflexivity. tauto.
    + apply bk_bnrand_rejects. auto.
Qed.

Lemma bk_bnrand_rejection_witness :
  bk_bnrand Toy.libc Toy.brainkey 0 BN_RAND_TOP_ONE 0 Toy.s0
  = (Return0 InvalidShapeRequest, Toy.s0) <->
  Toy.s0 = Toy.s0 /\
  (0 < 0 \/
   (0 = 0 /\ (BN_RAND_TOP_ONE <> bk_BN_RAND_TOP_ANY \/ 0 <> bk_BN_RAND_BOTTOM_ANY)) \/
   (0 = 1 /\ 0 < BN_RAND_TOP_ONE)).
Proof.
  apply (bk_bnrand_rejection Toy.libc Toy.brainkey 0 BN_RAND_TOP_ONE 0 Toy.s0 Toy.s0).
  apply toy_laws.
Defined.

(** X9.  Without a brainkey of 16 bytes the samplers give nothing: a fill
    returns 0, [bk_bnrand] for [bits >= 1] and [bk_bnrand_range] for a
    range of at least two bits return 0, and none of them advances the
    counter or calls the library. *)
Theorem samplers_need_brainkey {EC_GROUP EC_POINT : Type} (L : libcrypto EC_GROUP EC_POINT)
  (bk : list byte) (s : state) :
  size bk < 16 ->
  (forall len, bk_RAND_bytes L bk len s = (Return0 Unsupported, s)) /\
  (forall bits top bottom, 1 <= bits ->
     fails (fst (bk_bnrand L bk bits top bottom s)) /\
     snd (bk_bnrand L bk bits top bottom s) = s) /\
  (forall range, 0 < range -> 2 <= BN_num_bits range ->
     fails (fst (bk_bnrand_range L bk range s)) /\
     snd (bk_bnrand_range L bk range s) = s).
Proof.
  intros Hbk.
  assert (Hfill : forall len, bk_RAND_bytes L bk len s = (Return0 Unsupported, s)).
  { intros len. unfold bk_RAND_bytes. destruct (Z.ltb_spec (size bk) 16); [reflexivity|lia]. }
  assert (Hdraw : forall bits top bottom, 1 <= bits ->
            exists why, bk_bnrand L bk bits top bottom s = (Return0 why, s)).
  { intros bits top bottom Hbits. unfold bk_bnrand.
    destruct (Z.eqb_spec bits 0); [lia|].
    destruct (_ || _); [eexists; reflexivity|]. cbv zeta.
    destruct (negb _); [eexists; reflexivity|].
    eexists. apply bind_return0. apply Hfill. }
  split; [exact Hfill|]. split.
  - intros bits top bottom Hbits. destruct (Hdraw bits top bottom Hbits) as [why E].
    rewrite E. split; [exists why|]; reflexivity.
  - intros range Hpos Hn. rewrite bk_bnrand_range_unfold by assumption.
    destruct (top_zeros range).
    + destruct (Hdraw (BN_num_bits range + 1) bk_BN_RAND_TOP_ANY bk_BN_RAND_BOTTOM_ANY
                  ltac:(lia)) as [why E].
      cbn [range_loop_top_zeros]. rewrite (bind_return0 _ _ _ _ _ E).
      split; [exists why|]; reflexivity.
    + destruct (Hdraw (BN_num_bits range) bk_BN_RAND_TOP_ANY bk_BN_RAND_BOTTOM_ANY
                  ltac:(lia)) as [why E].
      cbn [range_loop_plain]. rewrite (bind_return0 _ _ _ _ _ E).
      split; [exists why|]; reflexivity.
Qed.

Lemma samplers_need_brainkey_witness :
  (forall len, bk_RAND_bytes Toy.libc Toy.short_brainkey len Toy.s0
               = (Return0 Unsupported, Toy.s0)) /\
  (forall bits top bottom, 1 <= bits ->
     fails (fst (bk_bnrand Toy.libc Toy.short_brainkey bits top bottom Toy.s0)) /\
     snd (bk_bnrand Toy.libc Toy.short_brainkey bits top bottom Toy.s0) = Toy.s0) /\
  (forall range, 0 < range -> 2 <= BN_num_bits range ->
     fails (fst (bk_bnrand_range Toy.libc Toy.short_brainkey range Toy.s0)) /\
     snd (bk_bnrand_range Toy.libc Toy.short_brainkey range Toy.s0) = Toy.s0).
Proof.
  apply (samplers_need_brainkey Toy.libc Toy.short_brainkey Toy.s0).
  vm_compute. reflexivity.
Defined.

(** ** The arithmetic of the rejection loops *)

Lemma BN_num_bits_bounds (range : Z) :
  0 < range -> 2 ^ (BN_num_bits range - 1) <= range < 2 ^ BN_num_bits range.
Proof.
  intros Hpos. unfold BN_num_bits. destruct (Z.eqb_spec range 0); [lia|].
  rewrite Z.abs_eq by lia. pose proof (Z.log2_spec range Hpos) as Hs.
  replace (Z.log2 range + 1 - 1) with (Z.log2 range) by lia.
  replace (Z.log2 range + 1) with (Z.succ (Z.log2 range)) by lia. exact Hs.
Qed.

Lemma testbit_true_ge (x k : Z) : 0 <= x -> 0 <= k -> Z.testbit x k = true -> 2 ^ k <= x.
Proof.
  intros Hx Hk Hb. destruct (Z_lt_le_dec x (2 ^ k)) as [Hlt|]; [|assumption].
  rewrite (testbit_high_false x k) in Hb by lia. discriminate.
Qed.

(** The first loop runs exactly for the ranges below five eighths of
    [2^n], [n] being the number of bits of [range]. *)
Lemma top_zeros_five_eighths (range : Z) :
  0 < range -> 2 <= BN_num_bits range ->
  (top_zeros range = true <-> 8 * range < 5 * 2 ^ BN_num_bits range).
Proof.
  intros Hpos Hn. pose proof (BN_num_bits_bounds range Hpos) as Hb.
  unfold top_zeros, BN_is_bit_set. cbv zeta. rewrite Z.abs_eq by lia.
  set (n := BN_num_bits range) in *.
  destruct (Z.eq_dec n 2) as [E2|N2].
  - rewrite E2 in *. change (2 ^ (2 - 1)) with 2 in Hb. change (2 ^ 2) with 4 in *.
    assert (Hc : range = 2 \/ range = 3) by lia.
    destruct Hc as [-> | ->]; simpl; split; intros; try lia; discriminate.
  - assert (Hp : 0 < 2 ^ (n - 3)) by (apply Z.pow_pos_nonneg; lia).
    set (p := 2 ^ (n - 3)) in *.
    assert (E1 : 2 ^ (n - 1) = 4 * p).
    { replace (n - 1) with (2 + (n - 3)) by lia. rewrite Z.pow_add_r by lia. reflexivity. }
    assert (E0 : 2 ^ n = 8 * p).
    { replace n with (3 + (n - 3)) at 1 by lia. rewrite Z.pow_add_r by lia. reflexivity. }
    assert (E2 : 2 ^ (n - 2) = 2 * p).
    { replace (n - 2) with (1 + (n - 3)) by lia. rewrite Z.pow_add_r by lia. reflexivity. }
    rewrite E1, E0 in *.
    destruct (Z.ltb_spec (n - 2) 0); [lia|]. destruct (Z.ltb_spec (n - 3) 0); [lia|].
    remember (range - 4 * p) as r eqn:Er.
    assert (Hr : r = range mod 2 ^ (n - 1)).
    { rewrite E1. apply Z.mod_unique with (q := 1); lia. }
    assert (Hbit : forall i, 0 <= i < n - 1 -> Z.testbit r i = Z.testbit range i).
    { intros i Hi. rewrite Hr. apply Z.mod_pow2_bits_low. lia. }
    rewrite <- (Hbit (n - 2)), <- (Hbit (n - 3)) by lia.
    destruct (Z.testbit r (n - 2)) eqn:B2; cbn [negb andb].
    + pose proof (testbit_true_ge r (n - 2) ltac:(lia) ltac:(lia) B2) as G2.
      split; [discriminate|]. lia.
    + destruct (Z.testbit r (n - 3)) eqn:B3; cbn [negb andb].
      * pose proof (testbit_true_ge r (n - 3) ltac:(lia) ltac:(lia) B3) as G3.
        fold p in G3. split; [discriminate|]. lia.
      * split; [|reflexivity]. intros _.
        assert (r < 2 ^ (n - 3)); [|fold p in H; lia].
        apply below_pow2_of_bits; try lia. intros i Hi.
        destruct (Z.eq_dec i (n - 3)) as [->|]; [exact B3|].
        destruct (Z.eq_dec i (n - 2)) as [->|]; [exact B2|].
        apply (testbit_high_false r (n - 1)); try lia.
Qed.

Lemma reduce_twice_cases (range v : Z) :
  0 < range -> 0 <= v ->
  ((reduce_twice range v <? range) = true <-> v < 3 * range) /\
  (v < 3 * range -> reduce_twice range v = v mod range).
Proof.
  intros Hpos Hv. unfold reduce_twice.
  destruct (Z.ltb_spec v range) as [H1|H1].
  - split; [rewrite Z.ltb_lt; lia|]. intros _. symmetry. apply Z.mod_small. lia.
  - destruct (Z.ltb_spec (v - range) range) as [H2|H2].
    + split; [rewrite Z.ltb_lt; lia|]. intros _.
      apply Z.mod_unique with (q := 1); lia.
    + split; [rewrite Z.ltb_lt; lia|]. intros H3.
      apply Z.mod_unique with (q := 2); lia.
Qed.

(** The draws that leave [r] after the reduction by [range]. *)
Lemma three_preimages (range r v : Z) :
  0 <= r < range -> 0 <= v ->
  (v < 3 * range /\ v mod range = r <-> v = r \/ v = r + range \/ v = r + 2 * range).
Proof.
  intros Hr Hv. split.
  - intros [Hlt Hc].
    pose proof (Z.div_mod v range ltac:(lia)) as Hdm. rewrite Hc in Hdm.
    assert (Hq : 0 <= v / range < 3).
    { split; [apply Z.div_pos; lia|apply Z.div_lt_upper_bound; lia]. }
    assert (Hq' : v / range = 0 \/ v / range = 1 \/ v / range = 2) by lia.
    destruct Hq' as [E | [E | E]]; rewrite E in Hdm; lia.
  - intros Hc. split; [lia|].
    destruct Hc as [-> | [-> | ->]].
    + apply Z.mod_small. lia.
    + symmetry. apply Z.mod_unique with (q := 1); lia.
    + symmetry. apply Z.mod_unique with (q := 2); lia.
Qed.

Section TurnsOfTheLoops.

Context {EC_GROUP EC_POINT : Type}.
Variable L : libcrypto EC_GROUP EC_POINT.
Variable bk : list byte.
Variable range : Z.

(** A turn of the loop that is not the last one allowed, after a draw
    that returns [v]. *)
Lemma loop_turn_of_draw (c : nat) (s s' : state) (v : Z) :
  (top_zeros range = true -> forall a b, BN_sub_ok L a b = true) ->
  draw L bk range s = (Ok v, s') ->
  the_loop L bk range (S (S c)) s =
  if accepted range v then (Ok (candidate range v), s') else the_loop L bk range (S c) s'.
Proof.
  intros Hsub Hdraw.
  assert (Hatt : attempt L bk range s = (Ok (candidate range v), s')).
  { apply attempt_ok. exists v. repeat split; auto; apply Hsub; assumption. }
  rewrite the_loop_turn, Hatt. reflexivity.
Qed.

End TurnsOfTheLoops.

(** X10.  The loop of [bk_bnrand_range] for [range = 100..._2], when the
    subtractions do not fail.  After a draw that returns [v], a turn that
    is not the last one allowed returns [v mod range] if [v < 3 * range],
    and otherwise goes on from the state after the draw with [count] less
    one; so does the call, which enters the loop with [count = 100].
    Every [r] below [range] is returned for exactly the three draws [r],
    [r + range] and [r + 2 * range], which all fit the [n + 1] bits of a
    draw: the loop favours no value.  [3 * range] has exactly [n + 1]
    bits, so that the draws below it are at least three quarters of the
    [2^(n+1)] draws. *)
Theorem top_zeros_loop_unbiased {EC_GROUP EC_POINT : Type} (L : libcrypto EC_GROUP EC_POINT)
  (bk : list byte) (range : Z) (s s' : state) (v : Z) :
  (forall a b, BN_sub_ok L a b = true) ->
  0 < range -> 2 <= BN_num_bits range ->
  negb (BN_is_bit_set range (BN_num_bits range - 2))
    && negb (BN_is_bit_set range (BN_num_bits range - 3)) = true ->
  bk_bnrand L bk (BN_num_bits range + 1) bk_BN_RAND_TOP_ANY bk_BN_RAND_BOTTOM_ANY s
  = (Ok v, s') ->
  (forall c,
     range_loop_top_zeros L bk (S (S c)) range (BN_num_bits range) s =
     if v <? 3 * range then (Ok (v mod range), s')
     else range_loop_top_zeros L bk (S c) range (BN_num_bits range) s') /\
  bk_bnrand_range L bk range s =
    (if v <? 3 * range then (Ok (v mod range), s')
     else range_loop_top_zeros L bk 99 range (BN_num_bits range) s') /\
  (forall r, 0 <= r < range ->
     r + 2 * range < 2 ^ (BN_num_bits range + 1) /\
     (v < 3 * range /\ v mod range = r <->
      v = r \/ v = r + range \/ v = r + 2 * range)) /\
  bit_length_is (3 * range) (BN_num_bits range + 1) /\
  3 * 2 ^ (BN_num_bits range + 1) <= 4 * (3 * range).
Proof.
  intros Hsub Hpos Hn Htz Hdraw.
  change (top_zeros range = true) in Htz.
  assert (Hv : 0 <= v) by (eapply bk_bnrand_nonneg; exact Hdraw).
  pose proof (proj1 (top_zeros_five_eighths range Hpos Hn) Htz) as H58.
  pose proof (BN_num_bits_bounds range Hpos) as Hb.
  destruct (reduce_twice_cases range v Hpos Hv) as [Hacc Hmod].
  assert (Hturn : forall c,
     range_loop_top_zeros L bk (S (S c)) range (BN_num_bits range) s =
     if v <? 3 * range then (Ok (v mod range), s')
     else range_loop_top_zeros L bk (S c) range (BN_num_bits range) s').
  { intros c.
    pose proof (loop_turn_of_draw L bk range c s s' v (fun _ => Hsub)) as Hturn.
    unfold the_loop, draw, draw_bits, accepted, candidate in Hturn.
    rewrite Htz in Hturn. rewrite (Hturn Hdraw).
    destruct (Z.ltb_spec v (3 * range)) as [Hlt|Hge].
    - rewrite (proj2 Hacc Hlt), (Hmod Hlt). reflexivity.
    - assert (E : (reduce_twice range v <? range) = false).
      { apply not_true_is_false. intros E. apply Hacc in E. lia. }
      rewrite E. reflexivity. }
  set (n := BN_num_bits range) in *.
  assert (E1 : 2 ^ n = 2 * 2 ^ (n - 1)).
  { replace n with (1 + (n - 1)) at 1 by lia. rewrite Z.pow_add_r by lia. reflexivity. }
  assert (E2 : 2 ^ (n + 1) = 2 * 2 ^ n).
  { rewrite Z.pow_add_r by lia. change (2 ^ 1) with 2. lia. }
  split; [exact Hturn|]. split.
  { rewrite bk_bnrand_range_unfold by assumption. rewrite Htz. apply (Hturn 98%nat). }
  split.
  { intros r Hr. split; [lia|]. apply three_preimages; assumption. }
  split; [|lia].
  unfold bit_length_is, BN_num_bits. destruct (Z.eqb_spec (3 * range) 0); [lia|].
  rewrite Z.abs_eq by lia. rewrite (Z.log2_unique (3 * range) n); [reflexivity|lia|].
  replace (Z.succ n) with (n + 1) by lia. lia.
Qed.

Lemma top_zeros_loop_unbiased_witness :
  (forall c,
     range_loop_top_zeros Toy.libc Toy.brainkey (S (S c)) 16 (BN_num_bits 16) Toy.s0 =
     if 34 <? 3 * 16
     then (Ok (34 mod 16),
           snd (bk_bnrand Toy.libc Toy.brainkey (BN_num_bits 16 + 1) bk_BN_RAND_TOP_ANY
                  bk_BN_RAND_BOTTOM_ANY Toy.s0))
     else range_loop_top_zeros Toy.libc Toy.brainkey (S c) 16 (BN_num_bits 16)
            (snd (bk_bnrand Toy.libc Toy.brainkey (BN_num_bits 16 + 1) bk_BN_RAND_TOP_ANY
                    bk_BN_RAND_BOTTOM_ANY Toy.s0))) /\
  bk_bnrand_range Toy.libc Toy.brainkey 16 Toy.s0 =
    (if 34 <? 3 * 16
     then (Ok (34 mod 16),
           snd (bk_bnrand Toy.libc Toy.brainkey (BN_num_bits 16 + 1) bk_BN_RAND_TOP_ANY
                  bk_BN_RAND_BOTTOM_ANY Toy.s0))
     else range_loop_top_zeros Toy.libc Toy.brainkey 99 16 (BN_num_bits 16)
            (snd (bk_bnrand Toy.libc Toy.brainkey (BN_num_bits 16 + 1) bk_BN_RAND_TOP_ANY
                    bk_BN_RAND_BOTTOM_ANY Toy.s0))) /\
  (forall r, 0 <= r < 16 ->
     r + 2 * 16 < 2 ^ (BN_num_bits 16 + 1) /\
     (34 < 3 * 16 /\ 34 mod 16 = r <-> 34 = r \/ 34 = r + 16 \/ 34 = r + 2 * 16)) /\
  bit_length_is (3 * 16) (BN_num_bits 16 + 1) /\
  3 * 2 ^ (BN_num_bits 16 + 1) <= 4 * (3 * 16).
Proof.
  apply (top_zeros_loop_unbiased Toy.libc Toy.brainkey 16 Toy.s0).
  - reflexivity.
  - lia.
  - vm_compute. discriminate.
  - reflexivity.
  - vm_compute. reflexivity.
Defined.

(** X11.  The other loop of [bk_bnrand_range], for [range = 11..._2] or
    [range = 101..._2].  After a draw that returns [v], a turn that is not
    the last one allowed returns [v] itself if [v < range], and otherwise
    goes on from the state after the draw with [count] less one; so does
    the call, which enters the loop with [count = 100].  The draws below
    [range] are at least five eighths of the [2^n] draws. *)
Theorem plain_loop_acceptance {EC_GROUP EC_POINT : Type} (L : libcrypto EC_GROUP EC_POINT)
  (bk : list byte) (range : Z) (s s' : state) (v : Z) :
  0 < range -> 2 <= BN_num_bits range ->
  negb (BN_is_bit_set range (BN_num_bits range - 2))
    && negb (BN_is_bit_set range (BN_num_bits range - 3)) = false ->
  bk_bnrand L bk (BN_num_bits range) bk_BN_RAND_TOP_ANY bk_BN_RAND_BOTTOM_ANY s
  = (Ok v, s') ->
  (forall c,
     range_loop_plain L bk (S (S c)) range (BN_num_bits range) s =
     if v <? range then (Ok v, s')
     else range_loop_plain L bk (S c) range (BN_num_bits range) s') /\
  bk_bnrand_range L bk range s =
    (if v <? range then (Ok v, s')
     else range_loop_plain L bk 99 range (BN_num_bits range) s') /\
  5 * 2 ^ BN_num_bits range <= 8 * range.
Proof.
  intros Hpos Hn Htz Hdraw.
  change (top_zeros range = false) in Htz.
  assert (Hturn : forall c,
     range_loop_plain L bk (S (S c)) range (BN_num_bits range) s =
     if v <? range then (Ok v, s')
     else range_loop_plain L bk (S c) range (BN_num_bits range) s').
  { intros c.
    pose proof (loop_turn_of_draw L bk range c s s' v) as Hturn.
    unfold the_loop, draw, draw_bits, accepted, candidate in Hturn.
    rewrite Htz in Hturn. apply Hturn; [discriminate|exact Hdraw]. }
  split; [exact Hturn|]. split.
  - rewrite bk_bnrand_range_unfold by assumption. rewrite Htz. apply (Hturn 98%nat).
  - destruct (Z_lt_le_dec (8 * range) (5 * 2 ^ BN_num_bits range)) as [Hlt|]; [|assumption].
    apply (top_zeros_five_eighths range Hpos Hn) in Hlt. congruence.
Qed.

Lemma plain_loop_acceptance_witness :
  (forall c,
     range_loop_plain Toy.libc_salt_length Toy.brainkey (S (S c)) 5 (BN_num_bits 5) Toy.s0 =
     if 7 <? 5
     then (Ok 7,
           snd (bk_bnrand Toy.libc_salt_length Toy.brainkey (BN_num_bits 5)
                  bk_BN_RAND_TOP_ANY bk_BN_RAND_BOTTOM_ANY Toy.s0))
     else range_loop_plain Toy.libc_salt_length Toy.brainkey (S c) 5 (BN_num_bits 5)
            (snd (bk_bnrand Toy.libc_salt_length Toy.brainkey (BN_num_bits 5)
                    bk_BN_RAND_TOP_ANY bk_BN_RAND_BOTTOM_ANY Toy.s0))) /\
  bk_bnrand_range Toy.libc_salt_length Toy.brainkey 5 Toy.s0 =
    (if 7 <? 5
     then (Ok 7,
           snd (bk_bnrand Toy.libc_salt_length Toy.brainkey (BN_num_bits 5)
                  bk_BN_RAND_TOP_ANY bk_BN_RAND_BOTTOM_ANY Toy.s0))
     else range_loop_plain Toy.libc_salt_length Toy.brainkey 99 5 (BN_num_bits 5)
            (snd (bk_bnrand Toy.libc_salt_length Toy.brainkey (BN_num_bits 5)
                    bk_BN_RAND_TOP_ANY bk_BN_RAND_BOTTOM_ANY Toy.s0))) /\
  5 * 2 ^ BN_num_bits 5 <= 8 * 5.
Proof.
  apply (plain_loop_acceptance Toy.libc_salt_length Toy.brainkey 5 Toy.s0).
  - lia.
  - vm_compute. discriminate.
  - reflexivity.
  - vm_compute. reflexivity.
Defined.

(** X12.  In [bk_bnrand_range], for a range of at least two bits and when the
    subtractions do not fail: a first draw [v] below [3 * range] in the loop
    for [range = 100..._2] makes the call return [v mod range], a first draw
    below [range] in the other loop makes it return [v], and the call has
    then cost this one draw. *)
Theorem first_draw_accepted {EC_GROUP EC_POINT : Type} (L : libcrypto EC_GROUP EC_POINT)
  (bk : list byte) (range : Z) (s s' : state) (v : Z) :
  (forall a b, BN_sub_ok L a b = true) ->
  0 < range -> 2 <= BN_num_bits range ->
  draw L bk range s = (Ok v, s') ->
  (top_zeros range = true -> v < 3 * range ->
   bk_bnrand_range L bk range s = (Ok (v mod range), s')) /\
  (top_zeros range = false -> v < range ->
   bk_bnrand_range L bk range s = (Ok v, s')).
Proof.
  intros Hsub Hpos Hn Hdraw.
  assert (Hv : 0 <= v) by (unfold draw in Hdraw; eapply bk_bnrand_nonneg; exact Hdraw).
  rewrite (bk_bnrand_range_the_loop L bk range s Hpos Hn).
  rewrite (loop_turn_of_draw L bk range 98 s s' v (fun _ => Hsub) Hdraw).
  destruct (reduce_twice_cases range v Hpos Hv) as [Hacc Hmod].
  unfold accepted, candidate.
  split; intros Htz Hlt; rewrite Htz.
  - rewrite (proj2 Hacc Hlt), (Hmod Hlt). reflexivity.
  - destruct (Z.ltb_spec v range); [reflexivity|lia].
Qed.

Lemma first_draw_accepted_witness :
  (top_zeros 11 = true -> 2 < 3 * 11 ->
   bk_bnrand_range Toy.libc Toy.brainkey 11 Toy.s0
   = (Ok (2 mod 11), snd (draw Toy.libc Toy.brainkey 11 Toy.s0))) /\
  (top_zeros 11 = false -> 2 < 11 ->
   bk_bnrand_range Toy.libc Toy.brainkey 11 Toy.s0
   = (Ok 2, snd (draw Toy.libc Toy.brainkey 11 Toy.s0))).
Proof.
  apply (first_draw_accepted Toy.libc Toy.brainkey 11 Toy.s0).
  - reflexivity.
  - lia.
  - vm_compute. discriminate.
  - vm_compute. reflexivity.
Defined.

(** ** The calls of the deterministic path *)

Lemma derivations_only_refl (bk : list byte) (s s' : state) :
  calls s' = calls s -> derivations_only bk s s'.
Proof. intros H. exists []. split; [exact H|constructor]. Qed.

Lemma derivations_only_trans (bk : list byte) (s s1 s2 : state) :
  derivations_only bk s s1 -> derivations_only bk s1 s2 -> derivations_only bk s s2.
Proof.
  intros (n1 & E1 & F1) (n2 & E2 & F2). exists (n2 ++ n1). split.
  - rewrite E2, E1, app_assoc. reflexivity.
  - apply Forall_app. split; assumption.
Qed.

Lemma keeps_pure {A} (bk : list byte) (m : M A) :
  (forall s, snd (m s) = s) -> keeps_to_derivations bk m.
Proof.
  intros Hm s o s' E. apply derivations_only_refl.
  specialize (Hm s). rewrite E in Hm. simpl in Hm. subst s'. reflexivity.
Qed.

Lemma keeps_bind {A B} (bk : list byte) (m : M A) (f : A -> M B) :
  keeps_to_derivations bk m -> (forall a, keeps_to_derivations bk (f a)) ->
  keeps_to_derivations bk (bind m f).
Proof.
  intros Hm Hf s o s' E. unfold bind in E.
  destruct (m s) as [[a| | |] s1] eqn:Em; pose proof (Hm _ _ _ Em) as H1.
  - eapply derivations_only_trans; [exact H1|]. eapply Hf. exact E.
  - injection E as _ <-. exact H1.
  - injection E as _ <-. exact H1.
  - injection E as _ <-. exact H1.
Qed.

Lemma keeps_buf_update (bk buf : list byte) (i : Z) (f : Z -> Z) :
  keeps_to_derivations bk (buf_update buf i f).
Proof.
  apply keeps_pure. intros s. unfold buf_update. destruct (buf_get buf i); reflexivity.
Qed.

Section CallsOfTheProgram.

Context {EC_GROUP EC_POINT : Type}.
Variable L : libcrypto EC_GROUP EC_POINT.
Variable bk : list byte.

Lemma keeps_loop (fuel : nat) : forall buflen have buf,
  keeps_to_derivations bk (bk_RAND_bytes_loop L bk fuel buflen have buf).
Proof.
  induction fuel as [|fuel IH]; intros buflen have buf; simpl;
    (destruct (have <? buflen); [|apply keeps_pure; reflexivity]).
  - apply keeps_pure. reflexivity.
  - intros s o s' E. unfold bind at 1, post_incr_salt_cnt in E.
    unfold bind at 1, call_PBKDF2, bind at 1, log in E. cbn [salt_cnt calls] in E.
    rewrite saltbuf_block_salt in E.
    assert (Hcall : derivations_only bk s
              (mkState (uint_incr (salt_cnt s))
                 (Ev_PBKDF2 (pass bk) (block_salt bk (salt_cnt s)) 10000 EVP_sha256 32
                    :: calls s))).
    { exists [block_call bk (block_salt bk) (salt_cnt s)]. split; [reflexivity|].
      constructor; [|constructor]. exists (salt_cnt s). reflexivity. }
    destruct (PKCS5_PBKDF2_HMAC L (pass bk) (block_salt bk (salt_cnt s)) 10000 EVP_sha256 32).
    + eapply derivations_only_trans; [exact Hcall|]. eapply IH. exact E.
    + injection E as _ <-. exact Hcall.
Qed.

Lemma keeps_fill (buflen : Z) : keeps_to_derivations bk (bk_RAND_bytes L bk buflen).
Proof.
  unfold bk_RAND_bytes. destruct (size bk <? 16); [apply keeps_pure; reflexivity|].
  destruct (buflen <? 0); [apply keeps_pure; reflexivity|].
  apply keeps_bind; [apply keeps_loop|]. intros buf. apply keeps_pure. reflexivity.
Qed.

Lemma keeps_shape_buf (bytes bit mask top bottom : Z) (buf : list byte) :
  keeps_to_derivations bk (shape_buf bytes bit mask top bottom buf).
Proof.
  unfold shape_buf. apply keeps_bind.
  - destruct (top >=? 0); [|apply keeps_pure; reflexivity].
    destruct (negb (top =? 0)); [|apply keeps_buf_update].
    destruct (bit =? 0); [|apply keeps_buf_update].
    apply keeps_bind; [apply keeps_buf_update|]. intros b. apply keeps_buf_update.
  - intros buf1. apply keeps_bind; [apply keeps_buf_update|]. intros buf2.
    destruct (negb (bottom =? 0)); [apply keeps_buf_update|apply keeps_pure; reflexivity].
Qed.

Lemma keeps_bk_bnrand (bits top bottom : Z) :
  keeps_to_derivations bk (bk_bnrand L bk bits top bottom).
Proof.
  unfold bk_bnrand. destruct (bits =? 0).
  { destruct (_ || _); apply keeps_pure; reflexivity. }
  destruct (_ || _); [apply keeps_pure; reflexivity|]. cbv zeta.
  destruct (negb _); [apply keeps_pure; reflexivity|].
  apply keeps_bind; [apply keeps_fill|]. intros [b buf].
  destruct (b <=? 0); [apply keeps_pure; reflexivity|].
  apply keeps_bind; [apply keeps_shape_buf|]. intros buf'.
  destruct (negb _); apply keeps_pure; reflexivity.
Qed.

Lemma keeps_call_BN_sub (a b : Z) : keeps_to_derivations bk (call_BN_sub L a b).
Proof.
  apply keeps_pure. intros s. unfold call_BN_sub. destruct (BN_sub_ok L a b); reflexivity.
Qed.

Lemma keeps_range_loop_top_zeros (range n : Z) (count : nat) :
  keeps_to_derivations bk (range_loop_top_zeros L bk count range n).
Proof.
  induction count as [|c IH]; simpl; [apply keeps_pure; reflexivity|].
  apply keeps_bind; [apply keeps_bk_bnrand|]. intros r. apply keeps_bind.
  - destruct (BN_cmp r range >=? 0); [|apply keeps_pure; reflexivity].
    apply keeps_bind; [apply keeps_call_BN_sub|]. intros r1.
    destruct (BN_cmp r1 range >=? 0); [apply keeps_call_BN_sub|apply keeps_pure; reflexivity].
  - intros r'. destruct (Nat.eqb c 0); [apply keeps_pure; reflexivity|].
    destruct (BN_cmp r' range >=? 0); [exact IH|apply keeps_pure; reflexivity].
Qed.

Lemma keeps_range_loop_plain (range n : Z) (count : nat) :
  keeps_to_derivations bk (range_loop_plain L bk count range n).
Proof.
  induction count as [|c IH]; simpl; [apply keeps_pure; reflexivity|].
  apply keeps_bind; [apply keeps_bk_bnrand|]. intros r.
  destruct (Nat.eqb c 0); [apply keeps_pure; reflexivity|].
  destruct (BN_cmp r range >=? 0); [exact IH|apply keeps_pure; reflexivity].
Qed.

Lemma keeps_bk_bnrand_range (range : Z) :
  keeps_to_derivations bk (bk_bnrand_range L bk range).
Proof.
  unfold bk_bnrand_range. destruct (_ || _); [apply keeps_pure; reflexivity|]. cbv zeta.
  destruct (_ =? 1); [apply keeps_pure; reflexivity|].
  destruct (_ && _); [apply keeps_range_loop_top_zeros|apply keeps_range_loop_plain].
Qed.

Lemma keeps_sample_priv_key (order : Z) (fuel : nat) :
  keeps_to_derivations bk (sample_priv_key L bk fuel order).
Proof.
  induction fuel as [|fuel IH]; simpl; [apply keeps_pure; reflexivity|].
  apply keeps_bind; [apply keeps_bk_bnrand_range|]. intros r.
  destruct (BN_is_zero r); [exact IH|apply keeps_pure; reflexivity].
Qed.

End CallsOfTheProgram.

(** X13.  With a brainkey of at least 16 bytes the generator never calls
    libcrypto's own key generator, however it ends: the only calls it adds
    are derivations of keystream blocks, each PBKDF2 with SHA-256 of the
    passphrase, 10000 iterations and 32 bytes, salted with the salt of some
    counter value. *)
Theorem deterministic_path_calls {EC_GROUP EC_POINT : Type}
  (L : libcrypto EC_GROUP EC_POINT) (bk : list byte) (fuel : nat)
  (eckey eckey' : EC_KEY EC_GROUP EC_POINT) (s s' : state) (o : outcome Z) :
  16 <= size bk ->
  EC_KEY_generate_key L bk fuel eckey s = (o, eckey', s') ->
  exists new,
    calls s' = new ++ calls s /\
    Forall (is_block_call bk) new /\
    ~ In Ev_lib_EC_KEY_generate_key new.
Proof.
  intros Hbk Hrun.
  assert (Hd : derivations_only bk s s').
  { rewrite EC_KEY_generate_key_unfold in Hrun by assumption.
    destruct (negb _);
      [injection Hrun as _ _ <-; apply derivations_only_refl; reflexivity|].
    destruct (EC_GROUP_get_order L (group eckey)) as [order|];
      [|injection Hrun as _ _ <-; apply derivations_only_refl; reflexivity].
    destruct (sample_priv_key L bk fuel order s) as [o1 s1] eqn:Es.
    apply keeps_sample_priv_key in Es.
    assert (Hs : s' = s1); [|subst s'; exact Es].
    destruct o1 as [priv| | |]; try (injection Hrun as _ _ <-; reflexivity).
    destruct (EC_POINT_mul L (group eckey) priv);
      [|injection Hrun as _ _ <-; reflexivity].
    destruct (EC_KEY_set_private_key L eckey priv) as [rc1 k1].
    destruct (negb (rc1 =? 1)); [injection Hrun as _ _ <-; reflexivity|].
    destruct (EC_KEY_set_public_key L k1 _) as [rc2 k2].
    destruct (negb (rc2 =? 1)); injection Hrun as _ _ <-; reflexivity. }
  destruct Hd as (new & Hcalls & Hall). exists new. repeat split; try assumption.
  intros Hin. rewrite Forall_forall in Hall. destruct (Hall _ Hin) as [c Hc].
  discriminate Hc.
Qed.

Lemma deterministic_path_calls_witness :
  exists new,
    calls (snd (EC_KEY_generate_key Toy.libc Toy.brainkey 5 (Toy.key0 11) Toy.s0))
    = new ++ calls Toy.s0 /\
    Forall (is_block_call Toy.brainkey) new /\
    ~ In Ev_lib_EC_KEY_generate_key new.
Proof.
  apply (deterministic_path_calls Toy.libc Toy.brainkey 5 (Toy.key0 11)
           (mkEC_KEY 11 (Some 2) (Some 2)) Toy.s0 _ (Ok 1)).
  - vm_compute. discriminate.
  - vm_compute. reflexivity.
Defined.

(** ** Group orders that are no orders *)

(** X14.  With a group order of 1 the only scalar that can be sampled is 0, which
    the generator resamples: the call comes to no end, whatever the fuel,
    and touches neither the key object nor the counter.  With an order that
    is zero or negative the call returns 0 at once, the key object and the
    state untouched. *)
Theorem generator_degenerate_orders {EC_GROUP EC_POINT : Type}
  (L : libcrypto EC_GROUP EC_POINT) (bk : list byte)
  (eckey : EC_KEY EC_GROUP EC_POINT) (s : state) (order : Z) :
  16 <= size bk ->
  BN_CTX_new_ok L = true -> BN_new_ok L = true -> EC_POINT_new_ok L (group eckey) = true ->
  EC_GROUP_get_order L (group eckey) = Some order ->
  (order = 1 ->
   forall fuel, EC_KEY_generate_key L bk fuel eckey s = (OutOfFuel, eckey, s)) /\
  (order <= 0 ->
   forall fuel, EC_KEY_generate_key L bk (S fuel) eckey s = (Return0 InvalidRange, eckey, s)).
Proof.
  intros Hbk Hctx Hbn Hpt Horder.
  assert (Hun : forall fuel,
    EC_KEY_generate_key L bk fuel eckey s =
    match sample_priv_key L bk fuel order s with
    | (Ok priv, s') => EC_KEY_generate_key L bk fuel eckey s
    | (Return0 why, s') => (Return0 why, eckey, s')
    | (Undefined, s') => (Undefined, eckey, s')
    | (OutOfFuel, s') => (OutOfFuel, eckey, s')
    end).
  { intros fuel. rewrite EC_KEY_generate_key_unfold by assumption.
    rewrite Hctx, Hbn, Hpt, Horder. simpl negb. cbv iota.
    destruct (sample_priv_key L bk fuel order s) as [[priv| | |] s1]; reflexivity. }
  split.
  - intros -> fuel. rewrite Hun.
    assert (Hloop : forall f, sample_priv_key L bk f 1 s = (OutOfFuel, s)).
    { induction f as [|f IH]; [reflexivity|]. simpl.
      erewrite bind_ok by reflexivity. exact IH. }
    rewrite Hloop. reflexivity.
  - intros Hle fuel. rewrite Hun. simpl.
    assert (Hr : bk_bnrand_range L bk order s = (Return0 InvalidRange, s)).
    { unfold bk_bnrand_range, BN_is_negative, BN_is_zero.
      destruct (Z.ltb_spec order 0), (Z.eqb_spec order 0); try reflexivity. lia. }
    rewrite (bind_return0 _ _ _ _ _ Hr). reflexivity.
Qed.

Lemma generator_degenerate_orders_witness :
  (1 = 1 ->
   forall fuel,
     EC_KEY_generate_key Toy.libc Toy.brainkey fuel (Toy.key0 1) Toy.s0
     = (OutOfFuel, Toy.key0 1, Toy.s0)) /\
  (1 <= 0 ->
   forall fuel,
     EC_KEY_generate_key Toy.libc Toy.brainkey (S fuel) (Toy.key0 1) Toy.s0
     = (Return0 InvalidRange, Toy.key0 1, Toy.s0)).
Proof.
  apply (generator_degenerate_orders Toy.libc Toy.brainkey (Toy.key0 1) Toy.s0 1).
  - vm_compute. discriminate.
  - reflexivity.
  - reflexivity.
  - reflexivity.
  - reflexivity.
Defined.

(** ** The resampling of a zero scalar *)

(** X15.  When the first scalar sampled is 0 and the second is not, the
    generator stores the second: the call returns 1 with the key object as
    the two setters leave it for that scalar and its public point, and the
    state is the one after the second sampling. *)
Theorem generator_resamples_zero {EC_GROUP EC_POINT : Type}
  (L : libcrypto EC_GROUP EC_POINT) (bk : list byte) (fuel : nat)
  (eckey eckey1 eckey2 : EC_KEY EC_GROUP EC_POINT) (s s1 s2 : state)
  (order d : Z) (pub : EC_POINT) :
  16 <= size bk ->
  BN_CTX_new_ok L = true -> BN_new_ok L = true -> EC_POINT_new_ok L (group eckey) = true ->
  EC_GROUP_get_order L (group eckey) = Some order ->
  bk_bnrand_range L bk order s = (Ok 0, s1) ->
  bk_bnrand_range L bk order s1 = (Ok d, s2) -> d <> 0 ->
  EC_POINT_mul L (group eckey) d = Some pub ->
  EC_KEY_set_private_key L eckey d = (1, eckey1) ->
  EC_KEY_set_public_key L eckey1 pub = (1, eckey2) ->
  EC_KEY_generate_key L bk (S (S fuel)) eckey s = (Ok 1, eckey2, s2).
Proof.
  intros Hbk Hctx Hbn Hpt Horder E0 Ed Hd Hmul Hpriv Hpub.
  rewrite EC_KEY_generate_key_unfold by assumption.
  rewrite Hctx, Hbn, Hpt, Horder. simpl negb. cbv iota.
  assert (Hs : sample_priv_key L bk (S (S fuel)) order s = (Ok d, s2)).
  { cbn [sample_priv_key]. rewrite (bind_ok _ _ _ _ _ E0).
    change (BN_is_zero 0) with true. cbv iota. rewrite (bind_ok _ _ _ _ _ Ed).
    unfold BN_is_zero. destruct (Z.eqb_spec d 0); [contradiction|reflexivity]. }
  rewrite Hs, Hmul, Hpriv. simpl negb. cbv iota. rewrite Hpub. reflexivity.
Qed.

Lemma generator_resamples_zero_witness :
  EC_KEY_generate_key Toy.libc_zero_first Toy.brainkey 2 (Toy.key0 11) Toy.s0
  = (Ok 1, mkEC_KEY 11 (Some 1) (Some 1),
     snd (bk_bnrand_range Toy.libc_zero_first Toy.brainkey 11
            (snd (bk_bnrand_range Toy.libc_zero_first Toy.brainkey 11 Toy.s0)))).
Proof.
  apply (generator_resamples_zero Toy.libc_zero_first Toy.brainkey 0 (Toy.key0 11)
           (mkEC_KEY 11 (Some 1) None) (mkEC_KEY 11 (Some 1) (Some 1)) Toy.s0
           (snd (bk_bnrand_range Toy.libc_zero_first Toy.brainkey 11 Toy.s0)) _ 11 1 1).
  - vm_compute. discriminate.
  - reflexivity.
  - reflexivity.
  - reflexivity.
  - reflexivity.
  - vm_compute. reflexivity.
  - vm_compute. reflexivity.
  - discriminate.
  - reflexivity.
  - reflexivity.
  - reflexivity.
Defined.
